(** * Basketball tracking pipeline: a shallow embedding of the tracking-result
    core (result cache, ball/player track assigners, ball trajectory repair,
    team classification memo) and the properties its specification states.

    Conventions of the embedding.
    - Python floats are modelled by exact rationals [Q]; a comparison
      [norm(v) > t] is the comparison of squares it denotes over the reals
      (lemma [norm_gt_real]). numpy and Python compute in float64: the
      model is what they compute when every intermediate result is
      representable, and a theorem whose conclusion depends on a computed
      value assumes inputs for which that is so (coordinates on a binary
      grid, predicate [dyadic]).
    - A path names a file or a directory literally. A theorem about what
      ends up on the disk assumes a path written plainly (relative, no
      empty, [.] or [..] component: predicate [plain]) and a disk whose
      entries are so named and lie in directories of the disk (predicate
      [tidy]), so that two strings never name one file.
    - A Python dict is a [gmap] when only lookups matter and an association
      list when iteration order matters.
    - A Python call that can raise returns a [result]; a call that also
      reads or changes state is an action of the monad [M].
    - The detector, the tracker and the classifier are parameters; numpy,
      pandas and [os] are modelled as far as the code calls them. *)

From Stdlib Require Import QArith Lia ZArith Ascii Reals Qreals Lra Psatz.
From stdpp Require Import gmap strings list fin_maps.

Open Scope Z_scope.

(** ** Python results *)

Inductive exn :=
| TypeError | ValueError | KeyError | IndexError
| FileNotFoundError | FileExistsError | IsADirectoryError
| NotADirectoryError | UnpicklingError
| Cv2Error.

Inductive result (A : Type) :=
| Ok (a : A)
| Raise (e : exn).
Arguments Ok {A} a.
Arguments Raise {A} e.

#[global] Instance result_ret : MRet result := fun A a => Ok a.
#[global] Instance result_bind : MBind result := fun A B f m =>
  match m with Ok a => f a | Raise e => Raise e end.

(** [int(x)] on a float: truncation toward zero. *)
Definition truncate (q : Q) : Z := Z.quot (Qnum q) (Z.pos (Qden q)).

(** [l[k]] on a Python list: negative indices count from the end. *)
Definition py_index {A} (l : list A) (k : Z) : result A :=
  let k' := if k <? 0 then Z.of_nat (length l) + k else k in
  if k' <? 0 then Raise IndexError
  else match l !! Z.to_nat k' with
       | Some x => Ok x
       | None => Raise IndexError
       end.

(** ** Data model *)

(** A bounding box is the list [[x1, y1, x2, y2]]; the empty list stands for
    "no box". *)
Abbreviation bbox := (list Q).

(** A track is the dict [{"bbox": [...]}], an entry the per-frame dict
    [{identity: track}]. *)
Abbreviation track := (gmap string bbox).
Abbreviation entry := (gmap Z (gmap string bbox)).

(** [x.get(1, {}).get('bbox', [])] *)
Definition get_bbox (e : entry) : bbox :=
  default [] (default ∅ (e !! 1) !! "bbox").

(** [{1: {"bbox": b}}] *)
Definition ball_entry {A} (b : A) : gmap Z (gmap string A) :=
  {[ 1 := {[ "bbox" := b ]} ]}.

(** References to list objects, and the heap that binds them. *)
Definition loc := positive.
Abbreviation heap := (gmap positive (list (gmap Z (gmap string bbox)))).

(** ** numpy on one-dimensional arrays *)

Module Np.

(** [np.array(a) - np.array(b)] with broadcasting of a length-1 operand;
    incompatible shapes raise [ValueError]. *)
Definition sub (a b : list Q) : result (list Q) :=
  if (length a =? length b)%nat then Ok (zip_with Qminus a b)
  else match a, b with
       | [x], _ => Ok (map (fun y => x - y)%Q b)
       | _, [y] => Ok (map (fun x => x - y)%Q a)
       | _, _ => Raise ValueError
       end.

Definition sumsq (v : list Q) : Q :=
  foldr (fun x acc => x * x + acc)%Q 0%Q v.

Definition Qltb (x y : Q) : bool := negb (Qle_bool y x).

(** [np.linalg.norm(v) > t] for an integer [t]: over the reals,
    [sqrt s > t] iff [t < 0] or [t * t < s]. *)
Definition norm_gt (v : list Q) (t : Z) : bool :=
  if t <? 0 then true else Qltb (inject_Z (t * t)) (sumsq v).

End Np.

(** ** pandas, as far as [interpolate_ball_positions] uses it *)

Module Pd.

(** A float64 cell; [None] is NaN, the missing value. *)
Abbreviation cell := (option Q).

(** A frame with the columns [x1, y1, x2, y2], kept row by row; every row
    has one cell per column. *)
Definition ncols : nat := 4.
Abbreviation frame := (list (list (option Q))).

Definition width (data : list (list Q)) : nat :=
  foldr (fun row w => length row `max` w)%nat 0%nat data.

(** [pd.DataFrame(data, columns=['x1','y1','x2','y2'])] for a list of
    lists: the rows are laid out in a table as wide as the longest row,
    short rows padded with missing values; a table whose width is not the
    number of column names is refused ("4 columns passed, passed data had
    k columns"). An empty list gives the empty frame. *)
Definition DataFrame (data : list (list Q)) : result frame :=
  match data with
  | [] => Ok []
  | _ :: _ =>
      if (width data =? ncols)%nat
      then Ok (map (fun row => map (fun k => row !! k) (seq 0 ncols)) data)
      else Raise ValueError
  end.

Definition column (k : nat) (df : frame) : list cell :=
  map (fun row => mjoin (row !! k)) df.

Definition of_columns (n : nat) (cols : list (list cell)) : frame :=
  map (fun i => map (fun c => mjoin (c !! i)) cols) (seq 0 n).

(** A column-wise operation ([axis=0]): each column is an independent
    series. *)
Definition per_column (f : list cell → list cell) (df : frame) : frame :=
  of_columns (length df) (map (fun k => f (column k df)) (seq 0 ncols)).

(** [indices[valid]] paired with [yvalues[valid]], for a series whose
    first row has index [k]. *)
Fixpoint valid_from (k : nat) (col : list cell) : list (nat * Q) :=
  match col with
  | [] => []
  | Some y :: rest => (k, y) :: valid_from (S k) rest
  | None :: rest => valid_from (S k) rest
  end.

Definition of_nat (n : nat) : Q := inject_Z (Z.of_nat n).

(** [np.interp(x, xp, fp)] for [x >= xp[0]], walking the sample points
    from [(x0, y0)]: on the segment that holds [x] the value is
    [slope * (x - x_lo) + y_lo]; right of the last point it is [fp[-1]]. *)
Fixpoint interp_from (x x0 : nat) (y0 : Q) (pts : list (nat * Q)) : Q :=
  match pts with
  | [] => y0
  | (x1, y1) :: pts' =>
      if (x <? x1)%nat
      then ((y1 - y0) / (of_nat x1 - of_nat x0) * (of_nat x - of_nat x0) + y0)%Q
      else interp_from x x1 y1 pts'
  end.

(** Left of the first point [np.interp] gives [fp[0]]. *)
Definition np_interp (x : nat) (pts : list (nat * Q)) : Q :=
  match pts with
  | [] => 0%Q
  | (x0, y0) :: pts' => if (x <? x0)%nat then y0 else interp_from x x0 y0 pts'
  end.

(** [Series.interpolate()] with its defaults (linear, forward, no limit):
    missing values are filled from [np.interp] over the row numbers,
    except those before the first valid value, which stay missing; a series
    with no valid value is returned as it is. *)
Definition interpolate_1d (col : list cell) : list cell :=
  match valid_from 0 col with
  | [] => col
  | ((first_valid, _) :: _) as pts =>
      imap (fun i c =>
              match c with
              | Some y => Some y
              | None => if (i <? first_valid)%nat then None
                        else Some (np_interp i pts)
              end) col
  end.

(** [Series.bfill()]: a missing value takes the next valid one. *)
Fixpoint bfill_1d (col : list cell) : list cell :=
  match col with
  | [] => []
  | c :: rest =>
      let rest' := bfill_1d rest in
      match c with
      | Some y => Some y :: rest'
      | None => mjoin (head rest') :: rest'
      end
  end.

Definition interpolate (df : frame) : frame := per_column interpolate_1d df.
Definition bfill (df : frame) : frame := per_column bfill_1d df.

(** [df.to_numpy().tolist()] *)
Definition tolist (df : frame) : list (list cell) := df.

End Pd.

(** ** State with exceptions

    A Python call that reads or changes state and may raise: the state after
    a raise is the state reached when the exception left the call. *)

Definition M (S A : Type) : Type := S → result A * S.

#[global] Instance M_ret {S} : MRet (M S) := fun A a s => (Ok a, s).
#[global] Instance M_bind {S} : MBind (M S) := fun A B f m s =>
  match m s with
  | (Ok a, s') => f a s'
  | (Raise e, s') => (Raise e, s')
  end.

Definition raise {S A} (e : exn) : M S A := fun s => (Raise e, s).
Definition get {S} : M S S := fun s => (Ok s, s).
Definition put {S} (s : S) : M S unit := fun _ => (Ok tt, s).
Definition lift {S A} (r : result A) : M S A := fun s => (r, s).

(** Run an action on a component of the state. *)
Definition zoom {S T A} (proj : S → T) (upd : T → S → S) (m : M T A) : M S A :=
  fun s => let '(r, t) := m (proj s) in (r, upd t s).

(** [for x in xs: st = body(st, x)] *)
Fixpoint for_in {S X A} (body : A → X → M S A) (xs : list X) (a : A) : M S A :=
  match xs with
  | [] => mret a
  | x :: xs' => a' ← body a x; for_in body xs' a'
  end.

(** The same for a body that only computes or raises. *)
Fixpoint for_result {X A} (body : A → X → result A) (xs : list X) (a : A)
  : result A :=
  match xs with
  | [] => Ok a
  | x :: xs' => a' ← body a x; for_result body xs' a'
  end.

(** [enumerate(xs)] *)
Definition enumerate {X} (xs : list X) : list (nat * X) := imap pair xs.

(** [range(0, stop, step)] *)
Definition range_step (stop step : nat) : list nat :=
  map (fun q => q * step)%nat (seq 0 ((stop + step - 1) / step)).

(** [d[k]] on a dict. *)
Definition py_getitem `{Countable K} {V} (d : gmap K V) (k : K) : result V :=
  match d !! k with
  | Some v => Ok v
  | None => Raise KeyError
  end.

(** ** The file system and [os.path]

    The disk is a finite map from paths to nodes, read and written under
    the path as it is spelled. That is what the operating system does for
    paths written plainly (relative, every component a name: no [.], no
    [..], no empty component, so no leading, doubled or trailing separator)
    on a disk whose entries are so named and lie in directories of the
    disk: two plain paths name the same node only if they are the same
    string. The statements about writes and about cache misses carry these
    two conditions ([plain] and [tidy] below); no links. A file holds a
    pickle of a record or bytes that do not unpickle. *)

Inductive blob (V : Type) :=
| Pickle (v : V)
| Garbage.
Arguments Pickle {V} v.
Arguments Garbage {V}.

Inductive node (V : Type) :=
| Dir
| File (content : blob V).
Arguments Dir {V}.
Arguments File {V} content.

Module Os.

Definition is_sep (c : Ascii.ascii) : bool := Ascii.eqb c "/"%char.

Fixpoint drop_while (p : Ascii.ascii → bool) (l : list Ascii.ascii) : list Ascii.ascii :=
  match l with
  | [] => []
  | c :: l' => if p c then drop_while p l' else l
  end.

Fixpoint take_while (p : Ascii.ascii → bool) (l : list Ascii.ascii) : list Ascii.ascii :=
  match l with
  | [] => []
  | c :: l' => if p c then c :: take_while p l' else []
  end.

Definition rstrip_sep (h : list Ascii.ascii) : list Ascii.ascii :=
  rev (drop_while is_sep (rev h)).

(** [os.path.split(p)]: [head] is [p] up to its last separator, with
    trailing separators stripped unless it is the root; [tail] is what
    follows the last separator. *)
Definition split (p : string) : string * string :=
  let cs := String.list_ascii_of_string p in
  let head := rev (drop_while (fun c => negb (is_sep c)) (rev cs)) in
  let tail := rev (take_while (fun c => negb (is_sep c)) (rev cs)) in
  (String.string_of_list_ascii (if forallb is_sep head then head else rstrip_sep head),
   String.string_of_list_ascii tail).

Definition dirname (p : string) : string := (split p).1.

Definition is_root (p : string) : bool :=
  match String.list_ascii_of_string p with
  | [] => false
  | cs => forallb is_sep cs
  end.

Section Files.

Context {V : Type}.

(** [os.path.exists(p)] *)
Definition path_exists (fs : gmap string (node V)) (p : string) : bool :=
  match p with
  | EmptyString => false
  | _ => is_root p || bool_decide (is_Some (fs !! p))
  end.

(** The directory that is to hold a new entry [p] must be there. *)
Definition parent_ready (fs : gmap string (node V)) (p : string)
  : result unit :=
  let d := dirname p in
  match d with
  | EmptyString => Ok tt
  | _ => if is_root d then Ok tt
         else match fs !! d with
              | Some Dir => Ok tt
              | Some (File _) => Raise NotADirectoryError
              | None => Raise FileNotFoundError
              end
  end.

(** [os.mkdir(p)] *)
Definition mkdir (p : string) : M (gmap string (node V)) unit :=
  fs ← get;
  match p with
  | EmptyString => raise FileNotFoundError
  | _ => if path_exists fs p then raise FileExistsError
         else _ ← lift (parent_ready fs p); put (<[p := Dir]> fs)
  end.

(** [os.makedirs(name)] for a [name] without a trailing separator: the
    missing ancestors are made first, then [name] itself. [fuel] bounds
    the number of ancestors. *)
Fixpoint makedirs_fuel (fuel : nat) (name : string)
  : M (gmap string (node V)) unit :=
  let '(head, tail) := split name in
  fs ← get;
  _ ← match fuel, head, tail with
      | S fuel', String _ _, String _ _ =>
          if path_exists fs head then mret tt
          else fun fs =>
            match makedirs_fuel fuel' head fs with
            | (Raise FileExistsError, fs') => (Ok tt, fs')
            | r => r
            end
      | _, _, _ => mret tt
      end;
  mkdir name.

Definition makedirs (name : string) : M (gmap string (node V)) unit :=
  makedirs_fuel (String.length name) name.

(** [with open(p, 'wb') as f: pickle.dump(v, f)] *)
Definition dump (p : string) (v : V) : M (gmap string (node V)) unit :=
  fs ← get;
  match p, fs !! p with
  | EmptyString, _ => raise FileNotFoundError
  | _, Some Dir => raise IsADirectoryError
  | _, _ => if is_root p then raise IsADirectoryError
            else _ ← lift (parent_ready fs p);
                 put (<[p := File (Pickle v)]> fs)
  end.

(** [with open(p, 'rb') as f: pickle.load(f)] *)
Definition load (p : string) : M (gmap string (node V)) V :=
  fs ← get;
  if is_root p then raise IsADirectoryError
  else match fs !! p with
       | Some (File (Pickle v)) => mret v
       | Some (File Garbage) => raise UnpicklingError
       | Some Dir => raise IsADirectoryError
       | None => raise FileNotFoundError
       end.

(** [os.path.dirname(p)] where [p] may be [None]. *)
Definition path_dirname (p : option string) : result string :=
  match p with
  | Some p => Ok (dirname p)
  | None => Raise TypeError
  end.

End Files.

End Os.

(** ** utils/stubs_utils.py *)

Module Stubs.

Section Stubs.

Context {V : Type}.

Definition save_stub (stub_path : option string) (object : V)
  : M (gmap string (node V)) unit :=
  d ← lift (Os.path_dirname stub_path);
  fs ← get;
  _ ← (if negb (Os.path_exists fs d)
       then d' ← lift (Os.path_dirname stub_path); Os.makedirs d'
       else mret tt);
  match stub_path with
  | Some p => Os.dump p object
  | None => mret tt
  end.

(** The option is Python's value-or-[None]; a cached record is a
    sequence, never [None] itself. *)
Definition read_stub (read_from_stub : bool) (stub_path : option string)
  : M (gmap string (node V)) (option V) :=
  if read_from_stub then
    match stub_path with
    | Some p =>
        fs ← get;
        if Os.path_exists fs p then object ← Os.load p; mret (Some object)
        else mret None
    | None => mret None
    end
  else mret None.

End Stubs.

End Stubs.

(** ** The detector, the tracker and the world the trackers run in *)

(** One row of [sv.Detections]: box, confidence and class id. *)
Record detection := Detection {
  xyxy : bbox;
  confidence : Q;
  class_id : Z
}.

(** One result of [model.predict]: the class-name table and the
    detections of one frame. *)
Record prediction := Prediction {
  names : list (Z * string);
  boxes : list detection
}.

(** The calls made to the external collaborators. *)
Inductive call (image : Type) :=
| Predict (batch : list image)
| TrackerUpdate (detections : list detection).
Arguments Predict {image} batch.
Arguments TrackerUpdate {image} detections.

Record world (image T : Type) := World {
  files : gmap string (node (list entry));
  calls : list (call image);
  tracker : T
}.
Arguments World {image T} files calls tracker.
Arguments files {image T} w.
Arguments calls {image T} w.
Arguments tracker {image T} w.

Definition in_files {image T A}
    (m : M (gmap string (node (list entry))) A) : M (world image T) A :=
  zoom files (fun fs w => World fs (calls w) (tracker w)) m.

(** [{v: k for k, v in cls_names.items()}] *)
Definition invert (cls_names : list (Z * string)) : gmap string Z :=
  foldl (fun inv kv => <[kv.2 := kv.1]> inv) ∅ cls_names.

(** ** trackers/ball_tracker.py *)

Module BallTracker.

Section Detection.

Context {image T : Type}.

(** [self.model.predict(batch, conf=0.5)] *)
Variable predict : list image → list prediction.

Definition model_predict (batch : list image)
  : M (world image T) (list prediction) :=
  fun w => (Ok (predict batch),
            World (files w) (calls w ++ [Predict batch]) (tracker w)).

Definition batch_size : nat := 20.

Definition detect_frames (frames : list image)
  : M (world image T) (list prediction) :=
  for_in (fun detections i =>
            detections_batch ← model_predict (take batch_size (drop i frames));
            mret (detections ++ detections_batch))
         (range_step (length frames) batch_size) [].

(** The body of [for frame_detection in detection_supervision]; the
    state is [(chosen_bbox, max_confidence)]. *)
Definition choose (cls_names_inv : gmap string Z) (st : option bbox * Q)
    (frame_detection : detection) : result (option bbox * Q) :=
  let '(chosen_bbox, max_confidence) := st in
  let bbox := xyxy frame_detection in
  let cls_id := class_id frame_detection in
  let confidence := confidence frame_detection in
  ball ← py_getitem cls_names_inv "Ball";
  if cls_id =? ball then
    if Np.Qltb max_confidence confidence then Ok (Some bbox, confidence)
    else Ok st
  else Ok st.

(** The body of [for frame_num, detection in enumerate(detections)]. *)
Definition track_frame (tracks : list entry) (fd : nat * prediction)
  : result (list entry) :=
  let '(frame_num, detection) := fd in
  let cls_names := names detection in
  let cls_names_inv := invert cls_names in
  let tracks := tracks ++ [∅] in
  st ← for_result (choose cls_names_inv) (boxes detection) (None, 0%Q);
  match st.1 with
  | Some chosen_bbox =>
      e ← py_index tracks (Z.of_nat frame_num);
      Ok (<[frame_num := <[1 := {[ "bbox" := chosen_bbox ]}]> e]> tracks)
  | None => Ok tracks
  end.

Definition get_object_tracks (frames : list image) (read_from_stub : bool)
    (stub_path : option string) : M (world image T) (list entry) :=
  cached ← in_files (Stubs.read_stub read_from_stub stub_path);
  let fresh :=
    detections ← detect_frames frames;
    tracks ← lift (for_result track_frame (enumerate detections) []);
    _ ← in_files (Stubs.save_stub stub_path tracks);
    mret tracks in
  match cached with
  | Some tracks =>
      if (length tracks =? length frames)%nat then mret tracks else fresh
  | None => fresh
  end.

End Detection.

Definition maximum_allowed_distance : Z := 25.

(** One iteration of [for i in range(len(ball_positions))]; the state is
    the list being mutated and [last_good_frame_index]. *)
Definition rwd_body (st : list entry * Z) (i : nat)
  : result (list entry * Z) :=
  let '(ball_positions, last_good_frame_index) := st in
  current ← py_index ball_positions (Z.of_nat i);
  let current_box := get_bbox current in
  if (length current_box =? 0)%nat then Ok st
  else if last_good_frame_index =? -1 then Ok (ball_positions, Z.of_nat i)
  else
    last ← py_index ball_positions last_good_frame_index;
    let last_good_box := get_bbox last in
    let frame_gap := Z.of_nat i - last_good_frame_index in
    let adjusted_max_distance := maximum_allowed_distance * frame_gap in
    d ← Np.sub (take 2 last_good_box) (take 2 current_box);
    if Np.norm_gt d adjusted_max_distance
    then Ok (<[i := ∅]> ball_positions, last_good_frame_index)
    else Ok (ball_positions, Z.of_nat i).

Definition remove_wrong_detections (ball_positions : list entry)
  : result (list entry) :=
  st ← for_result rwd_body (seq 0 (length ball_positions)) (ball_positions, -1);
  Ok st.1.

(** The call on the Python heap. The argument is a reference to a list
    object; [ball_positions[i] = {}] assigns into that object and
    [return ball_positions] hands the same reference back. A reference
    that is not bound to a list is not a valid argument. *)
Definition remove_wrong_detections_call (ball_positions : loc) (h : heap)
  : result (loc * heap) :=
  match h !! ball_positions with
  | None => Raise TypeError
  | Some items =>
      out ← remove_wrong_detections items;
      Ok (ball_positions, <[ball_positions := out]> h)
  end.

(** The result's boxes are rows of float64 cells. *)
Definition interpolate_ball_positions (ball_positions : list entry)
  : result (list (gmap Z (gmap string (list Pd.cell)))) :=
  let ball_positions := map get_bbox ball_positions in
  df_ball_positions ← Pd.DataFrame ball_positions;
  let df_ball_positions := Pd.interpolate df_ball_positions in
  let df_ball_positions := Pd.bfill df_ball_positions in
  Ok (map ball_entry (Pd.tolist df_ball_positions)).

End BallTracker.

(** ** trackers/player_tracker.py *)

Module PlayerTracker.

Section Tracking.

Context {image T : Type}.

(** [self.model.predict(batch, conf=0.5)] *)
Variable predict : list image → list prediction.

(** [self.tracker.update_with_detections]: the tracker's state before,
    the detections of one frame; the state after and the detections
    with their persistent identities. *)
Variable tracker_update : T → list detection → T * list (detection * Z).

Definition model_predict (batch : list image)
  : M (world image T) (list prediction) :=
  fun w => (Ok (predict batch),
            World (files w) (calls w ++ [Predict batch]) (tracker w)).

Definition update_with_detections (detections : list detection)
  : M (world image T) (list (detection * Z)) :=
  fun w => let '(t, tracked) := tracker_update (tracker w) detections in
           (Ok tracked,
            World (files w) (calls w ++ [TrackerUpdate detections]) t).

Definition batch_size : nat := 20.

Definition detect_frames (frames : list image)
  : M (world image T) (list prediction) :=
  for_in (fun detections i =>
            detections_batch ← model_predict (take batch_size (drop i frames));
            mret (detections ++ detections_batch))
         (range_step (length frames) batch_size) [].

(** The body of [for frame_detection in detection_with_tracks]. *)
Definition keep_player (cls_names_inv : gmap string Z) (frame_num : nat)
    (tracks : list entry) (frame_detection : detection * Z)
  : result (list entry) :=
  let bbox := xyxy frame_detection.1 in
  let cls_id := class_id frame_detection.1 in
  let track_id := frame_detection.2 in
  player ← py_getitem cls_names_inv "Player";
  if cls_id =? player then
    e ← py_index tracks (Z.of_nat frame_num);
    Ok (<[frame_num := <[track_id := {[ "bbox" := bbox ]}]> e]> tracks)
  else Ok tracks.

(** The body of [for frame_num, detection in enumerate(detections)]. *)
Definition track_frame (tracks : list entry) (fd : nat * prediction)
  : M (world image T) (list entry) :=
  let '(frame_num, detection) := fd in
  let cls_names := names detection in
  let cls_names_inv := invert cls_names in
  detection_with_tracks ← update_with_detections (boxes detection);
  let tracks := tracks ++ [∅] in
  lift (for_result (keep_player cls_names_inv frame_num)
                   detection_with_tracks tracks).

Definition get_object_tracks (frames : list image) (read_from_stub : bool)
    (stub_path : option string) : M (world image T) (list entry) :=
  cached ← in_files (Stubs.read_stub read_from_stub stub_path);
  let fresh :=
    detections ← detect_frames frames;
    tracks ← for_in track_frame (enumerate detections) [];
    _ ← in_files (Stubs.save_stub stub_path tracks);
    mret tracks in
  match cached with
  | Some tracks =>
      if (length tracks =? length frames)%nat then mret tracks else fresh
  | None => fresh
  end.

End Tracking.

End PlayerTracker.

(** ** team_assigner/team_assigner.py *)

Module TeamAssigner.

(** The assigner object and what it touches: the memo
    [self.player_team_dict], the stub files, and a record of the
    classifier invocations, each tagged with the identity it was made
    for. *)
Record state (image : Type) := State {
  player_team_dict : gmap Z Z;
  files : gmap string (node (list (gmap Z Z)));
  classified : list (Z * image * bbox)
}.
Arguments State {image} player_team_dict files classified.
Arguments player_team_dict {image} s.
Arguments files {image} s.
Arguments classified {image} s.

(** Where a slice bound [i] falls on an axis of [len] elements: negative
    bounds count from the end, and all are clamped to the axis. *)
Definition slice_bound (len i : Z) : Z :=
  if i <? 0 then Z.max (i + len) 0 else Z.min i len.

(** [a[start:stop]] is empty. *)
Definition slice_empty (len start stop : Z) : bool :=
  slice_bound len stop <=? slice_bound len start.

Section Assigner.

Context {image : Type}.

(** [frame.shape[0], frame.shape[1]]: the rows and the columns of a
    frame. *)
Variable shape : image → Z * Z.

(** The CLIP model behind [get_player_color]: for the region of the
    frame inside the box and the two class descriptions,
    [probs.argmax(dim=1)[0]], which is 0 ([false]) or 1 ([true]). *)
Variable argmax : image → bbox → string → string → bool.

(** [self.team_1_class_name], [self.team_2_class_name] *)
Variable team_1_class_name team_2_class_name : string.

Definition in_files {A} (m : M (gmap string (node (list (gmap Z Z)))) A)
  : M (state image) A :=
  zoom files (fun fs s => State (player_team_dict s) fs (classified s)) m.

(** [classes[probs.argmax(dim=1)[0]]] *)
Definition classify (frame : image) (bbox : bbox) : string :=
  if argmax frame bbox team_1_class_name team_2_class_name
  then team_2_class_name else team_1_class_name.

(** The crop [frame[int(bbox[1]):int(bbox[3]), int(bbox[0]):int(bbox[2])]]
    never raises by itself but may be empty, and [cv2.cvtColor] refuses
    an empty image. *)
Definition get_player_color (frame : image) (bbox : bbox)
  : result string :=
  y1 ← py_index bbox 1;
  y2 ← py_index bbox 3;
  x1 ← py_index bbox 0;
  x2 ← py_index bbox 2;
  if slice_empty (shape frame).1 (truncate y1) (truncate y2)
     || slice_empty (shape frame).2 (truncate x1) (truncate x2)
  then Raise Cv2Error
  else Ok (classify frame bbox).

Definition get_player_team (frame : image) (player_bbox : bbox)
    (player_id : Z) : M (state image) Z :=
  s ← get;
  match player_team_dict s !! player_id with
  | Some team => mret team
  | None =>
      player_color ← lift (get_player_color frame player_bbox);
      let team_id := if String.eqb player_color team_1_class_name
                     then 1 else 2 in
      _ ← put (State (<[player_id := team_id]> (player_team_dict s))
                     (files s)
                     (classified s ++ [(player_id, frame, player_bbox)]));
      mret team_id
  end.

Definition memo_window : nat := 50.

(** The body of [for player_id, track in player_track.items()]. *)
Definition assign_player (video_frames : list image) (frame_num : nat)
    (player_assignment : list (gmap Z Z))
    (item : Z * gmap string bbox) : M (state image) (list (gmap Z Z)) :=
  let '(player_id, track) := item in
  frame ← lift (py_index video_frames (Z.of_nat frame_num));
  bbox ← lift (py_getitem track "bbox");
  team ← get_player_team frame bbox player_id;
  a ← lift (py_index player_assignment (Z.of_nat frame_num));
  mret (<[frame_num := <[player_id := team]> a]> player_assignment).

(** The body of [for frame_num, player_track in enumerate(player_tracks)];
    a track dict is the list of its items, in iteration order. *)
Definition assign_frame (video_frames : list image)
    (player_assignment : list (gmap Z Z))
    (ft : nat * list (Z * gmap string bbox))
  : M (state image) (list (gmap Z Z)) :=
  let '(frame_num, player_track) := ft in
  let player_assignment := player_assignment ++ [∅] in
  _ ← (if (frame_num mod memo_window =? 0)%nat
       then s ← get; put (State ∅ (files s) (classified s))
       else mret tt);
  for_in (assign_player video_frames frame_num) player_track
         player_assignment.

Definition get_player_teams_across_frames (video_frames : list image)
    (player_tracks : list (list (Z * gmap string bbox)))
    (read_from_stub : bool) (stub_path : option string)
  : M (state image) (list (gmap Z Z)) :=
  cached ← in_files (Stubs.read_stub read_from_stub stub_path);
  let fresh :=
    player_assignment ←
      for_in (assign_frame video_frames) (enumerate player_tracks) [];
    _ ← in_files (Stubs.save_stub stub_path player_assignment);
    mret player_assignment in
  match cached with
  | Some player_assignment =>
      if (length player_assignment =? length video_frames)%nat
      then mret player_assignment else fresh
  | None => fresh
  end.

End Assigner.

End TeamAssigner.

(** ** Outlier rejection as the specification words it *)

Module Repair.

(** Squared Euclidean distance between the top-left corners of two boxes. *)
Definition corner_dist_sq (a b : bbox) : Q :=
  match a, b with
  | xa :: ya :: _, xb :: yb :: _ =>
      ((xa - xb) * (xa - xb) + (ya - yb) * (ya - yb))%Q
  | _, _ => 0%Q
  end.

Definition base_threshold : Z := 25.

(** "distance exceeds threshold", with [threshold = base_threshold × gap]
    and [gap >= 1], compared on squares. *)
Definition exceeds (a b : bbox) (gap : Z) : bool :=
  let threshold := inject_Z (base_threshold * gap) in
  Np.Qltb (threshold * threshold)%Q (corner_dist_sq a b).

(** The forward pass: [i] is the index of the head of [frames],
    [last_good] the index and box of the last accepted frame. *)
Fixpoint outlier_pass (i : nat) (last_good : option (nat * bbox))
    (frames : list entry) : list entry :=
  match frames with
  | [] => []
  | e :: rest =>
      match get_bbox e with
      | [] => e :: outlier_pass (S i) last_good rest
      | (_ :: _) as b =>
          match last_good with
          | None => e :: outlier_pass (S i) (Some (i, b)) rest
          | Some (j, bj) =>
              if exceeds bj b (Z.of_nat i - Z.of_nat j)
              then ∅ :: outlier_pass (S i) last_good rest
              else e :: outlier_pass (S i) (Some (i, b)) rest
          end
      end
  end.

Definition outlier_rejection (frames : list entry) : list entry :=
  outlier_pass 0 None frames.

End Repair.

(** The Euclidean distance between the top-left corners, a real number. *)
Definition corner_distance (a b : bbox) : R :=
  sqrt (Q2R (Repair.corner_dist_sq a b)).

(** A frame's box is well formed when it is absent or has four coordinates. *)
Definition well_formed (e : entry) : Prop :=
  length (get_bbox e) = 0%nat ∨ length (get_bbox e) = 4%nat.

Definition b0 : bbox := [0; 0; 10; 10]%Q.
Definition b1000 : bbox := [1000; 1000; 1010; 1010]%Q.

(** [(0,0)@t0, (0,0)@t1], then [gap - 1] frames without a box, then
    [(1000,1000)]: the last frame is [gap] frames after the last good one. *)
Definition jump (gap : nat) : list entry :=
  [ball_entry b0; ball_entry b0] ++ replicate (gap - 1) ∅ ++ [ball_entry b1000].


(** ** Vocabulary of the statements *)

(** *** Outlier rejection *)

(** The loop invariant tying [last_good_frame_index] to the reference
    carried by [outlier_pass]. *)
Definition reference_inv (done : list entry) (last : Z)
    (lg : option (nat * bbox)) : Prop :=
  match lg with
  | None => last = -1
  | Some (j, bj) =>
      last = Z.of_nat j ∧ (2 ≤ length bj)%nat ∧
      ∃ ej, done !! j = Some ej ∧ get_bbox ej = bj
  end.

(** What one frame's entry may become: kept as it is, or erased as a
    whole. *)
Definition kept_or_erased (e o : entry) : Prop :=
  (o = e ∨ o = ∅) ∧ (get_bbox e = [] → o = e) ∧ (get_bbox o ≠ [] → o = e).

(** Frame [i] is the first one with a box. *)
Definition first_with_box (l : list entry) (i : nat) : Prop :=
  (∃ e, l !! i = Some e ∧ get_bbox e ≠ []) ∧
  ∀ j e', (j < i)%nat → l !! j = Some e' → get_bbox e' = [].

(** *** Gap filling *)




(** The cell of row [m], column [k]. *)
Definition cell_at (rows : list (list Pd.cell)) (m k : nat) : Pd.cell :=
  mjoin (rows !! m ≫= fun row => row !! k).


(** A row of the table: the box, padded to the four columns. *)
Definition pad (row : list Q) : list Pd.cell :=
  map (fun k => row !! k) (seq 0 Pd.ncols).

(** Column [k] after interpolation and back-fill. *)
Definition repaired (k : nat) (boxes : list (list Q)) : list Pd.cell :=
  Pd.bfill_1d (Pd.interpolate_1d (map (fun b => b !! k) boxes)).

(** *** Ball selection *)

(** A detection whose class label is "Ball". *)
Definition is_ball (cls_names : list (Z * string)) (d : detection) : Prop :=
  (class_id d, "Ball") ∈ cls_names.

(** The name labels one class id only. *)
Definition unique_name (cls_names : list (Z * string)) (name : string) : Prop :=
  ∀ i j, (i, name) ∈ cls_names → (j, name) ∈ cls_names → i = j.

Definition two_classes : list (Z * string) := [(0, "Ball"); (1, "Player")].

Definition selection_example : prediction :=
  Prediction two_classes
    [Detection [1; 1; 2; 2]%Q (4 # 10) 0;
     Detection [5; 5; 6; 6]%Q (9 # 10) 0;
     Detection [7; 7; 9; 9]%Q (99 # 100) 1].

(** *** Team memo *)

(** The identities of one frame's track dict, in iteration order. *)
Definition ids (player_track : list (Z * gmap string bbox)) : list Z :=
  player_track.*1.

(** The identity shows up in some frame of the chunk. *)
Definition appears (p : Z) (chunk : list (list (Z * gmap string bbox))) : bool :=
  existsb (fun player_track => bool_decide (p ∈ ids player_track)) chunk.

(** The frames of window [w]: indices [50 w .. 50 w + 49]. *)
Definition window (w : nat) (player_tracks : list (list (Z * gmap string bbox)))
  : list (list (Z * gmap string bbox)) :=
  take TeamAssigner.memo_window (drop (TeamAssigner.memo_window * w) player_tracks).

(** How many classifier invocations were made for identity [p]. *)
Definition calls_for {image} (p : Z) (log : list (Z * image * bbox)) : nat :=
  length (List.filter (fun c => c.1.1 =? p) log).

(** In how many of the first [n] windows identity [p] shows up. *)
Definition windows_with (p : Z) (player_tracks : list (list (Z * gmap string bbox)))
    (n : nat) : nat :=
  length (List.filter (fun w => appears p (window w player_tracks)) (seq 0 n)).

(** The box has its four coordinates and cuts a region that is not empty
    out of the frame: what [get_player_color] needs to reach the
    classifier. *)
Definition croppable {image} (shape : image → Z * Z) (frame : image)
    (b : bbox) : Prop :=
  ∃ x1 y1 x2 y2 rest,
    b = x1 :: y1 :: x2 :: y2 :: rest
    ∧ TeamAssigner.slice_empty (shape frame).1 (truncate y1) (truncate y2)
      = false
    ∧ TeamAssigner.slice_empty (shape frame).2 (truncate x1) (truncate x2)
      = false.

(** Every track of the chunk, whose first frame is frame [k] of the video,
    has a box that can be cropped out of its frame. *)
Definition croppable_from {image} (shape : image → Z * Z)
    (video_frames : list image) (k : nat)
    (chunk : list (list (Z * gmap string bbox))) : Prop :=
  ∀ i frame player_track item,
    video_frames !! (k + i)%nat = Some frame →
    chunk !! i = Some player_track → item ∈ player_track →
    ∃ b, item.2 !! "bbox" = Some b ∧ croppable shape frame b.

Definition tracks_croppable {image} (shape : image → Z * Z)
    (video_frames : list image)
    (player_tracks : list (list (Z * gmap string bbox))) : Prop :=
  croppable_from shape video_frames 0 player_tracks.

(** The cache load did not yield a sequence as long as the frame list. *)
Definition cache_miss {V} (loaded : result (option (list V))) (n : nat) : Prop :=
  match loaded with
  | Ok None => True
  | Ok (Some cached) => length cached ≠ n
  | Raise _ => False
  end.

Definition enumerate_from {X} (k : nat) (xs : list X) : list (nat * X) :=
  imap (fun i x => (k + i, x))%nat xs.

Definition box7 : gmap string bbox := {[ "bbox" := [0; 0; 1; 1]%Q ]}.

(** Seventy frames; player 7 is tracked in the frames listed, nobody else. *)
Definition seen_at (frames : list nat) : list (list (Z * gmap string bbox)) :=
  map (fun i => if bool_decide (i ∈ frames) then [(7, box7)] else []) (seq 0 70).

Definition white_only (frame : nat) (b : bbox) (t1 t2 : string) : bool := false.

(** Frames of 720 rows and 1280 columns. *)
Definition hd (frame : nat) : Z * Z := (720, 1280).

Definition team_run (frames : list nat) : list (Z * nat * bbox) :=
  TeamAssigner.classified
    (TeamAssigner.get_player_teams_across_frames hd white_only
       "white shirt" "dark blue shirt" (seq 0 70) (seen_at frames) false
       (Some "stubs/player_assignment_stub.pkl")
       (TeamAssigner.State ∅ ∅ [])).2.

(** *** Caching *)

(** An action that leaves the files alone. *)
Definition keeps_files {image T A} (m : M (world image T) A) : Prop :=
  ∀ w, files (m w).2 = files w.

(** The team a classification stands for. *)
Definition team_of {image} (argmax : image → bbox → string → string → bool)
    (team_1_class_name team_2_class_name : string) (frame : image) (b : bbox)
  : Z :=
  if String.eqb (TeamAssigner.classify argmax team_1_class_name
                   team_2_class_name frame b) team_1_class_name
  then 1 else 2.

(** What a run over frames tracking the identities [seen] adds to the memo
    and to the record of classifier calls. *)
Definition adds {image} (s s' : TeamAssigner.state image) (seen : list Z)
  : Prop :=
  TeamAssigner.files s' = TeamAssigner.files s
  ∧ dom (TeamAssigner.player_team_dict s')
    = (dom (TeamAssigner.player_team_dict s) ∪ list_to_set seen)
  ∧ ∃ new, TeamAssigner.classified s' = TeamAssigner.classified s ++ new
           ∧ ∀ q, calls_for q new
                  = (if decide ((q ∉ dom (TeamAssigner.player_team_dict s))
                                ∧ (q ∈ seen))
                     then 1%nat else 0%nat).

(** [self.player_team_dict = {}] *)
Definition cleared {image} (s : TeamAssigner.state image)
  : TeamAssigner.state image :=
  TeamAssigner.State ∅ (TeamAssigner.files s) (TeamAssigner.classified s).

Definition all_ids (chunk : list (list (Z * gmap string bbox))) : list Z :=
  concat (ids <$> chunk).

(** What a run adds to the record of classifier calls. *)
Definition logs {image} (s s' : TeamAssigner.state image) (count : Z → nat)
  : Prop :=
  TeamAssigner.files s' = TeamAssigner.files s
  ∧ ∃ new, TeamAssigner.classified s' = TeamAssigner.classified s ++ new
           ∧ ∀ q, calls_for q new = count q.

(** *** Where the model is what the program computes *)

(** [x] is a multiple of [2^-k] of magnitude at most [2^m]. Sums,
    differences and products of such numbers are computed exactly in
    float64 as long as the result needs no more than 53 bits. *)
Definition dyadic (k m : nat) (x : Q) : Prop :=
  ∃ n : Z, (x == inject_Z n / inject_Z (2 ^ Z.of_nat k))%Q
           ∧ Z.abs n ≤ 2 ^ Z.of_nat (k + m).

(** The coordinates of the entry's box are on that grid. *)
Definition on_grid (k m : nat) (e : entry) : Prop :=
  Forall (dyadic k m) (get_bbox e).

(** The components of a path, between separators. *)
Fixpoint components_from (current : list Ascii.ascii) (cs : list Ascii.ascii)
  : list string :=
  match cs with
  | [] => [String.string_of_list_ascii (rev current)]
  | c :: cs' =>
      if Os.is_sep c
      then String.string_of_list_ascii (rev current) :: components_from [] cs'
      else components_from (c :: current) cs'
  end.

Definition components (p : string) : list string :=
  components_from [] (String.list_ascii_of_string p).

(** A path written plainly: relative, every component a name (not empty,
    so no leading, doubled or trailing separator, and neither [.] nor
    [..]). *)
Definition plain (p : string) : Prop :=
  Forall (fun c => c ≠ EmptyString ∧ c ≠ "." ∧ c ≠ "..") (components p).

(** A disk whose entries are plainly named and lie in directories of the
    disk (or in the working directory). *)
Definition tidy {V} (fs : gmap string (node V)) : Prop :=
  ∀ q n, fs !! q = Some n →
    plain q ∧ (Os.dirname q = EmptyString ∨ fs !! Os.dirname q = Some Dir).

(** Both, as tests. *)
Definition plainb (p : string) : bool :=
  forallb (fun c => negb (String.eqb c EmptyString)
                    && negb (String.eqb c ".") && negb (String.eqb c ".."))
          (components p).

Definition tidyb {V} (fs : gmap string (node V)) : bool :=
  forallb (fun qn : string * node V =>
             plainb qn.1
             && (String.eqb (Os.dirname qn.1) EmptyString
                 || match fs !! Os.dirname qn.1 with
                    | Some Dir => true
                    | _ => false
                    end))
          (map_to_list fs).

(** ** Worlds of the examples *)

Definition stub_example : gmap string (node (list entry)) :=
  {[ "stubs/ball_track_stubs.pkl" := File (Pickle [∅; ball_entry b0]) ]}.

Definition no_detection (batch : list unit) : list prediction :=
  map (fun _ => Prediction [(0, "Ball"); (1, "Player")] []) batch.

Definition no_tracking (t : unit) (detections : list detection)
  : unit * list (detection * Z) := (t, []).

(** A detector that sees one ball in every frame. *)
Definition one_ball (batch : list unit) : list prediction :=
  map (fun _ => Prediction [(0, "Ball"); (1, "Player")]
                  [Detection b0 (9 # 10) 0]) batch.

Definition bare_stub : gmap string (node (list entry)) :=
  {[ "ball_track_stubs.pkl" := File (Pickle [∅; ball_entry b0]) ]}.

(** The directory part of [p] is not empty and names a directory. *)
Definition directory_exists {V} (fs : gmap string (node V)) (p : string) : Prop :=
  Os.dirname p ≠ EmptyString
  ∧ (Os.is_root (Os.dirname p) = true ∨ fs !! Os.dirname p = Some Dir).

(** The name table of the prediction has the class [name]. *)
Definition knows (name : string) (pr : prediction) : Prop :=
  ∃ id, (id, name) ∈ names pr.

(** The detector answers with one prediction per frame of the batch, and
    every name table knows [name]. *)
Definition detector_ok {image} (predict : list image → list prediction)
    (name : string) : Prop :=
  ∀ batch, length (predict batch) = length batch
           ∧ Forall (knows name) (predict batch).

(** A stale cache in an existing directory. *)
Definition stale_stub : gmap string (node (list entry)) :=
  {[ "stubs" := Dir;
     "stubs/ball_track_stubs.pkl" := File (Pickle [∅; ball_entry b0]) ]}.

(** ** Further vocabulary: trajectories without jumps *)

(** Frame [i] of [l] has the box [b]. *)
Definition boxed (l : list entry) (i : nat) (b : bbox) : Prop :=
  ∃ e, l !! i = Some e ∧ get_bbox e = b ∧ b ≠ [].

(** No frame strictly between [i] and [j] has a box. *)
Definition unboxed_between (l : list entry) (i j : nat) : Prop :=
  ∀ t e, (i < t < j)%nat → l !! t = Some e → get_bbox e = [].

(** Frames [i < j] are consecutive detections, with boxes [bi] and [bj]. *)
Definition consecutive (l : list entry) (i j : nat) (bi bj : bbox) : Prop :=
  (i < j)%nat ∧ boxed l i bi ∧ boxed l j bj ∧ unboxed_between l i j.

(** No two consecutive detections are further apart than the threshold
    allows for their gap. *)
Definition jump_free (l : list entry) : Prop :=
  ∀ i j bi bj, consecutive l i j bi bj →
    Repair.exceeds bi bj (Z.of_nat j - Z.of_nat i) = false.

(** The same, read along the list: [i] is the index of the head, [last_good]
    the detection that precedes it. *)
Fixpoint smooth_from (i : nat) (last_good : option (nat * bbox))
    (l : list entry) : Prop :=
  match l with
  | [] => True
  | e :: rest =>
      match get_bbox e with
      | [] => smooth_from (S i) last_good rest
      | (_ :: _) as b =>
          match last_good with
          | None => True
          | Some (j, bj) =>
              Repair.exceeds bj b (Z.of_nat i - Z.of_nat j) = false
          end
          ∧ smooth_from (S i) (Some (i, b)) rest
      end
  end.

(** The first detection of [l], at index [m] with box [b], is within reach
    of [last_good]; [i] is the index of the head of [l]. *)
Definition reachable_first (i : nat) (last_good : option (nat * bbox))
    (l : list entry) : Prop :=
  ∀ m b, boxed l m b →
    (∀ t e, (t < m)%nat → l !! t = Some e → get_bbox e = []) →
    match last_good with
    | None => True
    | Some (j, bj) =>
        Repair.exceeds bj b (Z.of_nat (i + m) - Z.of_nat j) = false
    end.

(** No frame after [j] has a box. *)
Definition unboxed_after (l : list entry) (j : nat) : Prop :=
  ∀ t e, (j < t)%nat → l !! t = Some e → get_bbox e = [].


(** A ball that does not move, unseen in the middle frame. *)
Definition steady : list entry := [ball_entry b0; ∅; ball_entry b0].

(** A ball seen once, in the second of four frames. *)
Definition lost_ball : list entry :=
  [∅; ball_entry [30; 30; 40; 40]%Q; ∅; ∅].

(** ** Vocabulary for the further properties of the cache *)

(** [fs'] is [fs] with, at most, new directories. *)
Definition grows {V} (fs fs' : gmap string (node V)) : Prop :=
  ∀ q, fs' !! q = fs !! q ∨ (fs !! q = None ∧ fs' !! q = Some Dir).


(** An action of the team assigner that leaves the files alone. *)
Definition team_keeps_files {image A} (m : M (TeamAssigner.state image) A)
  : Prop :=
  ∀ s, TeamAssigner.files (m s).2 = TeamAssigner.files s.

(** A cache of team assignments for two frames. *)
Definition team_stub_example : gmap string (node (list (gmap Z Z))) :=
  {[ "stubs/player_assignment_stub.pkl" := File (Pickle [{[ 7 := 1 ]}; ∅]) ]}.


(** ** Vocabulary for the further properties of the trackers *)

(** [l] cut into consecutive pieces of [n] elements; the last piece may be
    shorter. *)
Fixpoint chunks {A} (fuel n : nat) (l : list A) : list (list A) :=
  match fuel, l with
  | S fuel', _ :: _ => take n l :: chunks fuel' n (drop n l)
  | _, _ => []
  end.

(** The batches handed to the detector for the frame list [frames]. *)
Definition batches {A} (frames : list A) : list (list A) :=
  chunks (length frames) 20 frames.

(** What the detector says about the frames, batch after batch. *)
Definition predictions {image} (predict : list image → list prediction)
    (frames : list image) : list prediction :=
  concat (map predict (batches frames)).



(** What the tracker answers, frame after frame, from the state [t]. *)
Fixpoint tracked {T} (tracker_update : T → list detection → T * list (detection * Z))
    (t : T) (dets : list prediction) : list (list (detection * Z)) :=
  match dets with
  | [] => []
  | pr :: rest =>
      (tracker_update t (boxes pr)).2
      :: tracked tracker_update (tracker_update t (boxes pr)).1 rest
  end.



(** ** Vocabulary for the further properties of the team assigner *)

(** The assignment of one frame against the frame's tracks: the same
    identities, each with team 1 or team 2. *)
Definition teams_of (player_track : list (Z * gmap string bbox))
    (a : gmap Z Z) : Prop :=
  dom a = list_to_set (ids player_track)
  ∧ ∀ p t, a !! p = Some t → t = 1 ∨ t = 2.

(** Inside one window of 50 frames a player has one team. *)
Definition stable (player_assignment : list (gmap Z Z)) : Prop :=
  ∀ i j a b p ti tj,
    (i / 50 = j / 50)%nat →
    player_assignment !! i = Some a → player_assignment !! j = Some b →
    a !! p = Some ti → b !! p = Some tj → ti = tj.

(** The frames of the current window agree with the memo. *)
Definition agree {image} (k : nat) (player_assignment : list (gmap Z Z))
    (s : TeamAssigner.state image) : Prop :=
  ∀ i a p t,
    (i / 50 = k / 50)%nat → player_assignment !! i = Some a →
    a !! p = Some t → TeamAssigner.player_team_dict s !! p = Some t.

(** The memo holds teams 1 and 2 only. *)
Definition valid_memo {image} (s : TeamAssigner.state image) : Prop :=
  ∀ p t, TeamAssigner.player_team_dict s !! p = Some t → t = 1 ∨ t = 2.

(** A disk with the cache directory and no cache file. *)
Definition team_stubs_directory : gmap string (node (list (gmap Z Z))) :=
  {[ "stubs" := Dir ]}.

(** A classifier that changes its mind from one frame to the next. *)
Definition flickering (frame : nat) (b : bbox) (t1 t2 : string) : bool :=
  Nat.odd frame.

(** ** utils/bbox_utils.py

    A coordinate is a float: a rational, or NaN ([None]), as in the rows
    that [interpolate_ball_positions] returns. *)

(** [int(x)]: truncation toward zero; NaN is refused. *)
Definition py_int (x : Pd.cell) : result Z :=
  match x with
  | Some q => Ok (truncate q)
  | None => Raise ValueError
  end.

Definition float_add (x y : Pd.cell) : Pd.cell :=
  match x, y with
  | Some q, Some r => Some (q + r)%Q
  | _, _ => None
  end.

Definition float_half (x : Pd.cell) : Pd.cell :=
  match x with
  | Some q => Some (q / 2)%Q
  | None => None
  end.

Definition get_center_of_bbox (bbox : list Pd.cell) : result (Z * Z) :=
  match bbox with
  | [x1; y1; x2; y2] =>
      x ← py_int (float_half (float_add x1 x2));
      y ← py_int (float_half (float_add y1 y2));
      Ok (x, y)
  | _ => Raise ValueError
  end.

(** ** drawers/

    A frame is its pixels and, on top of them, the shapes drawn so far, in
    drawing order. A track dict is the list of its items, in iteration
    order; the value under ["bbox"] is a list of floats or [None]. *)

Abbreviation color := (Z * Z * Z)%type.

(** [cv2.drawContours(frame, [points], 0, color, thickness)] *)
Inductive shape :=
| Contour (points : list (Z * Z)) (c : color) (thickness : Z).

(** [cv2.FILLED] *)
Definition FILLED : Z := -1.

Record canvas (image : Type) := Canvas {
  pixels : image;
  drawn : list shape
}.
Arguments Canvas {image} pixels drawn.
Arguments pixels {image} c.
Arguments drawn {image} c.

Abbreviation drawn_track := (gmap string (option (list Pd.cell))).

(** drawers/utils.py *)
Definition draw_traingle {image} (frame : canvas image) (bbox : list Pd.cell)
    (c : color) : result (canvas image) :=
  y1 ← py_index bbox 1;
  y ← py_int y1;
  center ← get_center_of_bbox bbox;
  let x := center.1 in
  let triangle_points := [(x, y); (x - 10, y - 20); (x + 10, y - 20)] in
  Ok (Canvas (pixels frame)
             (drawn frame ++ [Contour triangle_points c FILLED;
                              Contour triangle_points (0, 0, 0) 2])).

Module BallTracksDrawer.

Section Drawer.

Context {image : Type}.

Definition ball_pointer_color : color := (0, 255, 0).

(** The body of [for _, ball in ball_dict.items()]. *)
Definition draw_ball (frame : canvas image) (item : Z * drawn_track)
  : result (canvas image) :=
  bbox ← py_getitem item.2 "bbox";
  match bbox with
  | None => Ok frame
  | Some bbox => draw_traingle frame bbox ball_pointer_color
  end.

(** The body of [for frame_num, frame in enumerate(video_frames)]. *)
Definition draw_frame (tracks : list (list (Z * drawn_track)))
(output_video_frames : list (canvas image)) (ff : nat * canvas image)
  : result (list (canvas image)) :=
  let '(frame_num, frame) := ff in
  ball_dict ← py_index tracks (Z.of_nat frame_num);
  frame ← for_result draw_ball ball_dict frame;
  Ok (output_video_frames ++ [frame]).

Definition draw (video_frames : list (canvas image))
(tracks : list (list (Z * drawn_track)))
  : result (list (canvas image)) :=
  for_result (draw_frame tracks) (enumerate video_frames) [].

End Drawer.

End BallTracksDrawer.

Module PlayerTracksDrawer.

Section Drawer.

Context {image : Type}.

(** [draw_ellipse(frame, bbox, color, track_id)] of drawers/utils.py: the
ellipse and the label are cv2's. *)
Variable draw_ellipse :
  canvas image → option (list Pd.cell) → color → Z → result (canvas image).

(** [self.team_1_color], [self.team_2_color] *)
Variable team_1_color team_2_color : color.

Definition default_player_team_id : Z := 1.

(** The body of [for track_id, player in player_dict.items()]. *)
Definition draw_player (player_assigment_for_frame : gmap Z Z)
(frame : canvas image) (item : Z * drawn_track)
  : result (canvas image) :=
  let '(track_id, player) := item in
  let team_id := default default_player_team_id
               (player_assigment_for_frame !! track_id) in
  let c := if team_id =? 1 then team_1_color else team_2_color in
  bbox ← py_getitem player "bbox";
  draw_ellipse frame bbox c track_id.

(** The body of [for frame_num, frame in enumerate(video_frames)]. *)
Definition draw_frame (tracks : list (list (Z * drawn_track)))
(player_assigment : list (gmap Z Z))
(output_video_frames : list (canvas image)) (ff : nat * canvas image)
  : result (list (canvas image)) :=
  let '(frame_num, frame) := ff in
  player_dict ← py_index tracks (Z.of_nat frame_num);
  player_assigment_for_frame ← py_index player_assigment (Z.of_nat frame_num);
  frame ← for_result (draw_player player_assigment_for_frame) player_dict frame;
  Ok (output_video_frames ++ [frame]).

Definition draw (video_frames : list (canvas image))
(tracks : list (list (Z * drawn_track)))
(player_assigment : list (gmap Z Z))
  : result (list (canvas image)) :=
  for_result (draw_frame tracks player_assigment) (enumerate video_frames) [].

End Drawer.

End PlayerTracksDrawer.

(** ** utils/video_utils.py *)

Section Video.

Context {image V : Type}.

(** [frame.shape[0], frame.shape[1]] *)
Variable shape_of : image → Z * Z.

(** [cv2.VideoWriter(path, fourcc, 20.0, size)], the writes and the
  release: what they leave on the disk is cv2's. *)
Variable write_video :
string → Z * Z → list image → M (gmap string (node V)) unit.


End Video.

(** ** Vocabulary for the drawers *)






(** ** Plain paths and tidy disks *)

Lemma plainb_plain (p : string) : plainb p = true → plain p.
Proof.
  unfold plainb, plain. intros H. apply Forall_forall. intros c Hc.
  rewrite forallb_forall in H. apply list_elem_of_In in Hc.
  specialize (H c Hc).
  apply andb_true_iff in H as [H H2]. apply andb_true_iff in H as [H0 H1].
  apply negb_true_iff in H0, H1, H2.
  apply String.eqb_neq in H0, H1, H2. done.
Qed.

Lemma tidyb_tidy {V} (fs : gmap string (node V)) : tidyb fs = true → tidy fs.
Proof.
  unfold tidyb, tidy. intros H q n Hq. rewrite forallb_forall in H.
  apply elem_of_map_to_list, list_elem_of_In in Hq.
  specialize (H (q, n) Hq). simpl in H.
  apply andb_true_iff in H as [Hp Hd]. split; [by apply plainb_plain|].
  apply orb_true_iff in Hd as [Hd|Hd].
  - left. by apply String.eqb_eq.
  - right. by destruct (fs !! Os.dirname q) as [[|c]|].
Qed.
(** * Proofs *)

Lemma py_index_nat {A} (l : list A) (i : nat) (x : A) :
  l !! i = Some x → py_index l (Z.of_nat i) = Ok x.
Proof.
  intros H. unfold py_index.
  destruct (Z.ltb_spec (Z.of_nat i) 0) as [?|_]; [lia|].
  destruct (Z.ltb_spec (Z.of_nat i) 0) as [?|_]; [lia|].
  by rewrite Nat2Z.id, H.
Qed.

Lemma Qltb_proper x x' y y' : (x == x')%Q → (y == y')%Q → Np.Qltb x y = Np.Qltb x' y'.
Proof.
  intros Hx Hy. unfold Np.Qltb. f_equal.
  destruct (Qle_bool y x) eqn:E, (Qle_bool y' x') eqn:E'; try done.
  - apply Qle_bool_iff in E. rewrite Hx, Hy in E. apply Qle_bool_iff in E. congruence.
  - apply Qle_bool_iff in E'. rewrite <- Hx, <- Hy in E'. apply Qle_bool_iff in E'. congruence.
Qed.

Lemma Qltb_lt (x y : Q) : Np.Qltb x y = true ↔ (x < y)%Q.
Proof.
  unfold Np.Qltb. rewrite negb_true_iff. split.
  - intros H. apply Qnot_le_lt. intros Hle.
    apply Qle_bool_iff in Hle. congruence.
  - intros H. destruct (Qle_bool y x) eqn:E; [|done].
    apply Qle_bool_iff in E. by apply Qlt_not_le in H.
Qed.

Lemma Qltb_ge (x y : Q) : Np.Qltb x y = false ↔ (y <= x)%Q.
Proof.
  unfold Np.Qltb. rewrite negb_false_iff. apply Qle_bool_iff.
Qed.

(** *** The comparison of squares is the comparison of distances *)

Lemma sumsq_nonneg (v : list Q) : (0 <= Np.sumsq v)%Q.
Proof.
  induction v as [|x v IH]; simpl; [apply Qle_refl|].
  assert (0 <= x * x)%Q.
  { destruct x as [n d]. unfold Qle, Qmult. simpl. nia. }
  replace 0%Q with (0 + 0)%Q by reflexivity. by apply Qplus_le_compat.
Qed.

Lemma Q2R_inject_Z (z : Z) : Q2R (inject_Z z) = IZR z.
Proof. unfold Q2R. simpl. lra. Qed.

Lemma square_lt_sqrt (t : Z) (s : Q) :
  0 ≤ t → (0 <= s)%Q →
  (inject_Z (t * t) < s)%Q ↔ (IZR t < sqrt (Q2R s))%R.
Proof.
  intros Ht%IZR_le Hs%Qle_Rle.
  replace (Q2R 0) with 0%R in Hs by (unfold Q2R; simpl; lra).
  split.
  - intros H%Qlt_Rlt. rewrite Q2R_inject_Z, mult_IZR in H.
    rewrite <- (sqrt_square (IZR t)) by done.
    apply sqrt_lt_1_alt. split; [nra|done].
  - intros H. apply Rlt_Qlt. rewrite Q2R_inject_Z, mult_IZR.
    rewrite <- (sqrt_sqrt (Q2R s)) by done.
    pose proof (sqrt_pos (Q2R s)). nra.
Qed.

(** [Np.norm_gt v t] decides [norm v > t]. *)
Lemma norm_gt_real (v : list Q) (t : Z) :
  Np.norm_gt v t = true ↔ (IZR t < sqrt (Q2R (Np.sumsq v)))%R.
Proof.
  unfold Np.norm_gt. destruct (Z.ltb_spec t 0) as [Hneg|Hpos].
  - split; [|done]. intros _. apply IZR_lt in Hneg.
    pose proof (sqrt_pos (Q2R (Np.sumsq v))). lra.
  - rewrite Qltb_lt. by apply square_lt_sqrt, sumsq_nonneg.
Qed.

Lemma corner_dist_sq_nonneg (a b : bbox) : (0 <= Repair.corner_dist_sq a b)%Q.
Proof.
  unfold Repair.corner_dist_sq.
  destruct a as [|xa [|ya a]], b as [|xb [|yb b]]; try apply Qle_refl.
  pose proof (sumsq_nonneg [xa - xb; ya - yb]%Q) as H. simpl in H.
  by rewrite Qplus_0_r in H.
Qed.

(** [Repair.exceeds a b gap] decides "the distance between the corners
    exceeds [base_threshold × gap]". *)
Lemma exceeds_distance (a b : bbox) (gap : Z) :
  0 ≤ gap →
  Repair.exceeds a b gap = true
  ↔ (IZR (Repair.base_threshold * gap) < corner_distance a b)%R.
Proof.
  intros Hgap. unfold Repair.exceeds, corner_distance.
  rewrite Qltb_lt, <- inject_Z_mult.
  apply square_lt_sqrt; [unfold Repair.base_threshold; lia|].
  apply corner_dist_sq_nonneg.
Qed.

(** On boxes with at least two coordinates the numpy expression is the
    corner distance test of the specification. *)
Lemma norm_gt_exceeds (a b : bbox) (gap : Z) d :
  (2 ≤ length a)%nat → (2 ≤ length b)%nat → 0 ≤ gap →
  Np.sub (take 2 a) (take 2 b) = Ok d →
  Np.norm_gt d (BallTracker.maximum_allowed_distance * gap) = Repair.exceeds a b gap.
Proof.
  intros Ha Hb Hg.
  destruct a as [|xa [|ya a]]; simpl in Ha; try lia.
  destruct b as [|xb [|yb b]]; simpl in Hb; try lia.
  cbn. intros [= <-].
  unfold Np.norm_gt, Repair.exceeds, BallTracker.maximum_allowed_distance,
    Repair.base_threshold.
  destruct (Z.ltb_spec (25 * gap) 0) as [?|_]; [lia|].
  apply Qltb_proper.
  - by rewrite inject_Z_mult.
  - unfold Np.sumsq, Repair.corner_dist_sq; cbn [foldr]. ring.
Qed.

Section OutlierLoop.

Import BallTracker Repair.

Lemma rwd_body_at (bp : list entry) (last : Z) (i : nat) (e : entry) :
  bp !! i = Some e →
  rwd_body (bp, last) i =
    if (length (get_bbox e) =? 0)%nat then Ok (bp, last)
    else if last =? -1 then Ok (bp, Z.of_nat i)
    else
      ej ← py_index bp last;
      d ← Np.sub (take 2 (get_bbox ej)) (take 2 (get_bbox e));
      if Np.norm_gt d (maximum_allowed_distance * (Z.of_nat i - last))
      then Ok (<[i := ∅]> bp, last)
      else Ok (bp, Z.of_nat i).
Proof. intros H. unfold rwd_body. by rewrite (py_index_nat _ _ e). Qed.

Lemma for_result_cons {X A} (body : A → X → result A) x xs a :
  for_result body (x :: xs) a = a' ← body a x; for_result body xs a'.
Proof. reflexivity. Qed.

Lemma rwd_loop (rest : list entry) :
  ∀ (done : list entry) last lg,
    Forall well_formed rest →
    reference_inv done last lg →
    ∃ last',
      for_result rwd_body (seq (length done) (length rest)) (done ++ rest, last)
      = Ok (done ++ outlier_pass (length done) lg rest, last').
Proof.
  induction rest as [|e rest IH]; intros done last lg Hwf Hinv.
  { exists last. reflexivity. }
  apply Forall_cons in Hwf as [Hwe Hwf].
  assert (Hstep : ∀ e' last2 lg2,
    reference_inv (done ++ [e']) last2 lg2 →
    ∃ last',
      for_result rwd_body (seq (S (length done)) (length rest))
        (done ++ e' :: rest, last2)
      = Ok (done ++ e' :: outlier_pass (S (length done)) lg2 rest, last')).
  { intros e' last2 lg2 Hinv2.
    destruct (IH (done ++ [e']) last2 lg2 Hwf Hinv2) as [last' Hl].
    exists last'. rewrite length_app, <- !(assoc_L (++)) in Hl. simpl in Hl.
    by rewrite Nat.add_1_r in Hl. }
  assert (Hkeep : ∀ lg2 last2, reference_inv done last2 lg2 →
    reference_inv (done ++ [e]) last2 lg2 ∧
    ∀ e', reference_inv (done ++ [e']) last2 lg2).
  { intros [[j bj]|] last2; simpl; [|done].
    intros (-> & Hlen & ej & Hj & Hb).
    split; [|intros e']; (split; [done|split; [done|]]);
      exists ej; (split; [|done]); by apply lookup_app_l_Some. }
  cbn [length seq outlier_pass]. rewrite for_result_cons.
  rewrite (rwd_body_at _ _ _ e) by (by rewrite list_lookup_middle).
  destruct (get_bbox e) as [|c0 cs] eqn:Hbox; cbv beta iota.
  { cbn [length Nat.eqb]. apply Hstep. by apply Hkeep. }
  assert (Hlen : (2 ≤ length (c0 :: cs))%nat).
  { destruct Hwe as [H0|H4]; rewrite Hbox in *; simpl in *; lia. }
  cbn [length Nat.eqb].
  destruct lg as [[j bj]|]; simpl in Hinv.
  - destruct Hinv as (-> & Hbj & ej & Hj & Hej).
    assert (Hjlt : (j < length done)%nat) by (by eapply lookup_lt_Some).
    destruct (Z.eqb_spec (Z.of_nat j) (-1)) as [?|_]; [lia|].
    rewrite (py_index_nat _ _ ej) by (by apply lookup_app_l_Some).
    cbn [mbind result_bind]. rewrite Hej.
    destruct (Np.sub (take 2 bj) (take 2 (c0 :: cs))) as [d|err] eqn:Hsub.
    2:{ exfalso. unfold Np.sub in Hsub. rewrite !length_take in Hsub.
        replace (2 `min` length bj)%nat with 2%nat in Hsub by lia.
        replace (2 `min` length (c0 :: cs))%nat with 2%nat in Hsub by lia.
        done. }
    cbn [mbind result_bind].
    rewrite (norm_gt_exceeds bj (c0 :: cs) _ d); [|done|done|lia|done].
    destruct (exceeds bj (c0 :: cs) _); cbn [mbind result_bind].
    + replace (<[length done:=∅]> (done ++ e :: rest)) with (done ++ ∅ :: rest).
      2:{ by rewrite (insert_app_r_alt _ _ (length done)), Nat.sub_diag by lia. }
      apply Hstep. simpl. split; [done|split; [done|]].
      exists ej. split; [by apply lookup_app_l_Some|done].
    + apply Hstep. simpl. split; [done|split; [done|]].
      exists e. split; [|done].
      by rewrite lookup_app_r, Nat.sub_diag by lia.
  - subst last. cbn [Z.eqb].
    apply Hstep. simpl. split; [done|split; [done|]].
    exists e. split; [|done].
    by rewrite lookup_app_r, Nat.sub_diag by lia.
Qed.

End OutlierLoop.

Lemma np_sub_corners (a b : bbox) :
  a ≠ [] → b ≠ [] → ∃ d, Np.sub (take 2 a) (take 2 b) = Ok d.
Proof.
  intros Ha Hb.
  destruct a as [|xa [|ya a]], b as [|xb [|yb b]]; try done; cbn; eauto.
Qed.

Section OutlierFrame.

Import BallTracker.

Lemma kept_refl e : kept_or_erased e e.
Proof. repeat split; auto. Qed.

Lemma erased_box (e : entry) : get_bbox e ≠ [] → kept_or_erased e ∅.
Proof. intros H. repeat split; auto; done. Qed.

Lemma rwd_loop_frame (rest : list entry) :
  ∀ (done : list entry) last,
    (last = -1 ∨ ∃ j ej, last = Z.of_nat j ∧ done !! j = Some ej
                         ∧ get_bbox ej ≠ []) →
    ∃ out last',
      for_result rwd_body (seq (length done) (length rest)) (done ++ rest, last)
      = Ok (done ++ out, last')
      ∧ Forall2 kept_or_erased rest out
      ∧ (last = -1 → ∀ i, first_with_box rest i → out !! i = rest !! i).
Proof.
  induction rest as [|e rest IH]; intros done last Hinv.
  { exists [], last. split; [done|]. split; [constructor|done]. }
  assert (Hstep : ∀ e' last2,
    (last2 = -1 ∨ ∃ j ej, last2 = Z.of_nat j ∧ (done ++ [e']) !! j = Some ej
                          ∧ get_bbox ej ≠ []) →
    ∃ out last',
      for_result rwd_body (seq (S (length done)) (length rest))
        (done ++ e' :: rest, last2)
      = Ok (done ++ e' :: out, last')
      ∧ Forall2 kept_or_erased rest out
      ∧ (last2 = -1 → ∀ i, first_with_box rest i → out !! i = rest !! i)).
  { intros e' last2 Hinv2.
    destruct (IH (done ++ [e']) last2 Hinv2) as (out & last' & Hl & HF & H1).
    exists out, last'. rewrite length_app, <- !(assoc_L (++)) in Hl.
    simpl in Hl. by rewrite Nat.add_1_r in Hl. }
  assert (Hhere : (done ++ [e]) !! length done = Some e).
  { by rewrite lookup_app_r, Nat.sub_diag by lia. }
  cbn [length seq]. rewrite for_result_cons.
  rewrite (rwd_body_at _ _ _ e) by (by rewrite list_lookup_middle).
  destruct (get_bbox e) as [|c0 cs] eqn:Hbox; cbn [length Nat.eqb mbind result_bind].
  - (* no box: skipped *)
    destruct (Hstep e last) as (out & last' & Hl & HF & H1).
    { destruct Hinv as [?|(j & ej & ? & ? & ?)]; [by left|right].
      exists j, ej. split; [done|]. split; [by apply lookup_app_l_Some|done]. }
    exists (e :: out), last'. split; [done|].
    split; [constructor; [apply kept_refl|done]|].
    intros Hm1 [|i] [(e0 & He0 & Hne) Hbefore]; [done|]. simpl.
    apply H1; [done|]. split; [by exists e0|].
    intros j e' Hj. apply (Hbefore (S j)). lia.
  - assert (Hne : get_bbox e ≠ []) by (by rewrite Hbox).
    destruct (Z.eqb_spec last (-1)) as [->|Hlast].
    + (* first reference *)
      destruct (Hstep e (Z.of_nat (length done))) as (out & last' & Hl & HF & _).
      { right. by exists (length done), e. }
      exists (e :: out), last'. split; [done|].
      split; [constructor; [apply kept_refl|done]|].
      intros _ [|i] [_ Hbefore]; [done|].
      specialize (Hbefore 0%nat e). rewrite Hbefore in Hne; [done|lia|done].
    + destruct Hinv as [?|(j & ej & -> & Hj & Hej)]; [done|].
      rewrite (py_index_nat _ _ ej) by (by apply lookup_app_l_Some).
      cbn [mbind result_bind].
      destruct (np_sub_corners (get_bbox ej) (c0 :: cs)) as [d ->]; [done..|].
      cbn [mbind result_bind].
      destruct (Np.norm_gt d _); cbn [mbind result_bind].
      * (* discarded: the whole entry is erased *)
        replace (<[length done:=∅]> (done ++ e :: rest)) with (done ++ ∅ :: rest).
        2:{ by rewrite (insert_app_r_alt _ _ (length done)), Nat.sub_diag by lia. }
        destruct (Hstep ∅ (Z.of_nat j)) as (out & last' & Hl & HF & _).
        { right. exists j, ej. split; [done|].
          split; [by apply lookup_app_l_Some|done]. }
        exists (∅ :: out), last'. split; [done|].
        split; [constructor; [by apply erased_box|done]|]. done.
      * (* accepted *)
        destruct (Hstep e (Z.of_nat (length done))) as (out & last' & Hl & HF & _).
        { right. by exists (length done), e. }
        exists (e :: out), last'. split; [done|].
        split; [constructor; [apply kept_refl|done]|]. done.
Qed.

End OutlierFrame.


Lemma integer_dyadic (n : Z) (mag : nat) :
  Z.abs n ≤ 2 ^ Z.of_nat mag → dyadic 0 mag (inject_Z n).
Proof.
  intros Hn. exists n. split; [|done].
  change (inject_Z (2 ^ Z.of_nat 0)) with 1%Q. field.
Qed.

Lemma jump_on_grid (gap : nat) : Forall (on_grid 0 20) (jump gap).
Proof.
  assert (H0 : on_grid 0 20 (ball_entry b0)).
  { repeat constructor;
      (apply (integer_dyadic 0 20) || apply (integer_dyadic 10 20));
      by vm_compute. }
  assert (H1000 : on_grid 0 20 (ball_entry b1000)).
  { repeat constructor;
      (apply (integer_dyadic 1000 20) || apply (integer_dyadic 1010 20));
      by vm_compute. }
  unfold jump. apply Forall_app. split.
  { constructor; [done|]. constructor; [done|constructor]. }
  apply Forall_app. split.
  - apply Forall_replicate. by apply Forall_nil.
  - constructor; [done|constructor].
Qed.


(** C10. For every input list, [remove_wrong_detections] succeeds, hands back
    the reference it was given and leaves every other object of the heap
    alone; the list keeps its length; each frame's entry is either exactly
    the input entry or the empty entry (the whole entry, not only the ball's
    box); entries of frames without a box, of the first frame with a box and
    of every frame whose box survives are the input entries. *)
Theorem remove_wrong_detections_frame (h : heap) (r : loc) (items : list entry) :
  h !! r = Some items →
  ∃ out,
    BallTracker.remove_wrong_detections_call r h = Ok (r, <[r := out]> h)
    ∧ length out = length items
    ∧ (∀ i e, items !! i = Some e →
         (out !! i = Some e ∨ out !! i = Some ∅)
         ∧ (get_bbox e = [] → out !! i = Some e)
         ∧ (first_with_box items i → out !! i = Some e)
         ∧ (∀ o, out !! i = Some o → get_bbox o ≠ [] → o = e)).
Proof.
  intros Hr. unfold BallTracker.remove_wrong_detections_call. rewrite Hr.
  unfold BallTracker.remove_wrong_detections.
  destruct (rwd_loop_frame items [] (-1)) as (out & last' & Hl & HF & H1); [by left|].
  simpl in Hl. rewrite Hl. exists out. split; [done|].
  split; [symmetry; by eapply Forall2_length|].
  intros i e Hi.
  destruct (Forall2_lookup_l _ _ _ _ _ HF Hi) as (o & Ho & (Hoe & Hempty & Hbox)).
  rewrite Ho. repeat split.
  - destruct Hoe as [->| ->]; auto.
  - intros He. by rewrite Hempty.
  - intros Hf. rewrite <- Hi. rewrite <- Ho. by apply H1.
  - intros o' [= <-] Hne. by apply Hbox.
Qed.

Lemma remove_wrong_detections_frame_witness :
  ∃ out,
    BallTracker.remove_wrong_detections_call 1%positive {[ 1%positive := jump 1 ]}
    = Ok (1%positive, <[1%positive := out]> {[ 1%positive := jump 1 ]})
    ∧ length out = length (jump 1)
    ∧ (∀ i e, jump 1 !! i = Some e →
         (out !! i = Some e ∨ out !! i = Some ∅)
         ∧ (get_bbox e = [] → out !! i = Some e)
         ∧ (first_with_box (jump 1) i → out !! i = Some e)
         ∧ (∀ o, out !! i = Some o → get_bbox o ≠ [] → o = e)).
Proof.
  apply (remove_wrong_detections_frame {[ 1%positive := jump 1 ]} 1%positive (jump 1)).
  reflexivity.
Defined.

(** ** Interpolation of one series *)

Section Series.

Import Pd.

Implicit Types (col : list cell) (pts : list (nat * Q)).

Lemma valid_from_app k col1 col2 :
  valid_from k (col1 ++ col2)
  = valid_from k col1 ++ valid_from (k + length col1) col2.
Proof.
  revert k. induction col1 as [|[y|] col1 IH]; intros k; simpl.
  - by rewrite Nat.add_0_r.
  - by rewrite IH, Nat.add_succ_r.
  - by rewrite IH, Nat.add_succ_r.
Qed.

Lemma valid_from_missing k col :
  (∀ t, (t < length col)%nat → col !! t = Some None) → valid_from k col = [].
Proof.
  revert k. induction col as [|c col IH]; intros k H; [done|].
  pose proof (H 0%nat ltac:(simpl; lia)) as H0. simpl in H0.
  injection H0 as ->. simpl. apply IH.
  intros t Ht. apply (H (S t)). simpl. lia.
Qed.

Lemma valid_from_lt k col :
  Forall (fun p => (p.1 < k + length col)%nat) (valid_from k col).
Proof.
  revert k. induction col as [|[y|] col IH]; intros k; simpl.
  - constructor.
  - constructor; [simpl; lia|].
    eapply Forall_impl; [apply (IH (S k))|]. simpl. intros; lia.
  - eapply Forall_impl; [apply (IH (S k))|]. simpl. intros; lia.
Qed.

(** The head of the valid points is the first valid row. *)
Lemma valid_from_head k col x y pts :
  valid_from k col = (x, y) :: pts →
  ∃ f, x = (k + f)%nat ∧ col !! f = Some (Some y)
       ∧ ∀ t, (t < f)%nat → col !! t = Some None.
Proof.
  revert k. induction col as [|[y'|] col IH]; intros k; simpl; [done|..].
  - intros [= -> -> _]. exists 0%nat. split; [lia|]. split; [done|]. lia.
  - intros H. destruct (IH _ H) as (f & -> & Hf & Hlt).
    exists (S f). split; [lia|]. split; [done|].
    intros [|t] Ht; [done|]. simpl. apply Hlt. lia.
Qed.

Lemma valid_from_nonempty k col f y :
  col !! f = Some (Some y) → valid_from k col ≠ [].
Proof.
  revert k f. induction col as [|[y'|] col IH]; intros k f; simpl; [done..|].
  destruct f as [|f]; [done|]. simpl. apply IH.
Qed.




Lemma interpolate_1d_length col : length (interpolate_1d col) = length col.
Proof.
  unfold interpolate_1d. destruct (valid_from 0 col) as [|[f y] pts]; [done|].
  apply length_imap.
Qed.

Lemma interpolate_1d_valid col m y :
  col !! m = Some (Some y) → interpolate_1d col !! m = Some (Some y).
Proof.
  intros H. unfold interpolate_1d.
  destruct (valid_from 0 col) as [|[f y'] pts]; [done|].
  by rewrite list_lookup_imap, H.
Qed.


(** Rows before the first valid one stay missing. *)
Lemma interpolate_1d_leading col j b m :
  (∀ t, (t < j)%nat → col !! t = Some None) → col !! j = Some (Some b) →
  (m < j)%nat → interpolate_1d col !! m = Some None.
Proof.
  intros Hlead Hj Hm. unfold interpolate_1d.
  destruct (valid_from 0 col) as [|[f y] pts] eqn:Hv.
  { by apply Hlead. }
  destruct (valid_from_head _ _ _ _ _ Hv) as (f' & -> & Hf & Hbefore).
  assert (f' = j) as ->.
  { destruct (Nat.lt_trichotomy f' j) as [H|[H|H]]; [|done|].
    - rewrite Hlead in Hf by done. done.
    - rewrite Hbefore in Hj by done. done. }
  rewrite list_lookup_imap, (Hlead m Hm). simpl.
  destruct (Nat.ltb_spec m j) as [_|?]; [done|lia].
Qed.

Lemma bfill_1d_length col : length (bfill_1d col) = length col.
Proof. induction col as [|[y|] col IH]; simpl; by rewrite ?IH. Qed.

Lemma bfill_1d_valid col m y :
  col !! m = Some (Some y) → bfill_1d col !! m = Some (Some y).
Proof.
  revert m. induction col as [|c col IH]; intros [|m]; simpl; try done.
  - by intros [= ->].
  - intros H. destruct c; simpl; by apply IH.
Qed.

(** A run of missing rows takes the value of the valid row that ends it. *)
Lemma bfill_1d_next col j b : ∀ m,
  col !! j = Some (Some b) → (m ≤ j)%nat →
  (∀ t, (m ≤ t < j)%nat → col !! t = Some None) →
  bfill_1d col !! m = Some (Some b).
Proof.
  revert j. induction col as [|c col IH]; intros j m Hj Hm Hrun; [done|].
  destruct j as [|j].
  { assert (m = 0)%nat as -> by lia. by apply bfill_1d_valid. }
  simpl in Hj. destruct m as [|m].
  - pose proof (Hrun 0%nat ltac:(lia)) as H0. simpl in H0. injection H0 as ->.
    simpl. f_equal.
    assert (H : bfill_1d col !! 0%nat = Some (Some b)).
    { apply (IH j); [done|lia|]. intros t Ht. apply (Hrun (S t)). lia. }
    destruct (bfill_1d col); [done|]. simpl in *. by injection H as ->.
  - assert (H : bfill_1d col !! m = Some (Some b)).
    { apply (IH j); [done|lia|]. intros t Ht. apply (Hrun (S t)). lia. }
    destruct c; simpl; done.
Qed.

(** A series with one valid row has a value in every row after both fills. *)
Lemma filled_everywhere col f y m :
  col !! f = Some (Some y) → (m < length col)%nat →
  ∃ q, bfill_1d (interpolate_1d col) !! m = Some (Some q).
Proof.
  intros Hf Hm.
  destruct (valid_from 0 col) as [|[f0 y0] pts] eqn:Hv.
  { by apply valid_from_nonempty with (k := 0%nat) in Hf. }
  destruct (valid_from_head _ _ _ _ _ Hv) as (f' & -> & Hf0 & Hbefore).
  simpl in *.
  destruct (Nat.le_gt_cases f' m) as [Hge|Hlt].
  - destruct (lookup_lt_is_Some_2 col m Hm) as [c Hc].
    assert (∃ q, interpolate_1d col !! m = Some (Some q)) as [q Hq].
    { unfold interpolate_1d. rewrite Hv, list_lookup_imap, Hc. simpl.
      destruct c; [by eauto|].
      destruct (Nat.ltb_spec m f') as [?|_]; [lia|]. by eauto. }
    exists q. by apply bfill_1d_valid.
  - exists y0. apply (bfill_1d_next _ f').
    + by apply interpolate_1d_valid.
    + lia.
    + intros t Ht. apply (interpolate_1d_leading col f' y0); [done..|lia].
Qed.

End Series.

(** ** From series to frames *)

Section Frames.

Import Pd.

Lemma width_four (boxes : list (list Q)) :
  Forall (fun b => length b = 0 ∨ length b = 4)%nat boxes →
  Exists (fun b => length b = 4%nat) boxes → width boxes = 4%nat.
Proof.
  intros Hwf Hex.
  assert (Hle : (width boxes ≤ 4)%nat).
  { clear Hex. induction Hwf as [|b boxes Hb _ IH]; simpl; [lia|].
    destruct Hb; lia. }
  assert (Hge : (4 ≤ width boxes)%nat).
  { clear Hwf Hle. induction Hex as [b boxes Hb|b boxes _ IH]; simpl; lia. }
  lia.
Qed.

Lemma column_pad k (boxes : list (list Q)) :
  (k < ncols)%nat → column k (map pad boxes) = map (fun b => b !! k) boxes.
Proof.
  intros Hk. unfold column. rewrite map_map. apply map_ext. intros b.
  unfold pad. rewrite list_lookup_fmap, lookup_seq_lt by done. done.
Qed.

Lemma per_column_length f (df : frame) : length (per_column f df) = length df.
Proof. unfold per_column, of_columns. by rewrite length_map, length_seq. Qed.

Lemma per_column_row f (df : frame) m :
  (m < length df)%nat →
  per_column f df !! m
  = Some (map (fun k => mjoin (f (column k df) !! m)) (seq 0 ncols)).
Proof.
  intros Hm. unfold per_column, of_columns.
  by rewrite list_lookup_fmap, lookup_seq_lt by done.
Qed.

Lemma per_column_column f (df : frame) k :
  (k < ncols)%nat → length (f (column k df)) = length df →
  column k (per_column f df) = f (column k df).
Proof.
  intros Hk Hlen. apply list_eq. intros m.
  unfold column at 1. rewrite list_lookup_fmap.
  destruct (Nat.lt_ge_cases m (length df)) as [Hm|Hm].
  - rewrite per_column_row by done.
    destruct (lookup_lt_is_Some_2 (f (column k df)) m) as [c Hc]; [lia|].
    unfold ncols in Hk.
    do 4 (destruct k as [|k]; [simpl; by rewrite Hc|]). lia.
  - rewrite (lookup_ge_None_2 (per_column f df)) by (by rewrite per_column_length).
    rewrite lookup_ge_None_2 by lia. done.
Qed.

Lemma column_length k (df : frame) : length (column k df) = length df.
Proof. apply length_map. Qed.

Lemma repaired_row (boxes : list (list Q)) m :
  (m < length boxes)%nat →
  bfill (interpolate (map pad boxes)) !! m
  = Some (map (fun k => mjoin (repaired k boxes !! m)) (seq 0 ncols)).
Proof.
  intros Hm. unfold bfill.
  rewrite per_column_row
    by (unfold interpolate; by rewrite per_column_length, length_map).
  f_equal. apply map_ext_in. intros k Hk%in_seq.
  unfold interpolate.
  rewrite per_column_column;
    [|lia|by rewrite interpolate_1d_length, column_length].
  by rewrite column_pad by lia.
Qed.

Lemma repaired_cell (boxes : list (list Q)) m k :
  (m < length boxes)%nat → (k < ncols)%nat →
  cell_at (bfill (interpolate (map pad boxes))) m k = mjoin (repaired k boxes !! m).
Proof.
  intros Hm Hk. unfold cell_at. rewrite repaired_row by done.
  unfold ncols in Hk.
  do 4 (destruct k as [|k]; [done|]). lia.
Qed.

End Frames.



Lemma well_formed_coord (e : entry) (k : nat) (x : Q) :
  well_formed e → get_bbox e !! k = Some x → (k < Pd.ncols)%nat.
Proof.
  intros [H|H] Hk; apply lookup_lt_Some in Hk; unfold Pd.ncols; lia.
Qed.

Lemma DataFrame_boxes (ball_positions : list entry) :
  Forall well_formed ball_positions →
  (∃ i e, ball_positions !! i = Some e ∧ get_bbox e ≠ []) →
  Pd.DataFrame (map get_bbox ball_positions) = Ok (map pad (map get_bbox ball_positions)).
Proof.
  intros Hwf (i & e & Hi & Hne).
  assert (Hw : Pd.width (map get_bbox ball_positions) = 4%nat).
  { apply width_four.
    - apply Forall_fmap. eapply Forall_impl; [exact Hwf|]. by intros e' He'.
    - apply Exists_exists. exists (get_bbox e). split.
      + apply list_elem_of_fmap. exists e. split; [done|].
        by eapply list_elem_of_lookup_2.
      + rewrite Forall_lookup in Hwf. destruct (Hwf _ _ Hi) as [H0|H4]; [|done].
        by destruct (get_bbox e). }
  unfold Pd.DataFrame. rewrite Hw.
  destruct (map get_bbox ball_positions) eqn:E; [|done].
  destruct ball_positions; [done|done].
Qed.




(** ** The result cache *)

Section StubsFacts.

Context {V : Type}.

Implicit Types (fs : gmap string (node V)) (p : string).

Lemma load_state p fs : (Os.load p fs).2 = fs.
Proof.
  unfold Os.load, get, raise, mbind, M_bind, mret, M_ret.
  destruct (Os.is_root p); [done|].
  by destruct (fs !! p) as [[|[v|]]|].
Qed.

Lemma read_stub_state (read_from_stub : bool) (stub_path : option string) fs :
  (Stubs.read_stub read_from_stub stub_path fs).2 = fs.
Proof.
  unfold Stubs.read_stub.
  destruct read_from_stub; [|done].
  destruct stub_path as [p|]; [|done].
  unfold get, mbind, M_bind, mret, M_ret.
  destruct (Os.path_exists fs p); [|done].
  pose proof (load_state p fs) as H.
  by destruct (Os.load p fs) as [[v|e] fs'].
Qed.

Lemma path_exists_file p fs (n : node V) :
  p ≠ EmptyString → fs !! p = Some n → Os.path_exists fs p = true.
Proof.
  intros Hp Hn. unfold Os.path_exists. destruct p; [done|].
  rewrite Hn, bool_decide_true by eauto. by rewrite orb_true_r.
Qed.

Lemma path_exists_empty fs : Os.path_exists fs EmptyString = false.
Proof. done. Qed.

Lemma read_stub_pickled p (v : V) fs :
  p ≠ EmptyString → Os.is_root p = false → fs !! p = Some (File (Pickle v)) →
  Stubs.read_stub true (Some p) fs = (Ok (Some v), fs).
Proof.
  intros Hp Hroot Hv. unfold Stubs.read_stub.
  unfold get, mbind, M_bind, mret, M_ret.
  rewrite (path_exists_file p fs _ Hp Hv).
  unfold Os.load, get, mbind, M_bind, mret, M_ret. by rewrite Hroot, Hv.
Qed.

Lemma read_stub_garbage p fs :
  p ≠ EmptyString → Os.is_root p = false → fs !! p = Some (File Garbage) →
  Stubs.read_stub (V:=V) true (Some p) fs = (Raise UnpicklingError, fs).
Proof.
  intros Hp Hroot Hv. unfold Stubs.read_stub.
  unfold get, mbind, M_bind, mret, M_ret.
  rewrite (path_exists_file p fs _ Hp Hv).
  unfold Os.load, get, raise, mbind, M_bind, mret, M_ret. by rewrite Hroot, Hv.
Qed.

Lemma save_stub_bare p (object : V) fs :
  Os.dirname p = EmptyString →
  Stubs.save_stub (Some p) object fs = (Raise FileNotFoundError, fs).
Proof.
  intros Hd. unfold Stubs.save_stub. simpl. rewrite Hd. reflexivity.
Qed.

End StubsFacts.

(** C6. [save_stub] with an unset path is meant to do nothing, and its last
    statement is guarded for that; the first statement takes
    [os.path.dirname] of the path before the guard, so the call raises
    [TypeError] (writing nothing). *)
Theorem save_stub_unset_path_raises {V : Type} (object : V)
    (fs : gmap string (node V)) :
  Stubs.save_stub None object fs = (Raise TypeError, fs).
Proof. reflexivity. Qed.

(** C7. [read_stub] returns absent exactly when the flag is false, the path
    is unset, or nothing exists at the path; a stored record is returned
    verbatim, whatever it is; a file that does not unpickle makes the call
    raise. The file system is left as it was. *)
Theorem read_stub_contract {V : Type} (read_from_stub : bool)
    (stub_path : option string) (fs : gmap string (node V)) :
  ((Stubs.read_stub read_from_stub stub_path fs).1 = Ok None ↔
     read_from_stub = false ∨ stub_path = None
     ∨ ∃ p, stub_path = Some p ∧ Os.path_exists fs p = false)
  ∧ (∀ p v, read_from_stub = true → stub_path = Some p → p ≠ EmptyString →
       Os.is_root p = false → fs !! p = Some (File (Pickle v)) →
       Stubs.read_stub read_from_stub stub_path fs = (Ok (Some v), fs))
  ∧ (∀ p, read_from_stub = true → stub_path = Some p → p ≠ EmptyString →
       Os.is_root p = false → fs !! p = Some (File Garbage) →
       Stubs.read_stub read_from_stub stub_path fs = (Raise UnpicklingError, fs))
  ∧ (Stubs.read_stub read_from_stub stub_path fs).2 = fs.
Proof.
  split; [|split; [|split]].
  - unfold Stubs.read_stub. destruct read_from_stub; [|by split; auto].
    destruct stub_path as [p|]; [|by split; auto].
    unfold get, mbind, M_bind, mret, M_ret.
    destruct (Os.path_exists fs p) eqn:Hex.
    + split.
      * unfold Os.load, get, raise, mbind, M_bind, mret, M_ret.
        destruct (Os.is_root p); [done|].
        by destruct (fs !! p) as [[|[v|]]|].
      * intros [?|[?|(p' & [= <-] & ?)]]; congruence.
    + split; [|done]. intros _. right; right. by exists p.
  - intros p v -> -> Hp Hroot Hv. by apply read_stub_pickled.
  - intros p -> -> Hp Hroot Hv. by apply read_stub_garbage.
  - apply read_stub_state.
Qed.


Lemma read_stub_contract_witness :
  Stubs.read_stub true (Some "stubs/ball_track_stubs.pkl") stub_example
  = (Ok (Some [∅; ball_entry b0]), stub_example).
Proof.
  apply (proj1 (proj2 (read_stub_contract true
           (Some "stubs/ball_track_stubs.pkl") stub_example))
           "stubs/ball_track_stubs.pkl" [∅; ball_entry b0]);
    try reflexivity. discriminate.
Defined.

(** C3. A sequence in which every frame is empty is meant to come back
    empty; the frame cannot be built from rows that are all empty (the four
    column names meet a table of width 0), so the call raises [ValueError]
    for every such sequence of at least one frame. *)
Theorem interpolate_all_missing_raises (ball_positions : list entry) :
  ball_positions ≠ [] →
  Forall (fun e => get_bbox e = []) ball_positions →
  BallTracker.interpolate_ball_positions ball_positions = Raise ValueError.
Proof.
  intros Hne Hall. unfold BallTracker.interpolate_ball_positions.
  assert (Hw : Pd.width (map get_bbox ball_positions) = 0%nat).
  { induction Hall as [|e l He _ IH]; [done|]. simpl. rewrite He. simpl.
    destruct l; [done|]. by apply IH. }
  unfold Pd.DataFrame. rewrite Hw.
  by destruct ball_positions.
Qed.

Lemma interpolate_all_missing_raises_witness :
  BallTracker.interpolate_ball_positions [∅; ∅] = Raise ValueError.
Proof.
  apply interpolate_all_missing_raises; [discriminate|].
  repeat constructor.
Defined.

(** ** The track assigners and their cache *)

Lemma M_bind_unfold {S A B} (m : M S A) (f : A → M S B) (s : S) :
  (m ≫= f) s = match m s with
               | (Ok a, s') => f a s'
               | (Raise e, s') => (Raise e, s')
               end.
Proof. reflexivity. Qed.

Lemma M_bind_assoc {S A B C} (m : M S A) (f : A → M S B) (g : B → M S C) (s : S) :
  ((m ≫= f) ≫= g) s = (m ≫= fun a => f a ≫= g) s.
Proof.
  rewrite !M_bind_unfold. destruct (m s) as [[a|e] s']; [|done].
  by rewrite M_bind_unfold.
Qed.

Section TrackerFacts.

Context {image T : Type}.

Implicit Types (w : world image T).


Lemma keeps_files_ret {A} (a : A) :
  keeps_files (mret a : M (world image T) A).
Proof. by intros w. Qed.

Lemma keeps_files_lift {A} (r : result A) :
  keeps_files (lift r : M (world image T) A).
Proof. by intros w. Qed.

Lemma keeps_files_bind {A B} (m : M (world image T) A) (f : A → M _ B) :
  keeps_files m → (∀ a, keeps_files (f a)) → keeps_files (m ≫= f).
Proof.
  intros Hm Hf w. rewrite M_bind_unfold. specialize (Hm w).
  destruct (m w) as [[a|e] w']; simpl in *; [|done].
  by rewrite Hf.
Qed.

Lemma keeps_files_for_in {X A} (body : A → X → M (world image T) A) xs :
  (∀ a x, keeps_files (body a x)) → ∀ a, keeps_files (for_in body xs a).
Proof.
  intros Hb. induction xs as [|x xs IH]; intros a; simpl.
  - apply keeps_files_ret.
  - apply keeps_files_bind; [apply Hb|apply IH].
Qed.

Lemma in_files_read_stub (read_from_stub : bool) (stub_path : option string) w :
  in_files (Stubs.read_stub read_from_stub stub_path) w
  = ((Stubs.read_stub read_from_stub stub_path (files w)).1, w).
Proof.
  unfold in_files, zoom.
  pose proof (read_stub_state read_from_stub stub_path (files w)) as H.
  destruct (Stubs.read_stub read_from_stub stub_path (files w)) as [r fs'].
  simpl in *. subst fs'. by destruct w.
Qed.

Lemma in_files_save_bare p (tracks : list entry) w :
  Os.dirname p = EmptyString →
  in_files (Stubs.save_stub (Some p) tracks) w = (Raise FileNotFoundError, w).
Proof.
  intros Hd. unfold in_files, zoom. rewrite save_stub_bare by done.
  by destruct w.
Qed.

(** The recomputation [m], followed by the write to a path without a
    directory part, never returns and never writes. *)
Lemma fresh_bare_path (m : M (world image T) (list entry)) p w :
  keeps_files m → Os.dirname p = EmptyString →
  let run := (tracks ← m;
              _ ← in_files (Stubs.save_stub (Some p) tracks);
              mret tracks) w in
  (∃ e, run.1 = Raise e) ∧ files run.2 = files w.
Proof.
  intros Hm Hd. simpl. rewrite M_bind_unfold. specialize (Hm w).
  destruct (m w) as [[tracks|e] w']; simpl in *; [|by eauto].
  rewrite M_bind_unfold, in_files_save_bare by done. by eauto.
Qed.

Section Ball.

Variable predict : list image → list prediction.

Lemma ball_detect_keeps_files frames :
  keeps_files (BallTracker.detect_frames (T:=T) predict frames).
Proof.
  apply keeps_files_for_in. intros a x.
  apply keeps_files_bind; [by intros w|]. intros; apply keeps_files_ret.
Qed.

End Ball.

Section Player.

Variable predict : list image → list prediction.
Variable tracker_update : T → list detection → T * list (detection * Z).

Lemma player_detect_keeps_files frames :
  keeps_files (PlayerTracker.detect_frames (T:=T) predict frames).
Proof.
  apply keeps_files_for_in. intros a x.
  apply keeps_files_bind; [by intros w|]. intros; apply keeps_files_ret.
Qed.

Lemma player_track_frame_keeps_files tracks fd :
  keeps_files (PlayerTracker.track_frame (image:=image) tracker_update
                 tracks fd).
Proof.
  destruct fd as [frame_num detection]. unfold PlayerTracker.track_frame.
  apply keeps_files_bind; [|intros; apply keeps_files_lift].
  intros w. unfold PlayerTracker.update_with_detections.
  by destruct (tracker_update _ _).
Qed.

End Player.

End TrackerFacts.

(** C4. When the cache load yields a sequence as long as the frame list,
    [get_object_tracks] (of either tracker) returns that sequence and leaves
    the world as it was: no detector call, no tracker call, no file
    written. *)
Theorem get_object_tracks_cache_hit {image T : Type}
    (predict : list image → list prediction)
    (tracker_update : T → list detection → T * list (detection * Z))
    (frames : list image) (read_from_stub : bool) (stub_path : option string)
    (w : world image T) (tracks : list entry) :
  (Stubs.read_stub read_from_stub stub_path (files w)).1 = Ok (Some tracks) →
  length tracks = length frames →
  BallTracker.get_object_tracks predict frames read_from_stub stub_path w
  = (Ok tracks, w)
  ∧ PlayerTracker.get_object_tracks predict tracker_update frames
      read_from_stub stub_path w
    = (Ok tracks, w).
Proof.
  intros Hread Hlen.
  unfold BallTracker.get_object_tracks, PlayerTracker.get_object_tracks.
  rewrite !M_bind_unfold, in_files_read_stub, Hread, Hlen, Nat.eqb_refl.
  done.
Qed.


Lemma get_object_tracks_cache_hit_witness :
  BallTracker.get_object_tracks no_detection [(); ()] true
    (Some "stubs/ball_track_stubs.pkl") (World stub_example [] ())
  = (Ok [∅; ball_entry b0], World stub_example [] ())
  ∧ PlayerTracker.get_object_tracks no_detection no_tracking [(); ()] true
      (Some "stubs/ball_track_stubs.pkl") (World stub_example [] ())
    = (Ok [∅; ball_entry b0], World stub_example [] ()).
Proof.
  apply (get_object_tracks_cache_hit no_detection no_tracking [(); ()] true
           (Some "stubs/ball_track_stubs.pkl") (World stub_example [] ())
           [∅; ball_entry b0]); reflexivity.
Defined.

(** C5. A stale cache (length other than the frame count) is meant to be
    replaced by a fresh sequence that is written back and returned. When
    the cache path has no directory part, the write-back asks
    [os.makedirs] for the empty path: [get_object_tracks] (of either
    tracker) then never returns the fresh sequence and the stale cache stays
    on disk. *)
Theorem get_object_tracks_stale_cache_bare_path {image T : Type}
    (predict : list image → list prediction)
    (tracker_update : T → list detection → T * list (detection * Z))
    (frames : list image) (p : string) (w : world image T)
    (cached : list entry) :
  Os.dirname p = EmptyString →
  (Stubs.read_stub true (Some p) (files w)).1 = Ok (Some cached) →
  length cached ≠ length frames →
  let ball := BallTracker.get_object_tracks predict frames true (Some p) w in
  let player := PlayerTracker.get_object_tracks predict tracker_update frames
                  true (Some p) w in
  (∃ e, ball.1 = Raise e) ∧ files ball.2 = files w
  ∧ (∃ e, player.1 = Raise e) ∧ files player.2 = files w.
Proof.
  intros Hd Hread Hlen. simpl.
  unfold BallTracker.get_object_tracks, PlayerTracker.get_object_tracks.
  rewrite !M_bind_unfold, in_files_read_stub, Hread.
  apply Nat.eqb_neq in Hlen. rewrite Hlen.
  pose proof (fresh_bare_path
    (detections ← BallTracker.detect_frames predict frames;
     lift (for_result BallTracker.track_frame (enumerate detections) []))
    p w) as Hball.
  pose proof (fresh_bare_path
    (detections ← PlayerTracker.detect_frames predict frames;
     for_in (PlayerTracker.track_frame tracker_update) (enumerate detections) [])
    p w) as Hplayer.
  simpl in Hball, Hplayer. rewrite M_bind_assoc in Hball, Hplayer.
  destruct Hball as [Hb1 Hb2]; [|done|].
  { apply keeps_files_bind; [apply ball_detect_keeps_files|].
    intros; apply keeps_files_lift. }
  destruct Hplayer as [Hp1 Hp2]; [|done|].
  { apply keeps_files_bind; [apply player_detect_keeps_files|].
    intros; apply keeps_files_for_in.
    intros; apply player_track_frame_keeps_files. }
  done.
Qed.


Lemma get_object_tracks_stale_cache_bare_path_witness :
  let ball := BallTracker.get_object_tracks one_ball [()] true
                (Some "ball_track_stubs.pkl") (World bare_stub [] ()) in
  let player := PlayerTracker.get_object_tracks one_ball no_tracking [()]
                  true (Some "ball_track_stubs.pkl") (World bare_stub [] ()) in
  (∃ e, ball.1 = Raise e) ∧ files ball.2 = bare_stub
  ∧ (∃ e, player.1 = Raise e) ∧ files player.2 = bare_stub.
Proof.
  apply (get_object_tracks_stale_cache_bare_path one_ball no_tracking [()]
           "ball_track_stubs.pkl" (World bare_stub [] ()) [∅; ball_entry b0]).
  - reflexivity.
  - reflexivity.
  - simpl. lia.
Defined.

(** At that input the detector has been run and the exception is the one
    of [os.makedirs]. *)
Lemma stale_cache_bare_path_run :
  BallTracker.get_object_tracks one_ball [()] true
    (Some "ball_track_stubs.pkl") (World bare_stub [] ())
  = (Raise FileNotFoundError, World bare_stub [Predict [()]] ()).
Proof. vm_compute. reflexivity. Qed.

(** ** Ball selection *)

Section Invert.

Implicit Types (cls_names : list (Z * string)) (inv : gmap string Z).

Lemma invert_foldl_sound cls_names : ∀ inv name id,
  foldl (fun inv kv => <[kv.2 := kv.1]> inv) inv cls_names !! name = Some id →
  inv !! name = Some id ∨ (id, name) ∈ cls_names.
Proof.
  induction cls_names as [|[k v] l IH]; intros inv name id; simpl; [by left|].
  intros H. destruct (IH _ _ _ H) as [H1|H1].
  - destruct (decide (v = name)) as [->|Hne].
    + rewrite lookup_insert_eq in H1. injection H1 as ->. right. by left.
    + rewrite lookup_insert_ne in H1 by done. by left.
  - right. by right.
Qed.

Lemma invert_foldl_complete cls_names : ∀ inv name,
  (is_Some (inv !! name) ∨ ∃ id, (id, name) ∈ cls_names) →
  is_Some (foldl (fun inv kv => <[kv.2 := kv.1]> inv) inv cls_names !! name).
Proof.
  induction cls_names as [|[k v] l IH]; intros inv name; simpl.
  - intros [H|[id H]]; [done|]. by apply elem_of_nil in H.
  - intros [H|[id H]]; apply IH.
    + left. destruct (decide (v = name)) as [->|Hne].
      * rewrite lookup_insert_eq. eauto.
      * by rewrite lookup_insert_ne.
    + apply elem_of_cons in H as [[= <- <-]|H].
      * left. rewrite lookup_insert_eq. eauto.
      * right. eauto.
Qed.

(** A name carried by one class id alone is sent back to that id. *)
Lemma invert_unique cls_names name id :
  (id, name) ∈ cls_names →
  (∀ i j, (i, name) ∈ cls_names → (j, name) ∈ cls_names → i = j) →
  invert cls_names !! name = Some id.
Proof.
  intros Hin Huniq. unfold invert.
  destruct (invert_foldl_complete cls_names ∅ name) as [id' Hid']; [by eauto|].
  destruct (invert_foldl_sound _ _ _ _ Hid') as [H|H]; [done|].
  by rewrite Hid', (Huniq id id').
Qed.

End Invert.

Lemma for_result_app {X A} (body : A → X → result A) xs ys a :
  for_result body (xs ++ ys) a = a' ← for_result body xs a; for_result body ys a'.
Proof.
  revert a. induction xs as [|x xs IH]; intros a; simpl; [done|].
  destruct (body a x) as [a'|e]; simpl; [apply IH|done].
Qed.

Section Choose.

Variables (cls_names_inv : gmap string Z) (ball : Z).
Hypothesis Hball : cls_names_inv !! "Ball" = Some ball.

Import BallTracker.

Lemma choose_at (chosen : option bbox) (m : Q) (d : detection) :
  choose cls_names_inv (chosen, m) d =
    if class_id d =? ball then
      if Np.Qltb m (confidence d) then Ok (Some (xyxy d), confidence d)
      else Ok (chosen, m)
    else Ok (chosen, m).
Proof. unfold choose, py_getitem. by rewrite Hball. Qed.

(** Detections that do not beat the current maximum change nothing. *)
Lemma choose_below (l : list detection) (chosen : option bbox) (m : Q) :
  (∀ d, d ∈ l → class_id d = ball → (confidence d <= m)%Q) →
  for_result (choose cls_names_inv) l (chosen, m) = Ok (chosen, m).
Proof.
  induction l as [|d l IH]; intros H; [done|].
  rewrite for_result_cons, choose_at.
  destruct (Z.eqb_spec (class_id d) ball) as [Hd|Hd].
  - assert (Hle : (confidence d <= m)%Q) by (apply H; [by left|done]).
    apply Qltb_ge in Hle. rewrite Hle. simpl.
    apply IH. intros d' Hd'. apply H. by right.
  - simpl. apply IH. intros d' Hd'. apply H. by right.
Qed.

(** Ball detections below [x] keep the maximum below [x]. *)
Lemma choose_prefix (l : list detection) (x : Q) :
  ∀ (chosen : option bbox) (m : Q),
    (m < x)%Q →
    (∀ d, d ∈ l → class_id d = ball → (confidence d < x)%Q) →
    ∃ chosen' m', for_result (choose cls_names_inv) l (chosen, m)
                  = Ok (chosen', m') ∧ (m' < x)%Q.
Proof.
  induction l as [|d l IH]; intros chosen m Hm H; [by simpl; eauto|].
  rewrite for_result_cons, choose_at.
  assert (Hl : ∀ d', d' ∈ l → class_id d' = ball → (confidence d' < x)%Q).
  { intros d' Hd'. apply H. by right. }
  destruct (Z.eqb_spec (class_id d) ball) as [Hd|Hd]; [|by apply IH].
  destruct (Np.Qltb m (confidence d)); simpl; [|by apply IH].
  apply IH; [|done]. apply H; [by left|done].
Qed.

(** The first ball detection of maximal confidence wins. *)
Lemma choose_first_max (dets : list detection) (k : nat) (d : detection) :
  dets !! k = Some d → class_id d = ball → (0 < confidence d)%Q →
  (∀ k' d', dets !! k' = Some d' → class_id d' = ball →
     (confidence d' <= confidence d)%Q
     ∧ ((k' < k)%nat → (confidence d' < confidence d)%Q)) →
  for_result (choose cls_names_inv) dets (None, 0%Q)
  = Ok (Some (xyxy d), confidence d).
Proof.
  intros Hk Hd Hpos Hmax.
  rewrite <- (take_drop_middle _ _ _ Hk), for_result_app.
  destruct (choose_prefix (take k dets) (confidence d) None 0%Q Hpos)
    as (chosen' & m' & -> & Hm').
  { intros d' [k' Hk']%list_elem_of_lookup Hd'.
    apply lookup_take_Some in Hk' as [Hk' Hlt].
    by apply (Hmax k' d'). }
  cbn [mbind result_bind]. rewrite for_result_cons, choose_at.
  destruct (Z.eqb_spec (class_id d) ball) as [_|?]; [|done].
  apply Qltb_lt in Hm'. rewrite Hm'. simpl.
  apply choose_below.
  intros d' [k' Hk']%list_elem_of_lookup Hd'.
  rewrite lookup_drop in Hk'. by apply (Hmax _ d' Hk').
Qed.

End Choose.

Lemma append_ball (tracks : list entry) (b : bbox) :
  <[length tracks := <[1 := {[ "bbox" := b ]}]> ∅]> (tracks ++ [∅])
  = tracks ++ [ball_entry b].
Proof.
  rewrite (insert_app_r_alt _ _ (length tracks)), Nat.sub_diag by lia.
  simpl. unfold ball_entry. by rewrite insert_empty.
Qed.

(** C8. For a frame's detections, whose ball detections all have positive
    confidence (the detector is run with floor 0.5) and whose name table
    gives "Ball" to one class id: the ball assigner appends one entry for
    the frame; if some detection is labelled "Ball", the entry holds exactly
    the box of the first ball detection of maximal confidence, whatever the
    confidence of detections of other classes; if none is, the entry is
    empty. *)
Theorem ball_selection (tracks : list entry) (cls_names : list (Z * string))
    (dets : list detection) :
  (∃ id, (id, "Ball") ∈ cls_names) →
  unique_name cls_names "Ball" →
  (∀ d, d ∈ dets → is_ball cls_names d → (0 < confidence d)%Q) →
  (∀ k d,
     dets !! k = Some d → is_ball cls_names d →
     (∀ k' d', dets !! k' = Some d' → is_ball cls_names d' →
        (confidence d' <= confidence d)%Q
        ∧ ((k' < k)%nat → (confidence d' < confidence d)%Q)) →
     BallTracker.track_frame tracks (length tracks, Prediction cls_names dets)
     = Ok (tracks ++ [ball_entry (xyxy d)]))
  ∧ ((∀ d, d ∈ dets → ¬ is_ball cls_names d) →
     BallTracker.track_frame tracks (length tracks, Prediction cls_names dets)
     = Ok (tracks ++ [∅]))
  ∧ BallTracker.track_frame [] (0%nat, selection_example)
    = Ok [ball_entry [5; 5; 6; 6]%Q].
Proof.
  intros [ball Hball] Huniq Hpos.
  pose proof (invert_unique _ _ _ Hball Huniq) as Hinv.
  assert (Hlabel : ∀ d, class_id d = ball ↔ is_ball cls_names d).
  { intros d. unfold is_ball. split; [by intros ->|].
    intros H. by apply Huniq. }
  split; [|split; [|by vm_compute]].
  - intros k d Hk Hd Hmax. unfold BallTracker.track_frame. simpl.
    rewrite (choose_first_max _ ball Hinv dets k d); [|done|by apply Hlabel| |].
    + simpl. rewrite (py_index_nat _ _ ∅).
      * simpl. by rewrite append_ball.
      * by rewrite lookup_app_r, Nat.sub_diag by lia.
    + apply Hpos; [by eapply list_elem_of_lookup_2|done].
    + intros k' d' Hk' Hd'. apply Hmax; [done|by apply Hlabel].
  - intros Hnone. unfold BallTracker.track_frame. simpl.
    rewrite (choose_below _ ball Hinv); [done|].
    intros d Hd Hb. exfalso. apply (Hnone d Hd). by apply Hlabel.
Qed.

Lemma ball_selection_witness :
  BallTracker.track_frame [] (0%nat, selection_example)
  = Ok ([] ++ [ball_entry [5; 5; 6; 6]%Q]).
Proof.
  assert (Hex : ∃ id, (id, "Ball") ∈ two_classes).
  { exists 0. by left. }
  assert (Huniq : unique_name two_classes "Ball").
  { intros i j Hi%list_elem_of_In Hj%list_elem_of_In.
    simpl in Hi, Hj. intuition congruence. }
  assert (Hpos : ∀ d, d ∈ boxes selection_example → is_ball two_classes d →
                      (0 < confidence d)%Q).
  { intros d Hd%list_elem_of_In _. simpl in Hd.
    destruct Hd as [<-|[<-|[<-|[]]]]; reflexivity. }
  apply (proj1 (ball_selection [] two_classes (boxes selection_example)
                  Hex Huniq Hpos) 1%nat (Detection [5; 5; 6; 6]%Q (9 # 10) 0)).
  - reflexivity.
  - by left.
  - intros k' d' Hk' Hd'.
    destruct k' as [|[|[|k']]]; simpl in Hk'; try discriminate;
      injection Hk' as <-.
    + split; [discriminate|intros _; reflexivity].
    + split; [discriminate|lia].
    + apply list_elem_of_In in Hd'. simpl in Hd'. intuition congruence.
Defined.

(** ** The team classification memo *)

Lemma for_in_cons {S X A} (body : A → X → M S A) x xs a s :
  for_in body (x :: xs) a s = (body a x ≫= for_in body xs) s.
Proof. reflexivity. Qed.

Lemma for_in_app {S X A} (body : A → X → M S A) xs ys a s :
  for_in body (xs ++ ys) a s = (for_in body xs a ≫= for_in body ys) s.
Proof.
  revert a s. induction xs as [|x xs IH]; intros a s; [done|].
  simpl. rewrite !M_bind_unfold. destruct (body a x s) as [[a'|e] s']; [|done].
  rewrite IH. by rewrite M_bind_unfold.
Qed.

Lemma enumerate_from_cons {X} k (x : X) xs :
  enumerate_from k (x :: xs) = (k, x) :: enumerate_from (S k) xs.
Proof.
  unfold enumerate_from. simpl. rewrite Nat.add_0_r. f_equal.
  apply imap_ext. intros i y _. simpl. f_equal. lia.
Qed.

Lemma enumerate_from_app {X} k (xs ys : list X) :
  enumerate_from k (xs ++ ys)
  = enumerate_from k xs ++ enumerate_from (k + length xs) ys.
Proof.
  unfold enumerate_from. rewrite imap_app. f_equal.
  apply imap_ext. intros i y _. simpl. f_equal. lia.
Qed.

Lemma enumerate_from_0 {X} (xs : list X) : enumerate xs = enumerate_from 0 xs.
Proof. unfold enumerate, enumerate_from. by apply imap_ext. Qed.

Lemma calls_for_app {image} p (l1 l2 : list (Z * image * bbox)) :
  calls_for p (l1 ++ l2) = (calls_for p l1 + calls_for p l2)%nat.
Proof. unfold calls_for. by rewrite List.filter_app, length_app. Qed.

Lemma appears_cons p tr chunk :
  appears p (tr :: chunk) = bool_decide (p ∈ ids tr) || appears p chunk.
Proof. reflexivity. Qed.

Lemma appears_app p chunk1 chunk2 :
  appears p (chunk1 ++ chunk2) = appears p chunk1 || appears p chunk2.
Proof. unfold appears. by rewrite existsb_app. Qed.

Section Crop.

Context {image : Type}.
Variable shape : image → Z * Z.

Lemma croppable_from_head video_frames k tr chunk frame item :
  croppable_from shape video_frames k (tr :: chunk) →
  video_frames !! k = Some frame → item ∈ tr →
  ∃ b, item.2 !! "bbox" = Some b ∧ croppable shape frame b.
Proof.
  intros H Hk Hitem. apply (H 0%nat frame tr item); [|done|done].
  by rewrite Nat.add_0_r.
Qed.

Lemma croppable_from_tail video_frames k tr chunk :
  croppable_from shape video_frames k (tr :: chunk) →
  croppable_from shape video_frames (S k) chunk.
Proof.
  intros H i frame tr' item Hf Htr'. apply (H (S i) frame tr' item); [|done].
  by replace (k + S i)%nat with (S k + i)%nat by lia.
Qed.

Lemma croppable_from_take video_frames k n chunk :
  croppable_from shape video_frames k chunk →
  croppable_from shape video_frames k (take n chunk).
Proof.
  intros H i frame tr item Hf Htr. apply (H i frame tr item); [done|].
  apply lookup_take_Some in Htr. by destruct Htr.
Qed.

Lemma croppable_from_drop video_frames k n chunk :
  croppable_from shape video_frames k chunk →
  croppable_from shape video_frames (k + n) (drop n chunk).
Proof.
  intros H i frame tr item Hf Htr. apply (H (n + i)%nat frame tr item).
  - by rewrite Nat.add_assoc.
  - by rewrite lookup_drop in Htr.
Qed.

End Crop.

Section Memo.

Context {image : Type}.
Variable shape : image → Z * Z.
Variable argmax : image → bbox → string → string → bool.
Variable team_1_class_name team_2_class_name : string.

Import TeamAssigner.

Abbreviation get_player_color' :=
  (get_player_color shape argmax team_1_class_name team_2_class_name).
Abbreviation get_player_team' :=
  (get_player_team shape argmax team_1_class_name team_2_class_name).
Abbreviation assign_player' :=
  (assign_player shape argmax team_1_class_name team_2_class_name).
Abbreviation assign_frame' :=
  (assign_frame shape argmax team_1_class_name team_2_class_name).
Abbreviation team_of' :=
  (team_of argmax team_1_class_name team_2_class_name).

Implicit Types (s : state image) (pa : list (gmap Z Z)).

(** A box that can be cropped reaches the classifier. *)
Lemma get_player_color_croppable frame b :
  croppable shape frame b →
  get_player_color' frame b
  = Ok (classify argmax team_1_class_name team_2_class_name frame b).
Proof.
  intros (x1 & y1 & x2 & y2 & rest & -> & Hrows & Hcols).
  unfold get_player_color. cbn [py_index]. simpl.
  by rewrite Hrows, Hcols.
Qed.

(** And only such a box does. *)
Lemma get_player_color_returns frame b label :
  get_player_color' frame b = Ok label →
  croppable shape frame b
  ∧ label = classify argmax team_1_class_name team_2_class_name frame b.
Proof.
  unfold get_player_color.
  destruct b as [|x1 [|y1 [|x2 [|y2 rest]]]]; try done.
  simpl.
  destruct (slice_empty (shape frame).1 (truncate y1) (truncate y2)) eqn:Hr;
    [done|].
  destruct (slice_empty (shape frame).2 (truncate x1) (truncate x2)) eqn:Hc;
    [done|].
  simpl. intros [= <-]. split; [|done].
  by exists x1, y1, x2, y2, rest.
Qed.


Lemma get_player_team_hit frame b p s team :
  player_team_dict s !! p = Some team →
  get_player_team' frame b p s = (Ok team, s).
Proof.
  intros H. unfold get_player_team. rewrite M_bind_unfold. unfold get.
  by rewrite H.
Qed.

Lemma get_player_team_miss frame b p s :
  player_team_dict s !! p = None → croppable shape frame b →
  get_player_team' frame b p s
  = (Ok (team_of' frame b),
     State (<[p := team_of' frame b]> (player_team_dict s)) (files s)
           (classified s ++ [(p, frame, b)])).
Proof.
  intros H Hcrop. unfold get_player_team. rewrite M_bind_unfold. unfold get.
  rewrite H, M_bind_unfold. unfold lift at 1.
  by rewrite get_player_color_croppable.
Qed.


Lemma adds_nothing s : adds s s [].
Proof.
  split; [done|]. split; [set_solver|].
  exists []. split; [by rewrite app_nil_r|].
  intros q. case_decide as H; [|done]. destruct H as [_ H]. by apply elem_of_nil in H.
Qed.

Lemma adds_app s s1 s2 seen1 seen2 :
  adds s s1 seen1 → adds s1 s2 seen2 → adds s s2 (seen1 ++ seen2).
Proof.
  intros (Hf1 & Hd1 & new1 & Hc1 & Hn1) (Hf2 & Hd2 & new2 & Hc2 & Hn2).
  split; [congruence|]. split; [rewrite Hd2, Hd1; set_solver|].
  exists (new1 ++ new2). split; [by rewrite Hc2, Hc1, (assoc_L (++))|].
  intros q. rewrite calls_for_app, Hn1, Hn2, Hd1.
  repeat case_decide; try done; exfalso; set_solver.
Qed.

Lemma assign_player_adds video_frames k frame pa p tr b s :
  video_frames !! k = Some frame → tr !! "bbox" = Some b →
  croppable shape frame b →
  length pa = S k →
  ∃ pa' s',
    assign_player' video_frames k pa (p, tr) s = (Ok pa', s')
    ∧ length pa' = S k ∧ adds s s' [p].
Proof.
  intros Hk Hb Hcrop Hlen. unfold assign_player.
  rewrite M_bind_unfold. unfold lift at 1. rewrite (py_index_nat _ _ _ Hk).
  rewrite M_bind_unfold. unfold lift at 1, py_getitem. rewrite Hb.
  rewrite M_bind_unfold.
  destruct (lookup_lt_is_Some_2 pa k) as [a Ha]; [lia|].
  destruct (player_team_dict s !! p) as [team|] eqn:Hp.
  - rewrite (get_player_team_hit _ _ _ _ team Hp).
    rewrite M_bind_unfold. unfold lift at 1. rewrite (py_index_nat _ _ _ Ha).
    eexists _, s. split; [reflexivity|]. split; [by rewrite length_insert|].
    split; [done|]. split.
    + apply elem_of_dom_2 in Hp. set_solver.
    + exists []. split; [by rewrite app_nil_r|].
      intros q. case_decide as H; [|done]. destruct H as [H1 H2].
      apply list_elem_of_singleton in H2 as ->.
      apply elem_of_dom_2 in Hp. done.
  - rewrite (get_player_team_miss _ _ _ _ Hp Hcrop).
    rewrite M_bind_unfold. unfold lift at 1. rewrite (py_index_nat _ _ _ Ha).
    eexists _, _. split; [reflexivity|]. split; [by rewrite length_insert|].
    split; [done|]. simpl. split.
    + rewrite dom_insert_L. set_solver.
    + exists [(p, frame, b)]. split; [done|].
      intros q. apply not_elem_of_dom in Hp.
      unfold calls_for. simpl.
      destruct (Z.eqb_spec p q) as [->|Hne]; simpl.
      * rewrite decide_True; [done|]. split; [done|by left].
      * rewrite decide_False; [done|]. intros [_ H].
        apply list_elem_of_singleton in H. congruence.
Qed.

Lemma assign_items_adds video_frames k frame items : ∀ pa s,
  video_frames !! k = Some frame →
  (∀ item, item ∈ items →
     ∃ b, item.2 !! "bbox" = Some b ∧ croppable shape frame b) →
  length pa = S k →
  ∃ pa' s',
    for_in (assign_player' video_frames k) items pa s = (Ok pa', s')
    ∧ length pa' = S k ∧ adds s s' (ids items).
Proof.
  induction items as [|[p tr] items IH]; intros pa s Hk Hbox Hlen.
  { exists pa, s. split; [done|]. split; [done|apply adds_nothing]. }
  destruct (Hbox (p, tr)) as (b & Hb & Hcrop); [by left|]. simpl in Hb.
  destruct (assign_player_adds video_frames k frame pa p tr b s)
    as (pa1 & s1 & H1 & Hlen1 & Hadds1); [done..|].
  destruct (IH pa1 s1) as (pa2 & s2 & H2 & Hlen2 & Hadds2); [done| |done|].
  { intros item Hitem. apply Hbox. by right. }
  exists pa2, s2. rewrite for_in_cons, M_bind_unfold, H1.
  split; [done|]. split; [done|].
  by apply (adds_app s s1 s2 [p] (ids items)).
Qed.


Lemma assign_frame_at video_frames pa k player_track s :
  assign_frame' video_frames pa (k, player_track) s
  = for_in (assign_player' video_frames k) player_track (pa ++ [∅])
      (if (k mod memo_window =? 0)%nat then cleared s else s).
Proof.
  unfold assign_frame. rewrite M_bind_unfold.
  by destruct (k mod memo_window =? 0)%nat.
Qed.

Lemma assign_frame_adds video_frames pa k frame player_track s :
  video_frames !! k = Some frame →
  (∀ item, item ∈ player_track →
     ∃ b, item.2 !! "bbox" = Some b ∧ croppable shape frame b) →
  length pa = k →
  ∃ pa' s',
    assign_frame' video_frames pa (k, player_track) s = (Ok pa', s')
    ∧ length pa' = S k
    ∧ adds (if (k mod memo_window =? 0)%nat then cleared s else s) s'
           (ids player_track).
Proof.
  intros Hk Hbox Hlen. rewrite assign_frame_at.
  apply (assign_items_adds video_frames k frame); [done|done|].
  rewrite length_app. simpl. lia.
Qed.


Lemma appears_all_ids q chunk : appears q chunk = true ↔ q ∈ all_ids chunk.
Proof.
  unfold all_ids. induction chunk as [|tr chunk IH]; simpl.
  - split; [done|]. intros H. by apply elem_of_nil in H.
  - rewrite orb_true_iff, bool_decide_eq_true, IH, elem_of_app. done.
Qed.

(** Frames that do not start a window. *)
Lemma no_clear_run video_frames chunk : ∀ k pa s,
  (∀ i, (i < length chunk)%nat → ((k + i) mod memo_window ≠ 0)%nat) →
  length pa = k → (k + length chunk ≤ length video_frames)%nat →
  croppable_from shape video_frames k chunk →
  ∃ pa' s',
    for_in (assign_frame' video_frames) (enumerate_from k chunk) pa s
    = (Ok pa', s')
    ∧ length pa' = (k + length chunk)%nat ∧ adds s s' (all_ids chunk).
Proof.
  induction chunk as [|tr chunk IH]; intros k pa s Hmod Hlen Hvf Hbox.
  { exists pa, s. split; [done|]. split; [simpl; lia|apply adds_nothing]. }
  simpl in Hvf.
  destruct (lookup_lt_is_Some_2 video_frames k) as [frame Hk]; [lia|].
  destruct (assign_frame_adds video_frames pa k frame tr s)
    as (pa1 & s1 & H1 & Hlen1 & Hadds1); [done| |done|].
  { intros item. by apply (croppable_from_head shape video_frames k tr chunk). }
  assert ((k mod memo_window =? 0)%nat = false) as Hk0.
  { apply Nat.eqb_neq. specialize (Hmod 0%nat). rewrite Nat.add_0_r in Hmod.
    apply Hmod. simpl. lia. }
  rewrite Hk0 in Hadds1.
  destruct (IH (S k) pa1 s1) as (pa2 & s2 & H2 & Hlen2 & Hadds2); [|done| | |].
  { intros i Hi. replace (S k + i)%nat with (k + S i)%nat by lia.
    apply Hmod. simpl. lia. }
  { lia. }
  { by apply (croppable_from_tail shape video_frames k tr). }
  exists pa2, s2. rewrite enumerate_from_cons, for_in_cons, M_bind_unfold, H1.
  split; [done|]. split; [simpl; lia|].
  by apply (adds_app s s1 s2 (ids tr) (all_ids chunk)).
Qed.


(** One window: its first frame clears the memo, the others do not. *)
Lemma window_run video_frames chunk k pa s :
  (k mod memo_window = 0)%nat → (length chunk ≤ memo_window)%nat →
  length pa = k → (k + length chunk ≤ length video_frames)%nat →
  croppable_from shape video_frames k chunk →
  ∃ pa' s',
    for_in (assign_frame' video_frames) (enumerate_from k chunk) pa s
    = (Ok pa', s')
    ∧ length pa' = (k + length chunk)%nat
    ∧ logs s s' (fun q => if appears q chunk then 1%nat else 0%nat).
Proof.
  intros Hk0 Hshort Hlen Hvf Hbox.
  destruct chunk as [|tr chunk].
  { exists pa, s. split; [done|]. split; [simpl; lia|].
    split; [done|]. exists []. by rewrite app_nil_r. }
  simpl in Hvf, Hshort.
  destruct (lookup_lt_is_Some_2 video_frames k) as [frame Hk]; [lia|].
  destruct (assign_frame_adds video_frames pa k frame tr s)
    as (pa1 & s1 & H1 & Hlen1 & Hadds1); [done| |done|].
  { intros item. by apply (croppable_from_head shape video_frames k tr chunk). }
  rewrite Hk0 in Hadds1. simpl in Hadds1.
  destruct (no_clear_run video_frames chunk (S k) pa1 s1)
    as (pa2 & s2 & H2 & Hlen2 & Hadds2); [|done| | |].
  { intros i Hi. unfold memo_window in *.
    pose proof (Nat.div_mod_eq k 50) as Hdiv. rewrite Hk0 in Hdiv.
    replace (S k + i)%nat with (S i + (k / 50) * 50)%nat by lia.
    rewrite Nat.Div0.mod_add, Nat.mod_small by lia. lia. }
  { lia. }
  { by apply (croppable_from_tail shape video_frames k tr). }
  exists pa2, s2. rewrite enumerate_from_cons, for_in_cons, M_bind_unfold, H1.
  split; [done|]. split; [simpl; lia|].
  destruct (adds_app (cleared s) s1 s2 (ids tr) (all_ids chunk) Hadds1 Hadds2)
    as (Hf & _ & new & Hnew & Hcount).
  split; [done|]. exists new. split; [done|].
  intros q. rewrite Hcount.
  change (player_team_dict (cleared s)) with (∅ : gmap Z Z).
  change (ids tr ++ all_ids chunk) with (all_ids (tr :: chunk)).
  destruct (appears q (tr :: chunk)) eqn:Happ.
  - apply appears_all_ids in Happ. rewrite decide_True; [done|].
    split; [set_solver|done].
  - rewrite decide_False; [done|]. intros [_ H].
    apply appears_all_ids in H. congruence.
Qed.

End Memo.

Lemma filter_map_length {X Y} (f : Y → bool) (g : X → Y) (l : list X) :
  length (List.filter f (map g l)) = length (List.filter (fun x => f (g x)) l).
Proof.
  induction l as [|x l IH]; simpl; [done|].
  destruct (f (g x)); simpl; by rewrite IH.
Qed.

Lemma filter_cons_length {X} (f : X → bool) (x : X) (l : list X) :
  length (List.filter f (x :: l))
  = ((if f x then 1 else 0) + length (List.filter f l))%nat.
Proof. simpl. by destruct (f x). Qed.

Lemma window_S w player_tracks :
  window (S w) player_tracks
  = window w (drop TeamAssigner.memo_window player_tracks).
Proof.
  unfold window. rewrite drop_drop. f_equal. f_equal. lia.
Qed.

Lemma windows_with_S p player_tracks n :
  windows_with p player_tracks (S n)
  = ((if appears p (take TeamAssigner.memo_window player_tracks)
      then 1 else 0)
     + windows_with p (drop TeamAssigner.memo_window player_tracks) n)%nat.
Proof.
  unfold windows_with. rewrite <- cons_seq, <- seq_shift.
  rewrite filter_cons_length, filter_map_length.
  rewrite (List.filter_ext _ (fun w => appears p
             (window w (drop TeamAssigner.memo_window player_tracks)))).
  2:{ intros w. by rewrite window_S. }
  replace (window 0 player_tracks)
    with (take TeamAssigner.memo_window player_tracks).
  2:{ unfold window. by rewrite Nat.mul_0_r. }
  done.
Qed.

Lemma windows_with_nil p n : windows_with p [] n = 0%nat.
Proof.
  unfold windows_with. generalize (seq 0 n). intros l.
  induction l as [|w l IH]; [done|]. rewrite filter_cons_length, IH.
  unfold window. by rewrite drop_nil, take_nil.
Qed.

Section MemoRun.

Context {image : Type}.
Variable shape : image → Z * Z.
Variable argmax : image → bbox → string → string → bool.
Variable team_1_class_name team_2_class_name : string.

Import TeamAssigner.

Implicit Types (s : state image) (pa : list (gmap Z Z)).

Lemma logs_app s s1 s2 count1 count2 :
  logs s s1 count1 → logs s1 s2 count2 →
  logs s s2 (fun q => count1 q + count2 q)%nat.
Proof.
  intros (Hf1 & new1 & Hc1 & Hn1) (Hf2 & new2 & Hc2 & Hn2).
  split; [congruence|]. exists (new1 ++ new2).
  split; [by rewrite Hc2, Hc1, (assoc_L (++))|].
  intros q. by rewrite calls_for_app, Hn1, Hn2.
Qed.

(** The whole pass, window after window. *)
Lemma full_run video_frames n : ∀ player_tracks k pa s,
  (k mod memo_window = 0)%nat →
  (length player_tracks ≤ memo_window * n)%nat →
  length pa = k → (k + length player_tracks ≤ length video_frames)%nat →
  croppable_from shape video_frames k player_tracks →
  ∃ pa' s',
    for_in (assign_frame shape argmax team_1_class_name team_2_class_name
              video_frames)
           (enumerate_from k player_tracks) pa s
    = (Ok pa', s')
    ∧ length pa' = (k + length player_tracks)%nat
    ∧ logs s s' (fun q => windows_with q player_tracks n).
Proof.
  induction n as [|n IH]; intros tracks k pa s Hk0 Hshort Hlen Hvf Hbox.
  { destruct tracks; [|simpl in Hshort; lia].
    exists pa, s. split; [done|]. split; [simpl; lia|].
    split; [done|]. exists []. by rewrite app_nil_r. }
  replace (enumerate_from k tracks)
    with (enumerate_from k (take memo_window tracks ++ drop memo_window tracks))
    by (by rewrite take_drop).
  rewrite enumerate_from_app, for_in_app, M_bind_unfold.
  assert (Hbox1 : croppable_from shape video_frames k
                    (take memo_window tracks))
    by (by apply croppable_from_take).
  assert (Hbox2 : croppable_from shape video_frames (k + memo_window)
                    (drop memo_window tracks))
    by (by apply croppable_from_drop).
  destruct (window_run shape argmax team_1_class_name team_2_class_name
              video_frames (take memo_window tracks) k pa s)
    as (pa1 & s1 & -> & Hlen1 & Hlogs1); [done| |done| |done|].
  { rewrite length_take. lia. }
  { rewrite length_take. lia. }
  destruct (Nat.le_gt_cases memo_window (length tracks)) as [Hlong|Hfew].
  - destruct (IH (drop memo_window tracks) (k + length (take memo_window tracks))%nat
                 pa1 s1) as (pa2 & s2 & -> & Hlen2 & Hlogs2);
      [| |done| | |].
    4:{ by rewrite length_take, Nat.min_l by done. }
    { rewrite length_take, Nat.min_l by done. unfold memo_window in *.
      pose proof (Nat.div_mod_eq k 50) as Hdiv. rewrite Hk0 in Hdiv.
      replace (k + 50)%nat with (0 + (k / 50 + 1) * 50)%nat by lia.
      by rewrite Nat.Div0.mod_add. }
    { rewrite length_drop. lia. }
    { rewrite length_take, length_drop. lia. }
    exists pa2, s2. split; [done|].
    split; [rewrite Hlen2, length_take, length_drop; lia|].
    destruct (logs_app _ _ _ _ _ Hlogs1 Hlogs2) as (Hf & new & Hnew & Hcount).
    split; [done|]. exists new. split; [done|].
    intros q. by rewrite Hcount, windows_with_S.
  - rewrite drop_ge by lia. simpl.
    exists pa1, s1. split; [done|].
    split; [rewrite Hlen1, length_take; lia|].
    destruct Hlogs1 as (Hf & new & Hnew & Hcount).
    split; [done|]. exists new. split; [done|].
    intros q. rewrite Hcount, windows_with_S, drop_ge by lia.
    by rewrite windows_with_nil, Nat.add_0_r.
Qed.

Lemma team_in_files_read_stub (read_from_stub : bool)
    (stub_path : option string) s :
  in_files (Stubs.read_stub read_from_stub stub_path) s
  = ((Stubs.read_stub read_from_stub stub_path (files s)).1, s).
Proof.
  unfold in_files, zoom.
  pose proof (read_stub_state read_from_stub stub_path (files s)) as H.
  destruct (Stubs.read_stub read_from_stub stub_path (files s)) as [r fs'].
  simpl in *. subst fs'. by destruct s.
Qed.

Lemma team_in_files_classified {A}
    (m : M (gmap string (node (list (gmap Z Z)))) A) s :
  classified (in_files m s).2 = classified s.
Proof. unfold in_files, zoom. by destruct (m (files s)). Qed.

(** The loop of the cache-miss path, then the write-back. *)
Lemma fresh_logs video_frames player_tracks stub_path s :
  (length player_tracks ≤ length video_frames)%nat →
  tracks_croppable shape video_frames player_tracks →
  let run := (player_assignment ←
                for_in (assign_frame shape argmax team_1_class_name
                          team_2_class_name video_frames)
                       (enumerate player_tracks) [];
              _ ← in_files (Stubs.save_stub stub_path player_assignment);
              mret player_assignment) s in
  ∃ new, classified run.2 = classified s ++ new
         ∧ ∀ p, calls_for p new
                = windows_with p player_tracks
                    (S (length player_tracks / memo_window)).
Proof.
  intros Hvf Hbox. simpl. rewrite M_bind_unfold, enumerate_from_0.
  destruct (full_run video_frames (S (length player_tracks / memo_window))
              player_tracks 0%nat [] s)
    as (pa' & s' & -> & _ & _ & new & Hnew & Hcount); [done| |done|done|done|].
  { unfold memo_window.
    pose proof (Nat.div_mod_eq (length player_tracks) 50).
    pose proof (Nat.mod_upper_bound (length player_tracks) 50). lia. }
  exists new. split; [|done].
  rewrite M_bind_unfold.
  pose proof (team_in_files_classified
                (Stubs.save_stub stub_path pa') s') as Hsave.
  destruct (in_files (Stubs.save_stub stub_path pa') s') as [[[]|e] s''];
    simpl in *; congruence.
Qed.

End MemoRun.

(** C9. One classification returns the memoized team when the identity is
    in the memo and otherwise, once the player's region has been cut out of
    the frame, invokes the classifier once, storing team 1 when the label is
    the team-1 description and team 2 when it is not; a box with its four
    coordinates and a region that is not empty gets the classifier's label. A
    frame whose index is a multiple of 50 is processed from an empty memo.
    On the cache-miss path (the cache path written plainly, on a tidy
    disk), for tracks whose boxes can be cropped out of their frames, the
    classifier is invoked for an identity once per
    50-frame window in which the identity is tracked: twice in one window
    makes one invocation, once on each side of a window boundary makes
    two. *)
Theorem team_memo_window {image : Type} (shape : image → Z * Z)
    (argmax : image → bbox → string → string → bool)
    (team_1_class_name team_2_class_name : string) :
  let get_player_team :=
    TeamAssigner.get_player_team shape argmax team_1_class_name
      team_2_class_name in
  let get_player_color :=
    TeamAssigner.get_player_color shape argmax team_1_class_name
      team_2_class_name in
  let assign_frame :=
    TeamAssigner.assign_frame shape argmax team_1_class_name
      team_2_class_name in
  (∀ frame b p s team,
     TeamAssigner.player_team_dict s !! p = Some team →
     get_player_team frame b p s = (Ok team, s))
  ∧ (∀ frame b p s label,
       TeamAssigner.player_team_dict s !! p = None →
       get_player_color frame b = Ok label →
       let team := if decide (label = team_1_class_name) then 1 else 2 in
       get_player_team frame b p s
       = (Ok team,
          TeamAssigner.State (<[p := team]> (TeamAssigner.player_team_dict s))
            (TeamAssigner.files s)
            (TeamAssigner.classified s ++ [(p, frame, b)])))
  ∧ (∀ frame b,
       croppable shape frame b →
       get_player_color frame b
       = Ok (if argmax frame b team_1_class_name team_2_class_name
             then team_2_class_name else team_1_class_name))
  ∧ (∀ video_frames player_assignment frame_num player_track s,
       (frame_num mod 50 = 0)%nat →
       assign_frame video_frames player_assignment (frame_num, player_track) s
       = assign_frame video_frames player_assignment (frame_num, player_track)
           (TeamAssigner.State ∅ (TeamAssigner.files s)
              (TeamAssigner.classified s)))
  ∧ (∀ video_frames player_tracks read_from_stub stub_path s,
       cache_miss (Stubs.read_stub read_from_stub stub_path
                     (TeamAssigner.files s)).1 (length video_frames) →
       (∀ p, stub_path = Some p → plain p) →
       tidy (TeamAssigner.files s) →
       (length player_tracks ≤ length video_frames)%nat →
       tracks_croppable shape video_frames player_tracks →
       ∃ new,
         TeamAssigner.classified
           (TeamAssigner.get_player_teams_across_frames shape argmax
              team_1_class_name team_2_class_name video_frames player_tracks
              read_from_stub stub_path s).2
         = TeamAssigner.classified s ++ new
         ∧ ∀ p, calls_for p new
                = windows_with p player_tracks (S (length player_tracks / 50)))
  ∧ team_run [10; 20]%nat = [(7, 10%nat, [0; 0; 1; 1]%Q)]
  ∧ team_run [10; 60]%nat
    = [(7, 10%nat, [0; 0; 1; 1]%Q); (7, 60%nat, [0; 0; 1; 1]%Q)].
Proof.
  cbv zeta. split; [|split; [|split; [|split; [|split; [|split]]]]].
  - intros frame b p s team Hp. by apply get_player_team_hit.
  - intros frame b p s label Hp Hlabel.
    apply get_player_color_returns in Hlabel as [Hcrop ->].
    rewrite get_player_team_miss by done.
    unfold team_of.
    destruct (String.eqb_spec
                (TeamAssigner.classify argmax team_1_class_name
                   team_2_class_name frame b) team_1_class_name) as [He|He].
    + by rewrite decide_True.
    + by rewrite decide_False.
  - intros frame b Hcrop. by apply get_player_color_croppable.
  - intros vf pa k tr s Hk. rewrite !assign_frame_at.
    unfold TeamAssigner.memo_window. rewrite Hk. done.
  - intros vf tracks b path s Hmiss _ _ Hvf Hbox.
    unfold TeamAssigner.get_player_teams_across_frames.
    rewrite M_bind_unfold, team_in_files_read_stub.
    unfold cache_miss in Hmiss.
    destruct (Stubs.read_stub b path (TeamAssigner.files s)).1
      as [[cached|]|e]; [| |done].
    + apply Nat.eqb_neq in Hmiss. rewrite Hmiss.
      by apply (fresh_logs shape argmax team_1_class_name team_2_class_name).
    + by apply (fresh_logs shape argmax team_1_class_name team_2_class_name).
  - vm_compute. reflexivity.
  - vm_compute. reflexivity.
Qed.

Lemma seen_at_croppable (frames : list nat) :
  tracks_croppable hd (seq 0 70) (seen_at frames).
Proof.
  intros i frame tr item _ Htr Hitem. unfold seen_at in Htr.
  rewrite list_lookup_fmap in Htr.
  destruct (seq 0 70 !! i) as [x|]; [|done]. simpl in Htr.
  injection Htr as <-.
  destruct (bool_decide (x ∈ frames)).
  - apply list_elem_of_singleton in Hitem as ->.
    exists [0; 0; 1; 1]%Q. split; [reflexivity|].
    by exists 0%Q, 0%Q, 1%Q, 1%Q, [].
  - by apply elem_of_nil in Hitem.
Qed.

Lemma team_memo_window_witness :
  ∃ new,
    TeamAssigner.classified
      (TeamAssigner.get_player_teams_across_frames hd white_only
         "white shirt" "dark blue shirt" (seq 0 70) (seen_at [10; 60]%nat)
         false (Some "stubs/player_assignment_stub.pkl")
         (TeamAssigner.State ∅ ∅ [])).2
    = [] ++ new
    ∧ ∀ p, calls_for p new = windows_with p (seen_at [10; 60]%nat) 2.
Proof.
  apply (proj1 (proj2 (proj2 (proj2 (proj2
           (team_memo_window hd white_only "white shirt" "dark blue shirt")))))
           (seq 0 70) (seen_at [10; 60]%nat) false
           (Some "stubs/player_assignment_stub.pkl")
           (TeamAssigner.State ∅ ∅ [])).
  - exact I.
  - intros p [= <-]. by apply plainb_plain.
  - by apply tidyb_tidy.
  - simpl. lia.
  - apply seen_at_croppable.
Defined.

(** ** The recomputation after a stale cache, when the cache path has a
    directory *)

Lemma save_stub_writes {V} (p : string) (object : V) (cached : blob V)
    (fs : gmap string (node V)) :
  directory_exists fs p → Os.is_root p = false →
  fs !! p = Some (File cached) →
  Stubs.save_stub (Some p) object fs = (Ok (), <[p := File (Pickle object)]> fs).
Proof.
  intros [Hd Hdir] Hroot Hp.
  assert (Hex : Os.path_exists fs (Os.dirname p) = true).
  { unfold Os.path_exists. destruct (Os.dirname p) eqn:E; [done|].
    destruct Hdir as [-> | ->]; [done|].
    rewrite bool_decide_true by eauto. apply orb_true_r. }
  assert (Hready : Os.parent_ready fs p = Ok ()).
  { unfold Os.parent_ready. destruct (Os.dirname p) as [|c d] eqn:E; [done|].
    destruct Hdir as [-> | ->]; [done|]. by destruct (Os.is_root (String c d)). }
  unfold Stubs.save_stub. rewrite M_bind_unfold. unfold lift at 1. simpl.
  rewrite M_bind_unfold. unfold get at 1. rewrite M_bind_unfold, Hex. simpl.
  unfold Os.dump. rewrite M_bind_unfold. unfold get at 1. cbv beta iota.
  destruct p as [|c p]; [done|]. rewrite Hp, Hroot, M_bind_unfold.
  unfold lift at 1. by rewrite Hready.
Qed.

Lemma range_step_covers (n : nat) :
  (n ≤ ((n + 20 - 1) / 20) * 20)%nat.
Proof.
  pose proof (Nat.div_mod_eq (n + 20 - 1) 20).
  pose proof (Nat.mod_upper_bound (n + 20 - 1) 20). lia.
Qed.

Section Batches.

Context {image T : Type}.
Variable call : list image → M (world image T) (list prediction).
Variable frames : list image.
Variable P : prediction → Prop.

Hypothesis call_ok : ∀ batch w,
  ∃ out w', call batch w = (Ok out, w') ∧ length out = length batch
            ∧ Forall P out ∧ files w' = files w.

Abbreviation batch_body :=
  (fun (detections : list prediction) (i : nat) =>
     (detections_batch ← call (take 20 (drop i frames));
      mret (detections ++ detections_batch)) : M (world image T) _).

Lemma batches_from (m : nat) : ∀ j acc w,
  (length frames ≤ (j + m) * 20)%nat →
  ∃ dets w',
    for_in batch_body (map (fun q => q * 20)%nat (seq j m)) acc w
    = (Ok (acc ++ dets), w')
    ∧ length dets = length (drop (j * 20) frames)
    ∧ Forall P dets ∧ files w' = files w.
Proof.
  induction m as [|m IH]; intros j acc w Hlen.
  { exists [], w. rewrite app_nil_r. split; [done|].
    split; [rewrite length_drop; simpl; lia|done]. }
  cbn [seq map]. rewrite for_in_cons, M_bind_unfold. cbv beta.
  rewrite M_bind_unfold.
  destruct (call_ok (take 20 (drop (j * 20) frames)) w)
    as (out & w1 & -> & Hout & HP1 & Hf1).
  destruct (IH (S j) (acc ++ out) w1)
    as (dets & w2 & H2 & Hdets & HP2 & Hf2); [lia|].
  exists (out ++ dets), w2. cbn [mret M_ret]. rewrite H2, (assoc_L (++)).
  split; [done|]. split; [|split; [by apply Forall_app|congruence]].
  rewrite length_app, Hout, Hdets, length_take, !length_drop. lia.
Qed.

Lemma batches_all w :
  ∃ dets w',
    for_in batch_body (range_step (length frames) 20) [] w = (Ok dets, w')
    ∧ length dets = length frames ∧ Forall P dets ∧ files w' = files w.
Proof.
  destruct (batches_from ((length frames + 20 - 1) / 20) 0 [] w)
    as (dets & w' & H & Hlen & HP & Hf).
  { pose proof (range_step_covers (length frames)). lia. }
  exists dets, w'. by rewrite drop_0 in Hlen.
Qed.

End Batches.

Lemma invert_knows name pr : knows name pr → is_Some (invert (names pr) !! name).
Proof. intros H. apply invert_foldl_complete. by right. Qed.

Section BallLoop.

Context {image T : Type}.
Import BallTracker.

Lemma choose_total cls_names_inv ball (l : list detection) :
  cls_names_inv !! "Ball" = Some ball →
  ∀ st, ∃ st', for_result (choose cls_names_inv) l st = Ok st'.
Proof.
  intros Hball. induction l as [|d l IH]; intros [chosen m]; [by eexists|].
  rewrite for_result_cons, (choose_at _ ball Hball).
  destruct (class_id d =? ball); [|apply IH].
  destruct (Np.Qltb m (confidence d)); apply IH.
Qed.

Lemma ball_track_frame_ok (tracks : list entry) (pr : prediction) :
  knows "Ball" pr →
  ∃ e, track_frame tracks (length tracks, pr) = Ok (tracks ++ [e]).
Proof.
  intros [ball Hball]%invert_knows. unfold track_frame.
  destruct (choose_total _ ball (boxes pr) Hball (None, 0%Q)) as [[chosen m] ->].
  cbn [mbind result_bind fst]. destruct chosen as [b|]; [|by eexists].
  rewrite (py_index_nat _ _ ∅) by (by rewrite lookup_app_r, Nat.sub_diag by lia).
  cbn [mbind result_bind]. rewrite append_ball. by eexists.
Qed.

Lemma ball_tracks_loop (dets : list prediction) : ∀ acc,
  Forall (knows "Ball") dets →
  ∃ out, for_result track_frame (enumerate_from (length acc) dets) acc
         = Ok (acc ++ out)
         ∧ length out = length dets.
Proof.
  induction dets as [|pr dets IH]; intros acc Hall.
  { exists []. by rewrite app_nil_r. }
  apply Forall_cons in Hall as [Hpr Hall].
  rewrite enumerate_from_cons, for_result_cons.
  destruct (ball_track_frame_ok acc pr Hpr) as [e ->]. cbn [mbind result_bind].
  destruct (IH (acc ++ [e]) Hall) as (out & Hout & Hlen).
  rewrite length_app, Nat.add_1_r in Hout.
  exists (e :: out). rewrite Hout, <- (assoc_L (++)). simpl. by rewrite Hlen.
Qed.

End BallLoop.

Section PlayerLoop.

Context {image T : Type}.
Variable tracker_update : T → list detection → T * list (detection * Z).
Import PlayerTracker.

Lemma keep_player_at cls_names_inv player k (tracks : list entry)
    (d : detection * Z) :
  cls_names_inv !! "Player" = Some player →
  keep_player cls_names_inv k tracks d =
    if class_id d.1 =? player then
      e ← py_index tracks (Z.of_nat k);
      Ok (<[k := <[d.2 := {[ "bbox" := xyxy d.1 ]}]> e]> tracks)
    else Ok tracks.
Proof. intros H. unfold keep_player, py_getitem. by rewrite H. Qed.

Lemma keep_player_total cls_names_inv player k (l : list (detection * Z)) :
  cls_names_inv !! "Player" = Some player →
  ∀ tracks : list entry, length tracks = S k →
    ∃ tracks', for_result (keep_player cls_names_inv k) l tracks = Ok tracks'
               ∧ length tracks' = S k.
Proof.
  intros Hplayer. induction l as [|d l IH]; intros tracks Hlen; [by eexists|].
  rewrite for_result_cons, (keep_player_at _ player) by done.
  destruct (class_id d.1 =? player); [|by apply IH].
  destruct (lookup_lt_is_Some_2 tracks k) as [e He]; [lia|].
  rewrite (py_index_nat _ _ e He). cbn [mbind result_bind].
  apply IH. by rewrite length_insert.
Qed.

Lemma player_track_frame_ok (tracks : list entry) (pr : prediction)
    (w : world image T) :
  knows "Player" pr →
  ∃ tracks' w',
    track_frame tracker_update tracks (length tracks, pr) w = (Ok tracks', w')
    ∧ length tracks' = S (length tracks) ∧ files w' = files w.
Proof.
  intros [player Hplayer]%invert_knows. unfold track_frame.
  rewrite M_bind_unfold. unfold update_with_detections at 1.
  destruct (tracker_update (tracker w) (boxes pr)) as [t tracked].
  destruct (keep_player_total _ player (length tracks) tracked Hplayer
              (tracks ++ [∅])) as (tracks' & H & Hlen).
  { rewrite length_app. simpl. lia. }
  exists tracks', (World (files w) (calls w ++ [TrackerUpdate (boxes pr)]) t).
  unfold lift. by rewrite H.
Qed.

Lemma player_tracks_loop (dets : list prediction) : ∀ acc (w : world image T),
  Forall (knows "Player") dets →
  ∃ tracks w',
    for_in (track_frame tracker_update) (enumerate_from (length acc) dets) acc w
    = (Ok tracks, w')
    ∧ length tracks = (length acc + length dets)%nat ∧ files w' = files w.
Proof.
  induction dets as [|pr dets IH]; intros acc w Hall.
  { exists acc, w. split; [done|]. split; [simpl; lia|done]. }
  apply Forall_cons in Hall as [Hpr Hall].
  rewrite enumerate_from_cons, for_in_cons, M_bind_unfold.
  destruct (player_track_frame_ok acc pr w Hpr) as (acc1 & w1 & -> & Hlen1 & Hf1).
  destruct (IH acc1 w1 Hall) as (tracks & w2 & H2 & Hlen2 & Hf2).
  rewrite Hlen1 in H2. exists tracks, w2. rewrite H2.
  split; [done|]. split; [simpl; lia|congruence].
Qed.

End PlayerLoop.

Lemma in_files_save_writes {image T} (p : string) (tracks cached : list entry)
    (w : world image T) :
  directory_exists (files w) p → Os.is_root p = false →
  files w !! p = Some (File (Pickle cached)) →
  in_files (Stubs.save_stub (Some p) tracks) w
  = (Ok (), World (<[p := File (Pickle tracks)]> (files w)) (calls w) (tracker w)).
Proof.
  intros Hdir Hroot Hp. unfold in_files, zoom.
  by rewrite (save_stub_writes p tracks (Pickle cached)).
Qed.

Lemma directory_exists_nonempty {V} (fs : gmap string (node V)) (p : string) :
  directory_exists fs p → p ≠ EmptyString.
Proof. intros [Hd _] ->. by apply Hd. Qed.

(** When the cache path has a directory that exists and the detector answers
    frame by frame, a stale cache is replaced: the fresh sequence has one
    entry per frame, is written to the cache path and is returned. *)
Theorem get_object_tracks_stale_cache_recomputed {image T : Type}
    (predict : list image → list prediction)
    (tracker_update : T → list detection → T * list (detection * Z))
    (frames : list image) (p : string) (w : world image T)
    (cached : list entry) :
  directory_exists (files w) p → Os.is_root p = false →
  files w !! p = Some (File (Pickle cached)) →
  length cached ≠ length frames →
  (detector_ok predict "Ball" →
   ∃ tracks w',
     BallTracker.get_object_tracks predict frames true (Some p) w
     = (Ok tracks, w')
     ∧ length tracks = length frames
     ∧ files w' = <[p := File (Pickle tracks)]> (files w))
  ∧ (detector_ok predict "Player" →
     ∃ tracks w',
       PlayerTracker.get_object_tracks predict tracker_update frames true
         (Some p) w
       = (Ok tracks, w')
       ∧ length tracks = length frames
       ∧ files w' = <[p := File (Pickle tracks)]> (files w)).
Proof.
  intros Hdir Hroot Hp Hlen.
  pose proof (directory_exists_nonempty _ _ Hdir) as Hne.
  pose proof (read_stub_pickled p cached (files w) Hne Hroot Hp) as Hread.
  apply Nat.eqb_neq in Hlen.
  split; intros Hdet.
  - unfold BallTracker.get_object_tracks.
    rewrite M_bind_unfold, in_files_read_stub, Hread. cbn [fst]. rewrite Hlen.
    rewrite M_bind_unfold. unfold BallTracker.detect_frames, BallTracker.batch_size.
    assert (Hcall : ∀ batch (w0 : world image T),
      ∃ out w', BallTracker.model_predict predict batch w0 = (Ok out, w')
                ∧ length out = length batch ∧ Forall (knows "Ball") out
                ∧ files w' = files w0).
    { intros batch w0. eexists _, _. split; [reflexivity|].
      destruct (Hdet batch) as [H1 H2]. done. }
    destruct (batches_all _ frames (knows "Ball") Hcall w)
      as (dets & w1 & -> & Hdets & Hknow & Hf1).
    rewrite M_bind_unfold. unfold lift at 1. rewrite enumerate_from_0.
    destruct (ball_tracks_loop dets [] Hknow)
      as (tracks & Htracks & Hlen_tracks).
    simpl in Htracks. rewrite Htracks, M_bind_unfold.
    rewrite (in_files_save_writes p tracks cached) by (by rewrite ?Hf1).
    exists tracks. eexists. split; [reflexivity|].
    split; [congruence|]. simpl. by rewrite Hf1.
  - unfold PlayerTracker.get_object_tracks.
    rewrite M_bind_unfold, in_files_read_stub, Hread. cbn [fst]. rewrite Hlen.
    rewrite M_bind_unfold.
    unfold PlayerTracker.detect_frames, PlayerTracker.batch_size.
    assert (Hcall : ∀ batch (w0 : world image T),
      ∃ out w', PlayerTracker.model_predict predict batch w0 = (Ok out, w')
                ∧ length out = length batch ∧ Forall (knows "Player") out
                ∧ files w' = files w0).
    { intros batch w0. eexists _, _. split; [reflexivity|].
      destruct (Hdet batch) as [H1 H2]. done. }
    destruct (batches_all _ frames (knows "Player") Hcall w)
      as (dets & w1 & -> & Hdets & Hknow & Hf1).
    rewrite M_bind_unfold, enumerate_from_0.
    destruct (player_tracks_loop tracker_update dets [] w1 Hknow)
      as (tracks & w2 & Htracks & Hlen_tracks & Hf2).
    simpl in Htracks. rewrite Htracks, M_bind_unfold.
    rewrite (in_files_save_writes p tracks cached) by (by rewrite ?Hf2, ?Hf1).
    exists tracks. eexists. split; [reflexivity|].
    split; [simpl in Hlen_tracks; congruence|]. simpl. by rewrite Hf2, Hf1.
Qed.

Lemma stale_cache_recomputed_run :
  BallTracker.get_object_tracks one_ball [()] true
    (Some "stubs/ball_track_stubs.pkl") (World stale_stub [] ())
  = (Ok [ball_entry b0],
     World (<["stubs/ball_track_stubs.pkl" := File (Pickle [ball_entry b0])]>
              stale_stub)
           [Predict [()]] ()).
Proof. vm_compute. reflexivity. Qed.

(** ** Further properties of the trajectory repair *)

Lemma remove_wrong_detections_pass (ball_positions : list entry) :
  Forall well_formed ball_positions →
  BallTracker.remove_wrong_detections ball_positions
  = Ok (Repair.outlier_rejection ball_positions).
Proof.
  intros Hwf. unfold BallTracker.remove_wrong_detections.
  destruct (rwd_loop ball_positions [] (-1) None Hwf eq_refl) as [last' Hl].
  simpl in Hl. by rewrite Hl.
Qed.

Lemma well_formed_empty : well_formed ∅.
Proof. by left. Qed.

Lemma outlier_pass_well_formed (l : list entry) : ∀ i lg,
  Forall well_formed l → Forall well_formed (Repair.outlier_pass i lg l).
Proof.
  induction l as [|e l IH]; intros i lg Hwf; [constructor|].
  apply Forall_cons in Hwf as [He Hwf]. simpl.
  destruct (get_bbox e) as [|c cs]; [constructor; auto|].
  destruct lg as [[j bj]|]; [|constructor; auto].
  destruct (Repair.exceeds bj (c :: cs) _); constructor; auto.
  apply well_formed_empty.
Qed.

Lemma outlier_pass_length (l : list entry) : ∀ i lg,
  length (Repair.outlier_pass i lg l) = length l.
Proof.
  induction l as [|e l IH]; intros i lg; [done|]. simpl.
  destruct (get_bbox e) as [|c cs]; [simpl; by rewrite IH|].
  destruct lg as [[j bj]|]; [|simpl; by rewrite IH].
  destruct (Repair.exceeds bj (c :: cs) _); simpl; by rewrite IH.
Qed.

(** The pass leaves a sequence that reads smoothly. *)
Lemma outlier_pass_smooth (l : list entry) : ∀ i lg,
  smooth_from i lg (Repair.outlier_pass i lg l).
Proof.
  induction l as [|e l IH]; intros i lg; [done|]. simpl.
  destruct (get_bbox e) as [|c cs] eqn:Hbox.
  { simpl. rewrite Hbox. apply IH. }
  destruct lg as [[j bj]|].
  - destruct (Repair.exceeds bj (c :: cs) _) eqn:Hex; simpl.
    + apply IH.
    + rewrite Hbox. split; [done|apply IH].
  - simpl. rewrite Hbox. split; [done|apply IH].
Qed.

(** A sequence that reads smoothly is left as it is. *)
Lemma smooth_fixed (l : list entry) : ∀ i lg,
  smooth_from i lg l → Repair.outlier_pass i lg l = l.
Proof.
  induction l as [|e l IH]; intros i lg; [done|]. simpl.
  destruct (get_bbox e) as [|c cs] eqn:Hbox.
  { intros H. by rewrite IH. }
  destruct lg as [[j bj]|].
  - intros [-> H]. by rewrite IH.
  - intros [_ H]. by rewrite IH.
Qed.


Lemma boxed_cons_0 e l b : boxed (e :: l) 0 b ↔ get_bbox e = b ∧ b ≠ [].
Proof.
  unfold boxed. simpl. split.
  - by intros (e' & [= <-] & H).
  - intros H. by exists e.
Qed.

(** Reading along the list and looking at pairs of consecutive detections
    say the same. *)
Lemma smooth_from_spec (l : list entry) : ∀ i lg,
  smooth_from i lg l ↔ reachable_first i lg l ∧ jump_free l.
Proof.
  induction l as [|e l IH]; intros i lg.
  { split; [|done]. intros _. split.
    - intros m b (e & He & _). done.
    - intros p q bp bq (_ & (e & He & _) & _). done. }
  simpl. destruct (get_bbox e) as [|c cs] eqn:Hbox.
  - (* the head has no box *)
    rewrite IH. split.
    + intros [Hfirst Hfree]. split.
      * intros [|m] b Hb Hbefore.
        { apply boxed_cons_0 in Hb as [Hb Hne]. congruence. }
        specialize (Hfirst m b Hb).
        destruct lg as [[j bj]|]; [|done].
        replace (Z.of_nat (i + S m)) with (Z.of_nat (S i + m)) by lia.
        apply Hfirst. intros t e' Ht. apply (Hbefore (S t)). lia.
      * intros [|p] [|q] bp bq (Hpq & Hp & Hq & Hbetween); try lia.
        { apply boxed_cons_0 in Hp as [Hp Hne]. congruence. }
        replace (Z.of_nat (S q) - Z.of_nat (S p)) with (Z.of_nat q - Z.of_nat p)
          by lia.
        apply Hfree. split; [lia|]. split; [done|]. split; [done|].
        intros t e' Ht. apply (Hbetween (S t)). lia.
    + intros [Hfirst Hfree]. split.
      * intros m b Hb Hbefore. specialize (Hfirst (S m) b Hb).
        destruct lg as [[j bj]|]; [|done].
        replace (Z.of_nat (S i + m)) with (Z.of_nat (i + S m)) by lia.
        apply Hfirst. intros [|t] e' Ht; simpl.
        { by intros [= <-]. }
        apply Hbefore. lia.
      * intros p q bp bq (Hpq & Hp & Hq & Hbetween).
        replace (Z.of_nat q - Z.of_nat p) with (Z.of_nat (S q) - Z.of_nat (S p))
          by lia.
        apply (Hfree (S p) (S q)). split; [lia|]. split; [done|]. split; [done|].
        intros [|t] e' Ht; [lia|]. simpl. apply Hbetween. lia.
  - (* the head has the box [c :: cs] *)
    assert (Hhead : boxed (e :: l) 0 (c :: cs)).
    { apply boxed_cons_0. by split. }
    rewrite IH. split.
    + intros (Hlg & Hfirst & Hfree). split.
      * intros [|m] b Hb Hbefore.
        { apply boxed_cons_0 in Hb as [Hb _]. rewrite Hbox in Hb. subst b.
          destruct lg as [[j bj]|]; [|done]. by rewrite Nat.add_0_r. }
        exfalso. specialize (Hbefore 0%nat e). rewrite Hbox in Hbefore.
        discriminate Hbefore; [lia|done].
      * intros [|p] [|q] bp bq (Hpq & Hp & Hq & Hbetween); try lia.
        -- apply boxed_cons_0 in Hp as [Hp _]. rewrite Hbox in Hp. subst bp.
           specialize (Hfirst q bq Hq). cbv beta iota in Hfirst.
           replace (Z.of_nat (S q) - Z.of_nat 0)
             with (Z.of_nat (S i + q) - Z.of_nat i) by lia.
           apply Hfirst. intros t e' Ht. apply (Hbetween (S t)). lia.
        -- replace (Z.of_nat (S q) - Z.of_nat (S p))
             with (Z.of_nat q - Z.of_nat p) by lia.
           apply Hfree. split; [lia|]. split; [done|]. split; [done|].
           intros t e' Ht. apply (Hbetween (S t)). lia.
    + intros [Hfirst Hfree]. split; [|split].
      * specialize (Hfirst 0%nat (c :: cs) Hhead).
        destruct lg as [[j bj]|]; [|done].
        rewrite Nat.add_0_r in Hfirst. apply Hfirst. intros; lia.
      * intros m b Hb Hbefore. cbv beta iota.
        replace (Z.of_nat (S i + m) - Z.of_nat i)
          with (Z.of_nat (S m) - Z.of_nat 0) by lia.
        apply (Hfree 0%nat (S m)). split; [lia|]. split; [done|]. split; [done|].
        intros [|t] e' Ht; [lia|]. simpl. apply Hbefore. lia.
      * intros p q bp bq (Hpq & Hp & Hq & Hbetween).
        replace (Z.of_nat q - Z.of_nat p) with (Z.of_nat (S q) - Z.of_nat (S p))
          by lia.
        apply (Hfree (S p) (S q)). split; [lia|]. split; [done|]. split; [done|].
        intros [|t] e' Ht; [lia|]. simpl. apply Hbetween. lia.
Qed.

Lemma jump_free_smooth (l : list entry) : jump_free l ↔ smooth_from 0 None l.
Proof.
  rewrite smooth_from_spec. split; [|by intros [_ H]].
  intros H. split; [|done]. by intros m b _ _.
Qed.

Lemma not_exceeds_distance (a b : bbox) (gap : Z) :
  0 ≤ gap → Repair.exceeds a b gap = false →
  (corner_distance a b <= IZR (25 * gap))%R.
Proof.
  intros Hgap Hex. apply Rnot_lt_le. intros Hlt.
  apply (exceeds_distance a b gap Hgap) in Hlt. congruence.
Qed.

(** X1. On well-formed sequences whose coordinates lie on a binary grid
    on which numpy's norm is exact (multiples of [2^-frac] up to [2^mag],
    [frac + mag <= 24]) the output of [remove_wrong_detections] has no
    impossible jump left: any two consecutive surviving detections, [gap]
    frames apart, have their top-left corners at most [25 × gap] from each
    other. *)
Theorem remove_wrong_detections_jump_free (ball_positions : list entry)
    (frac mag : nat) :
  (frac + mag ≤ 24)%nat →
  Forall well_formed ball_positions →
  Forall (on_grid frac mag) ball_positions →
  ∃ out,
    BallTracker.remove_wrong_detections ball_positions = Ok out
    ∧ ∀ i j bi bj, consecutive out i j bi bj →
        (corner_distance bi bj <= IZR (25 * (Z.of_nat j - Z.of_nat i)))%R.
Proof.
  intros _ Hwf _. exists (Repair.outlier_rejection ball_positions).
  split; [by apply remove_wrong_detections_pass|].
  intros i j bi bj Hc.
  apply not_exceeds_distance; [destruct Hc; lia|].
  pose proof (outlier_pass_smooth ball_positions 0 None) as Hs.
  apply jump_free_smooth in Hs. by apply Hs.
Qed.

Lemma jump_well_formed : Forall well_formed (jump 1).
Proof. repeat constructor; ((left; reflexivity) || (right; reflexivity)). Qed.

Lemma remove_wrong_detections_jump_free_witness :
  ∃ out,
    BallTracker.remove_wrong_detections (jump 1) = Ok out
    ∧ ∀ i j bi bj, consecutive out i j bi bj →
        (corner_distance bi bj <= IZR (25 * (Z.of_nat j - Z.of_nat i)))%R.
Proof.
  apply (remove_wrong_detections_jump_free (jump 1) 0 20);
    [lia|apply jump_well_formed|apply jump_on_grid].
Defined.

(** X2. On well-formed sequences whose coordinates lie on a binary grid
    on which numpy's norm is exact (multiples of [2^-frac] up to [2^mag],
    [frac + mag <= 24]) [remove_wrong_detections] returns its input
    unchanged exactly when the input has no jump: a trajectory whose
    consecutive detections all stay within [25 × gap] loses nothing, and
    any other trajectory loses at least one detection. *)
Theorem remove_wrong_detections_fixed_points (ball_positions : list entry)
    (frac mag : nat) :
  (frac + mag ≤ 24)%nat →
  Forall well_formed ball_positions →
  Forall (on_grid frac mag) ball_positions →
  BallTracker.remove_wrong_detections ball_positions = Ok ball_positions
  ↔ jump_free ball_positions.
Proof.
  intros _ Hwf _. rewrite remove_wrong_detections_pass by done.
  rewrite jump_free_smooth. split.
  - intros [= H]. pose proof (outlier_pass_smooth ball_positions 0 None) as Hs.
    unfold Repair.outlier_rejection in H. by rewrite H in Hs.
  - intros H. f_equal. by apply smooth_fixed.
Qed.

Lemma remove_wrong_detections_fixed_points_witness :
  BallTracker.remove_wrong_detections steady = Ok steady ↔ jump_free steady.
Proof.
  apply (remove_wrong_detections_fixed_points steady 0 20); [lia| |].
  - repeat constructor; ((left; reflexivity) || (right; reflexivity)).
  - repeat constructor;
      (apply (integer_dyadic 0 20) || apply (integer_dyadic 10 20));
      by vm_compute.
Defined.

(** X3. [remove_wrong_detections] is idempotent on well-formed sequences:
    running it on its own output changes nothing. *)
Theorem remove_wrong_detections_idempotent (ball_positions : list entry) :
  Forall well_formed ball_positions →
  ∃ out,
    BallTracker.remove_wrong_detections ball_positions = Ok out
    ∧ BallTracker.remove_wrong_detections out = Ok out.
Proof.
  intros Hwf. exists (Repair.outlier_rejection ball_positions).
  split; [by apply remove_wrong_detections_pass|].
  rewrite remove_wrong_detections_pass
    by (by apply outlier_pass_well_formed).
  f_equal. apply smooth_fixed, outlier_pass_smooth.
Qed.

Lemma remove_wrong_detections_idempotent_witness :
  ∃ out,
    BallTracker.remove_wrong_detections (jump 1) = Ok out
    ∧ BallTracker.remove_wrong_detections out = Ok out.
Proof. apply remove_wrong_detections_idempotent, jump_well_formed. Defined.

(** ** Further properties of the gap filling *)

Section SeriesMore.

Import Pd.

Implicit Types (col : list cell) (pts : list (nat * Q)).

Lemma interp_from_last pts : ∀ x0 y0 j b m,
  Forall (fun p => (p.1 ≤ m)%nat) pts → (j ≤ m)%nat →
  interp_from m x0 y0 (pts ++ [(j, b)]) = b.
Proof.
  induction pts as [|[x1 y1] pts IH]; intros x0 y0 j b m Hle Hm; simpl.
  - by destruct (Nat.ltb_spec m j) as [?|_]; [lia|].
  - apply Forall_cons in Hle as [H1 Hle]. simpl in H1.
    destruct (Nat.ltb_spec m x1) as [?|_]; [lia|]. by apply IH.
Qed.

Lemma np_interp_last pts j b m :
  Forall (fun p => (p.1 < j)%nat) pts → (j ≤ m)%nat →
  np_interp m (pts ++ [(j, b)]) = b.
Proof.
  intros Hlt Hm.
  assert (Hle : Forall (fun p : nat * Q => (p.1 ≤ m)%nat) pts).
  { eapply Forall_impl; [exact Hlt|]. simpl. intros; lia. }
  destruct pts as [|[x0 y0] pts]; simpl.
  - by destruct (Nat.ltb_spec m j) as [?|_]; [lia|].
  - apply Forall_cons in Hle as [H1 Hle]. simpl in H1.
    destruct (Nat.ltb_spec m x0) as [?|_]; [lia|]. by apply interp_from_last.
Qed.

(** Rows after the last valid one take its value. *)
Lemma interpolate_1d_trailing col j b m :
  col !! j = Some (Some b) →
  (∀ t, (j < t < length col)%nat → col !! t = Some None) →
  (j < m < length col)%nat →
  interpolate_1d col !! m = Some (Some b).
Proof.
  intros Hj Hafter Hm.
  pose proof (take_drop_middle _ _ _ Hj) as Hc.
  assert (Hj_len : length (take j col) = j).
  { rewrite length_take. apply lookup_lt_Some in Hj. lia. }
  assert (Hv : valid_from 0 col = valid_from 0 (take j col) ++ [(j, b)]).
  { rewrite <- Hc at 1. rewrite valid_from_app, Hj_len. simpl.
    rewrite (valid_from_missing (S j)); [done|].
    intros t Ht. rewrite length_drop in Ht. rewrite lookup_drop.
    apply Hafter. lia. }
  assert (Hlt : Forall (fun p : nat * Q => (p.1 < j)%nat)
                  (valid_from 0 (take j col))).
  { pose proof (valid_from_lt 0 (take j col)) as H. by rewrite Hj_len in H. }
  unfold interpolate_1d. rewrite Hv.
  destruct (valid_from 0 (take j col) ++ [(j, b)]) as [|[f y] l] eqn:Hl.
  { by destruct (valid_from 0 (take j col)). }
  rewrite list_lookup_imap, (Hafter m) by lia. cbn -[np_interp Nat.ltb].
  assert (Hf : (f ≤ j)%nat).
  { destruct (valid_from 0 (take j col)) as [|[x0 y0] pts]; simpl in Hl.
    - injection Hl as <- <- <-. lia.
    - injection Hl as <- <- <-. apply Forall_cons in Hlt as [H _]. simpl in H. lia. }
  destruct (Nat.ltb_spec m f) as [?|_]; [lia|].
  rewrite <- Hl. rewrite np_interp_last; [done|done|lia].
Qed.



End SeriesMore.

Lemma interpolate_rows (ball_positions : list entry) :
  Forall well_formed ball_positions →
  (∃ i e, ball_positions !! i = Some e ∧ get_bbox e ≠ []) →
  BallTracker.interpolate_ball_positions ball_positions
  = Ok (map ball_entry
          (Pd.bfill (Pd.interpolate (map pad (map get_bbox ball_positions))))).
Proof.
  intros Hwf Hex. unfold BallTracker.interpolate_ball_positions.
  by rewrite DataFrame_boxes.
Qed.

Lemma box_column (ball_positions : list entry) k m e :
  ball_positions !! m = Some e →
  map (fun b : list Q => b !! k) (map get_bbox ball_positions) !! m
  = Some (get_bbox e !! k).
Proof. intros Hm. by rewrite !list_lookup_fmap, Hm. Qed.

Lemma unboxed_column (ball_positions : list entry) k t :
  (t < length ball_positions)%nat →
  (∀ e, ball_positions !! t = Some e → get_bbox e = []) →
  map (fun b : list Q => b !! k) (map get_bbox ball_positions) !! t = Some None.
Proof.
  intros Ht H. destruct (lookup_lt_is_Some_2 ball_positions t Ht) as [e He].
  by rewrite (box_column _ k t e He), (H e He).
Qed.

(** Success, one row per frame, every row a valid box. *)
Lemma interpolate_valid_rows (ball_positions : list entry) :
  Forall well_formed ball_positions →
  (∃ i e, ball_positions !! i = Some e ∧ get_bbox e ≠ []) →
  ∃ rows,
    BallTracker.interpolate_ball_positions ball_positions
    = Ok (map ball_entry rows)
    ∧ length rows = length ball_positions
    ∧ ∀ m, (m < length ball_positions)%nat →
        ∃ x1 y1 x2 y2, rows !! m = Some [Some x1; Some y1; Some x2; Some y2].
Proof.
  intros Hwf Hex. eexists. split; [by apply interpolate_rows|].
  split.
  { unfold Pd.bfill, Pd.interpolate. by rewrite !per_column_length, !length_map. }
  intros m Hm. rewrite repaired_row by (by rewrite length_map).
  destruct Hex as (f & e & Hf & Hne).
  assert (Hfill : ∀ k, (k < 4)%nat →
            ∃ q, repaired k (map get_bbox ball_positions) !! m = Some (Some q)).
  { intros k Hk.
    assert (∃ y, get_bbox e !! k = Some y) as [y Hy].
    { apply lookup_lt_is_Some_2. rewrite Forall_lookup in Hwf.
      destruct (Hwf _ _ Hf) as [H0|H4]; [by destruct (get_bbox e)|lia]. }
    apply (filled_everywhere _ f y).
    - by rewrite (box_column _ k f e), Hy.
    - by rewrite !length_map. }
  destruct (Hfill 0%nat) as [x1 H1]; [lia|].
  destruct (Hfill 1%nat) as [y1 H2]; [lia|].
  destruct (Hfill 2%nat) as [x2 H3]; [lia|].
  destruct (Hfill 3%nat) as [y2 H4]; [lia|].
  exists x1, y1, x2, y2. simpl. by rewrite H1, H2, H3, H4.
Qed.

(** X4. When the last detection of a well-formed sequence is at frame [j],
    [interpolate_ball_positions] gives every later frame the box of frame
    [j]: after the last detection the ball stays where it was last seen. *)
Theorem interpolate_trailing_run (ball_positions : list entry) (j : nat)
    (ej : entry) :
  Forall well_formed ball_positions →
  ball_positions !! j = Some ej → get_bbox ej ≠ [] →
  unboxed_after ball_positions j →
  ∃ rows,
    BallTracker.interpolate_ball_positions ball_positions
    = Ok (map ball_entry rows)
    ∧ ∀ k b m, get_bbox ej !! k = Some b →
        (j < m < length ball_positions)%nat → cell_at rows m k = Some b.
Proof.
  intros Hwf Hj Hne Hafter. eexists.
  split; [apply interpolate_rows; [done|by exists j, ej]|].
  intros k b m Hb Hm.
  assert (Hk4 : (k < Pd.ncols)%nat).
  { rewrite Forall_lookup in Hwf. apply (well_formed_coord ej k b); eauto. }
  rewrite repaired_cell; [|by rewrite length_map; lia|done].
  unfold repaired.
  rewrite (bfill_1d_valid _ m b); [done|].
  apply (interpolate_1d_trailing _ j b).
  - by rewrite (box_column _ k j ej), Hb.
  - intros t Ht. rewrite !length_map in Ht. apply unboxed_column; [lia|].
    intros e He. apply (Hafter t e); [lia|done].
  - by rewrite !length_map.
Qed.

Lemma interpolate_trailing_run_witness :
  ∃ rows,
    BallTracker.interpolate_ball_positions lost_ball = Ok (map ball_entry rows)
    ∧ ∀ k b m, [30; 30; 40; 40]%Q !! k = Some b →
        (1 < m < 4)%nat → cell_at rows m k = Some b.
Proof.
  apply (interpolate_trailing_run lost_ball 1 (ball_entry [30; 30; 40; 40]%Q)).
  - repeat constructor; ((left; reflexivity) || (right; reflexivity)).
  - reflexivity.
  - discriminate.
  - intros t e Ht He. unfold lost_ball in He.
    destruct t as [|[|[|[|t]]]]; try lia; simpl in He; try discriminate;
      by injection He as <-.
Defined.



Lemma outlier_pass_keeps_a_box (l : list entry) : ∀ i,
  (∃ m e, l !! m = Some e ∧ get_bbox e ≠ []) →
  ∃ m e, Repair.outlier_pass i None l !! m = Some e ∧ get_bbox e ≠ [].
Proof.
  induction l as [|e l IH]; intros i (m & e' & Hm & Hne); [done|].
  simpl. destruct (get_bbox e) as [|c cs] eqn:Hbox.
  - destruct m as [|m]; [simpl in Hm; congruence|].
    destruct (IH (S i)) as (m' & e'' & H & Hne'); [by exists m, e'|].
    by exists (S m'), e''.
  - exists 0%nat, e. by rewrite Hbox.
Qed.

(** X6. The two repair passes compose: for a well-formed sequence with at
    least one detection, [remove_wrong_detections] succeeds and
    [interpolate_ball_positions] of its output succeeds, with one row per
    frame of the input and a valid box in every row. *)
Theorem repair_pipeline (ball_positions : list entry) :
  Forall well_formed ball_positions →
  (∃ i e, ball_positions !! i = Some e ∧ get_bbox e ≠ []) →
  ∃ out rows,
    BallTracker.remove_wrong_detections ball_positions = Ok out
    ∧ BallTracker.interpolate_ball_positions out = Ok (map ball_entry rows)
    ∧ length rows = length ball_positions
    ∧ ∀ m, (m < length ball_positions)%nat →
        ∃ x1 y1 x2 y2, rows !! m = Some [Some x1; Some y1; Some x2; Some y2].
Proof.
  intros Hwf Hex. exists (Repair.outlier_rejection ball_positions).
  destruct (interpolate_valid_rows (Repair.outlier_rejection ball_positions))
    as (rows & Hrows & Hlen & Hvalid).
  { by apply outlier_pass_well_formed. }
  { by apply outlier_pass_keeps_a_box. }
  unfold Repair.outlier_rejection in Hlen, Hvalid.
  rewrite outlier_pass_length in Hlen, Hvalid.
  exists rows. split; [by apply remove_wrong_detections_pass|]. done.
Qed.

Lemma repair_pipeline_witness :
  ∃ out rows,
    BallTracker.remove_wrong_detections (jump 1) = Ok out
    ∧ BallTracker.interpolate_ball_positions out = Ok (map ball_entry rows)
    ∧ length rows = length (jump 1)
    ∧ ∀ m, (m < length (jump 1))%nat →
        ∃ x1 y1 x2 y2, rows !! m = Some [Some x1; Some y1; Some x2; Some y2].
Proof.
  apply repair_pipeline; [apply jump_well_formed|].
  exists 0%nat, (ball_entry b0). split; [reflexivity|discriminate].
Defined.

(** ** Further properties of the result cache *)

Section StubsMore.

Context {V : Type}.

Implicit Types (fs : gmap string (node V)) (p : string).






End StubsMore.



Section Growth.

Context {V : Type}.

Implicit Types (fs : gmap string (node V)) (p : string).

Lemma grows_refl fs : grows fs fs.
Proof. intros q. by left. Qed.

Lemma grows_trans fs1 fs2 fs3 : grows fs1 fs2 → grows fs2 fs3 → grows fs1 fs3.
Proof.
  intros H12 H23 q. destruct (H12 q) as [E1 | [E1 E1']], (H23 q) as [E2 | [E2 E2']].
  - left. congruence.
  - right. split; congruence.
  - right. split; congruence.
  - congruence.
Qed.

Lemma path_exists_false fs p :
  p ≠ EmptyString → Os.path_exists fs p = false →
  Os.is_root p = false ∧ fs !! p = None.
Proof.
  intros Hp. unfold Os.path_exists. destruct p as [|c p]; [done|].
  intros [Hr Hs]%orb_false_elim. split; [done|].
  apply bool_decide_eq_false in Hs. by apply eq_None_not_Some.
Qed.

Lemma mkdir_grows p fs : grows fs (Os.mkdir p fs).2.
Proof.
  unfold Os.mkdir. rewrite M_bind_unfold. unfold get at 1. cbv beta iota.
  destruct p as [|c p]; [apply grows_refl|].
  destruct (Os.path_exists fs (String c p)) eqn:E; [apply grows_refl|].
  rewrite M_bind_unfold. unfold lift at 1.
  destruct (Os.parent_ready fs (String c p)); [|apply grows_refl].
  apply path_exists_false in E as [_ E]; [|done].
  intros q. simpl. destruct (decide (q = String c p)) as [-> | Hq].
  - right. by rewrite lookup_insert_eq.
  - left. by rewrite lookup_insert_ne.
Qed.

Lemma makedirs_fuel_unfold fuel p :
  Os.makedirs_fuel (V:=V) fuel p
  = (let '(head, tail) := Os.split p in
     fs ← get;
     _ ← match fuel, head, tail with
         | S fuel', String _ _, String _ _ =>
             if Os.path_exists fs head then mret tt
             else fun fs =>
               match Os.makedirs_fuel fuel' head fs with
               | (Raise FileExistsError, fs') => (Ok tt, fs')
               | r => r
               end
         | _, _, _ => mret tt
         end;
     Os.mkdir p).
Proof. by destruct fuel. Qed.

Lemma makedirs_fuel_grows fuel p fs : grows fs (Os.makedirs_fuel fuel p fs).2.
Proof.
  revert p fs. induction fuel as [|fuel IH]; intros p fs;
    rewrite makedirs_fuel_unfold; destruct (Os.split p) as [head tail];
    rewrite M_bind_unfold; unfold get at 1; cbv beta iota;
    rewrite M_bind_unfold.
  - apply mkdir_grows.
  - destruct head as [|c head]; [apply mkdir_grows|].
    destruct tail as [|c' tail]; [apply mkdir_grows|].
    destruct (Os.path_exists fs (String c head)); [apply mkdir_grows|].
    pose proof (IH (String c head) fs) as Hg.
    destruct (Os.makedirs_fuel fuel (String c head) fs) as [[[]|e] fs1];
      simpl in Hg.
    + eapply grows_trans; [exact Hg|apply mkdir_grows].
    + destruct e; try exact Hg.
      eapply grows_trans; [exact Hg|apply mkdir_grows].
Qed.

Lemma dump_elsewhere p (v : V) fs q :
  q ≠ p → (Os.dump p v fs).2 !! q = fs !! q.
Proof.
  intros Hq. unfold Os.dump. rewrite M_bind_unfold. unfold get at 1.
  cbv beta iota. destruct p as [|c p]; [done|].
  assert (Hw : ((if Os.is_root (String c p) then raise IsADirectoryError
                 else _ ← lift (Os.parent_ready fs (String c p));
                      put (<[String c p := File (Pickle v)]> fs)) fs).2 !! q
               = fs !! q).
  { destruct (Os.is_root (String c p)); [done|].
    rewrite M_bind_unfold. unfold lift at 1.
    destruct (Os.parent_ready fs (String c p)); [|done].
    simpl. by rewrite lookup_insert_ne. }
  destruct (fs !! String c p) as [[|content]|]; [done|exact Hw|exact Hw].
Qed.

Lemma save_stub_state p (v : V) fs :
  (Stubs.save_stub (Some p) v fs).2
  = if Os.path_exists fs (Os.dirname p) then (Os.dump p v fs).2
    else match Os.makedirs (Os.dirname p) fs with
         | (Ok _, fs1) => (Os.dump p v fs1).2
         | (Raise _, fs1) => fs1
         end.
Proof.
  unfold Stubs.save_stub. rewrite M_bind_unfold.
  unfold lift at 1. simpl. rewrite M_bind_unfold. unfold get at 1.
  rewrite M_bind_unfold.
  destruct (Os.path_exists fs (Os.dirname p)); simpl; [done|].
  rewrite M_bind_unfold. unfold lift at 1. cbv beta iota.
  by destruct (Os.makedirs (Os.dirname p) fs) as [[[]|e] fs1].
Qed.

Lemma save_stub_grows p (v : V) fs q :
  q ≠ p →
  (Stubs.save_stub (Some p) v fs).2 !! q = fs !! q
  ∨ (fs !! q = None ∧ (Stubs.save_stub (Some p) v fs).2 !! q = Some Dir).
Proof.
  intros Hq. rewrite save_stub_state.
  destruct (Os.path_exists fs (Os.dirname p)).
  - left. by apply dump_elsewhere.
  - pose proof (makedirs_fuel_grows (String.length (Os.dirname p))
                  (Os.dirname p) fs q) as Hg.
    unfold Os.makedirs.
    destruct (Os.makedirs_fuel _ (Os.dirname p) fs) as [[[]|e] fs1];
      simpl in Hg; [|exact Hg].
    rewrite dump_elsewhere by done. exact Hg.
Qed.





End Growth.



(** X9. Whatever [save_stub] does, and whether it returns or raises, it
    leaves every other path of the disk as it was, except that it may
    create a directory where there was nothing: no other file is changed
    or removed. Both paths are plainly written and the disk is tidy, so
    that different strings are different files. *)
Theorem save_stub_other_paths {V : Type} (fs : gmap string (node V))
    (stub_path : option string) (object : V) (q : string) :
  (∀ p, stub_path = Some p → plain p) → plain q → tidy fs →
  stub_path ≠ Some q →
  (Stubs.save_stub stub_path object fs).2 !! q = fs !! q
  ∨ (fs !! q = None
     ∧ (Stubs.save_stub stub_path object fs).2 !! q = Some Dir).
Proof.
  intros _ _ _ Hq. destruct stub_path as [p|]; [|by left].
  apply save_stub_grows. congruence.
Qed.

Lemma save_stub_other_paths_witness :
  (Stubs.save_stub (Some "out/tracks.pkl") [ball_entry b0] stale_stub).2
    !! "stubs/ball_track_stubs.pkl"
  = stale_stub !! "stubs/ball_track_stubs.pkl"
  ∨ (stale_stub !! "stubs/ball_track_stubs.pkl" = None
     ∧ (Stubs.save_stub (Some "out/tracks.pkl") [ball_entry b0] stale_stub).2
         !! "stubs/ball_track_stubs.pkl" = Some Dir).
Proof.
  apply save_stub_other_paths.
  - intros p [= <-]. by apply plainb_plain.
  - by apply plainb_plain.
  - by apply tidyb_tidy.
  - discriminate.
Defined.

(** ** The cache path left at its default *)

Section NoPath.

Context {image T : Type}.

Lemma fresh_no_path (m : M (world image T) (list entry)) w :
  keeps_files m →
  let run := (tracks ← m;
              _ ← in_files (Stubs.save_stub None tracks);
              mret tracks) w in
  (∃ e, run.1 = Raise e) ∧ files run.2 = files w.
Proof.
  intros Hm. simpl. rewrite M_bind_unfold. specialize (Hm w).
  destruct (m w) as [[tracks|e] w']; simpl in *; [|by eauto].
  by eauto.
Qed.

End NoPath.

Section TeamFiles.

Context {image : Type}.

Variable shape : image → Z * Z.
Variable argmax : image → bbox → string → string → bool.
Variable team_1_class_name team_2_class_name : string.

Implicit Types (s : TeamAssigner.state image).

Lemma team_keeps_files_ret {A} (a : A) :
  team_keeps_files (mret a : M (TeamAssigner.state image) A).
Proof. by intros s. Qed.

Lemma team_keeps_files_lift {A} (r : result A) :
  team_keeps_files (lift r : M (TeamAssigner.state image) A).
Proof. by intros s. Qed.

Lemma team_keeps_files_bind {A B} (m : M (TeamAssigner.state image) A)
    (f : A → M _ B) :
  team_keeps_files m → (∀ a, team_keeps_files (f a)) →
  team_keeps_files (m ≫= f).
Proof.
  intros Hm Hf s. rewrite M_bind_unfold. specialize (Hm s).
  destruct (m s) as [[a|e] s']; simpl in *; [|done].
  by rewrite Hf.
Qed.

Lemma team_keeps_files_for_in {X A}
    (body : A → X → M (TeamAssigner.state image) A) xs :
  (∀ a x, team_keeps_files (body a x)) →
  ∀ a, team_keeps_files (for_in body xs a).
Proof.
  intros Hb. induction xs as [|x xs IH]; intros a; simpl.
  - apply team_keeps_files_ret.
  - apply team_keeps_files_bind; [apply Hb|apply IH].
Qed.

Lemma get_player_team_keeps_files frame b p :
  team_keeps_files
    (TeamAssigner.get_player_team shape argmax team_1_class_name
       team_2_class_name frame b p).
Proof.
  intros s. unfold TeamAssigner.get_player_team. rewrite M_bind_unfold.
  unfold get at 1. cbv beta iota.
  destruct (TeamAssigner.player_team_dict s !! p); [done|].
  rewrite M_bind_unfold. unfold lift at 1.
  by destruct (TeamAssigner.get_player_color _ _ _ _ frame b).
Qed.

Lemma assign_frame_keeps_files video_frames pa ft :
  team_keeps_files
    (TeamAssigner.assign_frame shape argmax team_1_class_name team_2_class_name
       video_frames pa ft).
Proof.
  destruct ft as [frame_num player_track]. unfold TeamAssigner.assign_frame.
  apply team_keeps_files_bind.
  { intros s. by destruct (frame_num mod TeamAssigner.memo_window =? 0)%nat. }
  intros _. apply team_keeps_files_for_in. intros a [player_id track].
  unfold TeamAssigner.assign_player.
  apply team_keeps_files_bind; [apply team_keeps_files_lift|]. intros frame.
  apply team_keeps_files_bind; [apply team_keeps_files_lift|]. intros b.
  apply team_keeps_files_bind; [apply get_player_team_keeps_files|].
  intros team.
  apply team_keeps_files_bind; [apply team_keeps_files_lift|]. intros e.
  apply team_keeps_files_ret.
Qed.

Lemma team_in_files_save_none (pa : list (gmap Z Z)) s :
  TeamAssigner.in_files (Stubs.save_stub None pa) s = (Raise TypeError, s).
Proof. unfold TeamAssigner.in_files, zoom. simpl. by destruct s. Qed.

End TeamFiles.

(** X10. With [stub_path] left at its default [None], a call that has to
    compute (no usable cache) never returns its result: [get_object_tracks]
    of either tracker and [get_player_teams_across_frames] do the whole
    computation and then raise, since [save_stub] takes the directory of
    the path before it tests the path against [None]. With [None] the
    cache is never usable, whatever [read_from_stub] says; the files are
    left as they were. *)
Theorem default_stub_path_never_returns {image T : Type}
    (predict : list image → list prediction)
    (tracker_update : T → list detection → T * list (detection * Z))
    (shape : image → Z * Z)
    (argmax : image → bbox → string → string → bool)
    (team_1_class_name team_2_class_name : string)
    (frames : list image) (player_tracks : list (list (Z * gmap string bbox)))
    (read_from_stub : bool) (w : world image T)
    (s : TeamAssigner.state image) :
  let ball := BallTracker.get_object_tracks predict frames read_from_stub
                None w in
  let player := PlayerTracker.get_object_tracks predict tracker_update frames
                  read_from_stub None w in
  let teams := TeamAssigner.get_player_teams_across_frames shape argmax
                 team_1_class_name team_2_class_name frames player_tracks
                 read_from_stub None s in
  ((∃ e, ball.1 = Raise e) ∧ files ball.2 = files w)
  ∧ ((∃ e, player.1 = Raise e) ∧ files player.2 = files w)
  ∧ ((∃ e, teams.1 = Raise e)
     ∧ TeamAssigner.files teams.2 = TeamAssigner.files s).
Proof.
  simpl.
  unfold BallTracker.get_object_tracks, PlayerTracker.get_object_tracks,
    TeamAssigner.get_player_teams_across_frames.
  rewrite !M_bind_unfold, !in_files_read_stub, team_in_files_read_stub.
  assert (Hnone : ∀ V fs, (Stubs.read_stub (V:=V) read_from_stub None fs).1
                          = Ok None) by (intros; by destruct read_from_stub).
  rewrite !Hnone. cbv beta iota.
  pose proof (fresh_no_path
    (detections ← BallTracker.detect_frames predict frames;
     lift (for_result BallTracker.track_frame (enumerate detections) []))
    w) as Hball.
  pose proof (fresh_no_path
    (detections ← PlayerTracker.detect_frames predict frames;
     for_in (PlayerTracker.track_frame tracker_update) (enumerate detections) [])
    w) as Hplayer.
  simpl in Hball, Hplayer. rewrite M_bind_assoc in Hball, Hplayer.
  split; [|split].
  - apply Hball. apply keeps_files_bind; [apply ball_detect_keeps_files|].
    intros; apply keeps_files_lift.
  - apply Hplayer. apply keeps_files_bind; [apply player_detect_keeps_files|].
    intros; apply keeps_files_for_in.
    intros; apply player_track_frame_keeps_files.
  - rewrite M_bind_unfold.
    pose proof (team_keeps_files_for_in
      (TeamAssigner.assign_frame shape argmax team_1_class_name team_2_class_name
         frames)
      (enumerate player_tracks)
      (assign_frame_keeps_files shape argmax team_1_class_name team_2_class_name
         frames) [] s) as Hloop.
    destruct (for_in _ (enumerate player_tracks) [] s) as [[pa|e] s'];
      simpl in *; [|by eauto].
    rewrite ?M_bind_unfold, ?team_in_files_save_none. by eauto.
Qed.

(** X11. Cache hit of the team assigner: when the cache load yields a
    sequence as long as the frame list, [get_player_teams_across_frames]
    returns it and leaves the assigner as it was: no player is classified,
    the memo is neither reset nor filled, nothing is written. *)
Theorem get_player_teams_cache_hit {image : Type}
    (shape : image → Z * Z)
    (argmax : image → bbox → string → string → bool)
    (team_1_class_name team_2_class_name : string)
    (video_frames : list image)
    (player_tracks : list (list (Z * gmap string bbox)))
    (read_from_stub : bool) (stub_path : option string)
    (s : TeamAssigner.state image) (player_assignment : list (gmap Z Z)) :
  (Stubs.read_stub read_from_stub stub_path (TeamAssigner.files s)).1
  = Ok (Some player_assignment) →
  length player_assignment = length video_frames →
  TeamAssigner.get_player_teams_across_frames shape argmax team_1_class_name
    team_2_class_name video_frames player_tracks read_from_stub stub_path s
  = (Ok player_assignment, s).
Proof.
  intros Hread Hlen. unfold TeamAssigner.get_player_teams_across_frames.
  rewrite M_bind_unfold, team_in_files_read_stub, Hread, Hlen, Nat.eqb_refl.
  done.
Qed.

Lemma get_player_teams_cache_hit_witness :
  TeamAssigner.get_player_teams_across_frames hd white_only "white shirt"
    "dark blue shirt" [0%nat; 1%nat] [[(7, box7)]; [(7, box7)]] true
    (Some "stubs/player_assignment_stub.pkl")
    (TeamAssigner.State ∅ team_stub_example [])
  = (Ok [{[ 7 := 1 ]}; ∅], TeamAssigner.State ∅ team_stub_example []).
Proof.
  apply (get_player_teams_cache_hit hd white_only "white shirt"
           "dark blue shirt"
           [0%nat; 1%nat] [[(7, box7)]; [(7, box7)]] true
           (Some "stubs/player_assignment_stub.pkl")
           (TeamAssigner.State ∅ team_stub_example []) [{[ 7 := 1 ]}; ∅]);
    reflexivity.
Defined.


(** ** Batching of the detector calls *)

Lemma py_index_beyond {A} (l : list A) (n : nat) :
  (length l ≤ n)%nat → py_index l (Z.of_nat n) = Raise IndexError.
Proof.
  intros Hn. unfold py_index.
  destruct (Z.of_nat n <? 0) eqn:E; [lia|]. rewrite E.
  rewrite Nat2Z.id. by rewrite lookup_ge_None_2.
Qed.


Section Chunks.

Context {A : Type}.

Implicit Types (l : list A).

Lemma chunks_concat n : ∀ fuel l,
  (0 < n)%nat → (length l ≤ fuel)%nat → concat (chunks fuel n l) = l.
Proof.
  induction fuel as [|fuel IH]; intros l Hn Hlen.
  - destruct l; [done|simpl in Hlen; lia].
  - destruct l as [|x l]; [done|].
    cbn [chunks concat]. rewrite IH, take_drop; [done|done|].
    rewrite length_drop. simpl in *. lia.
Qed.

Lemma chunks_sizes n : ∀ fuel l,
  (0 < n)%nat →
  Forall (fun b => (0 < length b ≤ n)%nat) (chunks fuel n l).
Proof.
  induction fuel as [|fuel IH]; intros l Hn; [by constructor|].
  destruct l as [|x l]; [by constructor|].
  cbn [chunks]. constructor; [|by apply IH].
  rewrite length_take. simpl. lia.
Qed.

Lemma chunks_seq (frames : list A) : ∀ m j fuel,
  (length (drop (j * 20) frames) ≤ m * 20)%nat →
  (m = 0%nat ∨ ((m - 1) * 20 < length (drop (j * 20) frames))%nat) →
  (length (drop (j * 20) frames) ≤ fuel)%nat →
  map (fun q => take 20 (drop (q * 20) frames)) (seq j m)
  = chunks fuel 20 (drop (j * 20) frames).
Proof.
  induction m as [|m IH]; intros j fuel Hup Hlow Hfuel.
  - assert (drop (j * 20) frames = []) as ->
      by (apply length_zero_iff_nil; lia).
    by destruct fuel.
  - destruct Hlow as [|Hlow]; [done|].
    destruct (drop (j * 20) frames) as [|x l] eqn:E; [simpl in Hlow; lia|].
    destruct fuel as [|fuel]; [simpl in Hfuel; lia|].
    cbn [seq map chunks]. rewrite E. f_equal.
    assert (Hd : drop (S j * 20) frames = drop 20 (x :: l)).
    { rewrite <- E, drop_drop. f_equal. lia. }
    rewrite <- Hd. apply IH; rewrite Hd, length_drop; simpl in *; lia.
Qed.

Lemma batches_range (frames : list A) :
  map (fun i => take 20 (drop i frames)) (range_step (length frames) 20)
  = batches frames.
Proof.
  unfold range_step, batches. rewrite map_map.
  pose proof (chunks_seq frames ((length frames + 20 - 1) / 20) 0
                (length frames)) as H.
  rewrite drop_0 in H. apply H; [| |done].
  - pose proof (range_step_covers (length frames)). lia.
  - pose proof (Nat.div_mod_eq (length frames + 20 - 1) 20).
    pose proof (Nat.mod_upper_bound (length frames + 20 - 1) 20).
    destruct (length frames); [by left|right; lia].
Qed.

End Chunks.

Section Detect.

Context {image T : Type}.

Variable predict : list image → list prediction.
Variable call : list image → M (world image T) (list prediction).

Hypothesis call_logs : ∀ batch w,
  call batch w
  = (Ok (predict batch),
     World (files w) (calls w ++ [Predict batch]) (tracker w)).

Lemma detect_loop (frames : list image) : ∀ idxs acc (w : world image T),
  for_in (fun detections i =>
            detections_batch ← call (take 20 (drop i frames));
            mret (detections ++ detections_batch)) idxs acc w
  = (Ok (acc ++ concat (map predict
                          (map (fun i => take 20 (drop i frames)) idxs))),
     World (files w)
           (calls w ++ map Predict
                         (map (fun i => take 20 (drop i frames)) idxs))
           (tracker w)).
Proof.
  induction idxs as [|i idxs IH]; intros acc w.
  - simpl. rewrite !app_nil_r. by destruct w.
  - rewrite for_in_cons, M_bind_unfold. cbv beta. rewrite M_bind_unfold.
    rewrite call_logs. cbn [mret M_ret]. rewrite IH. simpl.
    by rewrite <- !(assoc_L (++)).
Qed.

End Detect.

Section DetectRuns.

Context {image T : Type}.

Variable predict : list image → list prediction.

Lemma ball_detect_run (frames : list image) (w : world image T) :
  BallTracker.detect_frames predict frames w
  = (Ok (predictions predict frames),
     World (files w) (calls w ++ map Predict (batches frames)) (tracker w)).
Proof.
  unfold BallTracker.detect_frames, BallTracker.batch_size, predictions.
  rewrite (detect_loop predict) by done. by rewrite batches_range.
Qed.

Lemma player_detect_run (frames : list image) (w : world image T) :
  PlayerTracker.detect_frames predict frames w
  = (Ok (predictions predict frames),
     World (files w) (calls w ++ map Predict (batches frames)) (tracker w)).
Proof.
  unfold PlayerTracker.detect_frames, PlayerTracker.batch_size, predictions.
  rewrite (detect_loop predict) by done. by rewrite batches_range.
Qed.


End DetectRuns.

(** X13. [detect_frames] (the same code in both trackers) calls the
    detector on consecutive batches of at most 20 frames, in order, each
    frame in exactly one batch and no batch empty, and returns the answers
    concatenated; it touches neither the files nor the tracker. For a
    detector that answers frame by frame the result is the frame-wise
    answer, whatever the batching. *)
Theorem detect_frames_batches {image T : Type}
    (predict : list image → list prediction) (frames : list image)
    (w : world image T) :
  let after := World (files w) (calls w ++ map Predict (batches frames))
                     (tracker w) in
  BallTracker.detect_frames predict frames w
  = (Ok (predictions predict frames), after)
  ∧ PlayerTracker.detect_frames predict frames w
    = (Ok (predictions predict frames), after)
  ∧ concat (batches frames) = frames
  ∧ Forall (fun batch => (0 < length batch ≤ 20)%nat) (batches frames)
  ∧ ∀ f, (∀ batch, predict batch = map f batch) →
         predictions predict frames = map f frames.
Proof.
  simpl. split; [|split; [|split; [|split]]].
  - apply ball_detect_run.
  - apply player_detect_run.
  - by apply chunks_concat; [lia|].
  - apply chunks_sizes. lia.
  - intros f Hf. unfold predictions.
    replace (map predict (batches frames)) with (map (map f) (batches frames))
      by (apply map_ext; intros; by rewrite Hf).
    rewrite <- (chunks_concat 20 (length frames) frames) at 2 by lia.
    unfold batches. generalize (chunks (length frames) 20 frames).
    intros bs. induction bs as [|b bs IH]; [done|].
    simpl. by rewrite map_app, IH.
Qed.

(** ** What the recomputed tracks hold *)

Section Fresh.

Context {image T : Type}.

Implicit Types (w : world image T) (p : string).



End Fresh.


Section BallContent.

Context {image T : Type}.

Import BallTracker.






End BallContent.



Section PlayerContent.

Context {image T : Type}.

Variable tracker_update : T → list detection → T * list (detection * Z).

Import PlayerTracker.






End PlayerContent.





(** ** What the team assignment holds *)

Section TeamContent.

Context {image : Type}.

Variable shape : image → Z * Z.
Variable argmax : image → bbox → string → string → bool.
Variable team_1_class_name team_2_class_name : string.

Import TeamAssigner.

Implicit Types (s : state image) (pa : list (gmap Z Z)).

Lemma get_player_team_content frame b p s :
  croppable shape frame b →
  ∃ t s',
    get_player_team shape argmax team_1_class_name team_2_class_name
      frame b p s
    = (Ok t, s')
    ∧ files s' = files s
    ∧ player_team_dict s' !! p = Some t
    ∧ player_team_dict s ⊆ player_team_dict s'
    ∧ ∀ q u, player_team_dict s' !! q = Some u →
             player_team_dict s !! q = Some u ∨ (u = 1 ∨ u = 2).
Proof.
  intros Hcrop. destruct (player_team_dict s !! p) as [team|] eqn:Hp.
  - exists team, s. rewrite (get_player_team_hit _ _ _ _ _ _ _ _ team Hp).
    split; [done|]. split; [done|]. split; [done|]. split; [done|].
    intros q u Hq. by left.
  - eexists _, _. rewrite (get_player_team_miss _ _ _ _ _ _ _ _ Hp Hcrop).
    split; [done|]. split; [done|]. simpl.
    split; [by rewrite lookup_insert_eq|].
    split; [by apply insert_subseteq|].
    intros q u Hq. destruct (decide (q = p)) as [->|Hne].
    + rewrite lookup_insert_eq in Hq. injection Hq as <-. right.
      unfold team_of. destruct (String.eqb _ _); [by left|by right].
    + rewrite lookup_insert_ne in Hq by done. by left.
Qed.

Lemma assign_player_content video_frames k frame pa p tr b a0 s :
  video_frames !! k = Some frame → tr !! "bbox" = Some b →
  croppable shape frame b →
  pa !! k = Some a0 →
  ∃ t s',
    assign_player shape argmax team_1_class_name team_2_class_name
      video_frames k pa (p, tr) s
    = (Ok (<[k := <[p := t]> a0]> pa), s')
    ∧ files s' = files s
    ∧ player_team_dict s' !! p = Some t
    ∧ player_team_dict s ⊆ player_team_dict s'
    ∧ ∀ q u, player_team_dict s' !! q = Some u →
             player_team_dict s !! q = Some u ∨ (u = 1 ∨ u = 2).
Proof.
  intros Hk Hb Hcrop Ha. unfold assign_player.
  rewrite M_bind_unfold. unfold lift at 1. rewrite (py_index_nat _ _ _ Hk).
  rewrite M_bind_unfold. unfold lift at 1, py_getitem. rewrite Hb.
  rewrite M_bind_unfold.
  destruct (get_player_team_content frame b p s Hcrop)
    as (t & s' & -> & Hf & Ht & Hsub & Hval).
  rewrite M_bind_unfold. unfold lift at 1. rewrite (py_index_nat _ _ _ Ha).
  by exists t, s'.
Qed.

Lemma assign_items_content video_frames k frame items : ∀ pa a0 s,
  video_frames !! k = Some frame →
  (∀ item, item ∈ items →
     ∃ b, item.2 !! "bbox" = Some b ∧ croppable shape frame b) →
  pa !! k = Some a0 →
  (∀ q u, a0 !! q = Some u → player_team_dict s !! q = Some u) →
  ∃ a' s',
    for_in (assign_player shape argmax team_1_class_name team_2_class_name
              video_frames k) items pa s
    = (Ok (<[k := a']> pa), s')
    ∧ files s' = files s
    ∧ dom a' = (dom a0 ∪ list_to_set (ids items))
    ∧ (∀ q u, a' !! q = Some u → player_team_dict s' !! q = Some u)
    ∧ player_team_dict s ⊆ player_team_dict s'
    ∧ ∀ q u, player_team_dict s' !! q = Some u →
             player_team_dict s !! q = Some u ∨ (u = 1 ∨ u = 2).
Proof.
  induction items as [|[p tr] items IH]; intros pa a0 s Hk Hbox Ha Hagree.
  { exists a0, s. rewrite list_insert_id by done. split; [done|].
    split; [done|]. split; [set_solver|]. split; [done|]. split; [done|].
    intros q u Hq. by left. }
  destruct (Hbox (p, tr)) as (b & Hb & Hcrop); [by left|]. simpl in Hb.
  destruct (assign_player_content video_frames k frame pa p tr b a0 s)
    as (t & s1 & H1 & Hf1 & Ht1 & Hsub1 & Hval1); [done..|].
  pose proof (lookup_lt_Some _ _ _ Ha) as Hlt.
  destruct (IH (<[k := <[p := t]> a0]> pa) (<[p := t]> a0) s1)
    as (a' & s2 & H2 & Hf2 & Hdom2 & Hagree2 & Hsub2 & Hval2); [done| | |  |].
  { intros item Hitem. apply Hbox. by right. }
  { by rewrite list_lookup_insert_eq. }
  { intros q u Hq. destruct (decide (q = p)) as [->|Hne].
    - rewrite lookup_insert_eq in Hq. by injection Hq as <-.
    - rewrite lookup_insert_ne in Hq by done.
      eapply lookup_weaken; [by apply Hagree|done]. }
  exists a', s2. rewrite for_in_cons, M_bind_unfold, H1, H2.
  rewrite list_insert_insert_eq. split; [done|].
  split; [congruence|]. split.
  { rewrite Hdom2, dom_insert_L. unfold ids. simpl. set_solver. }
  split; [done|]. split; [by etrans|].
  intros q u Hq. destruct (Hval2 q u Hq) as [H|H]; [|by right].
  by apply Hval1.
Qed.

Lemma assign_frame_content video_frames pa k frame player_track s :
  video_frames !! k = Some frame →
  (∀ item, item ∈ player_track →
     ∃ b, item.2 !! "bbox" = Some b ∧ croppable shape frame b) →
  length pa = k →
  let s0 := if (k mod memo_window =? 0)%nat then cleared s else s in
  ∃ a s',
    assign_frame shape argmax team_1_class_name team_2_class_name
      video_frames pa (k, player_track) s
    = (Ok (pa ++ [a]), s')
    ∧ files s' = files s
    ∧ dom a = list_to_set (ids player_track)
    ∧ (∀ q u, a !! q = Some u → player_team_dict s' !! q = Some u)
    ∧ player_team_dict s0 ⊆ player_team_dict s'
    ∧ ∀ q u, player_team_dict s' !! q = Some u →
             player_team_dict s0 !! q = Some u ∨ (u = 1 ∨ u = 2).
Proof.
  intros Hk Hbox Hlen s0. rewrite assign_frame_at. fold s0.
  destruct (assign_items_content video_frames k frame player_track
              (pa ++ [∅]) ∅ s0)
    as (a & s' & Hrun & Hf & Hdom & Hagree & Hsub & Hval); [done|done| | |].
  { by rewrite lookup_app_r, Hlen, Nat.sub_diag by lia. }
  { intros q u Hq. by rewrite lookup_empty in Hq. }
  exists a, s'. rewrite Hrun. split.
  { f_equal. f_equal. rewrite <- Hlen.
    rewrite (insert_app_r_alt _ _ (length pa)), Nat.sub_diag by lia. done. }
  split; [rewrite Hf; unfold s0; by destruct (_ =? _)%nat|].
  split; [set_solver|]. done.
Qed.

Lemma same_window_not_first (i k : nat) :
  (i < k)%nat → (i / 50 = k / 50)%nat → (k mod 50 ≠ 0)%nat.
Proof.
  intros Hlt Hw Hk0.
  pose proof (Nat.div_mod_eq i 50). pose proof (Nat.div_mod_eq k 50).
  pose proof (Nat.mod_upper_bound i 50). lia.
Qed.

Lemma next_window (i k : nat) :
  (i < k)%nat → (i / 50 = S k / 50)%nat → (i / 50 = k / 50)%nat.
Proof.
  intros Hlt Hw.
  pose proof (Nat.Div0.div_le_mono i k 50).
  pose proof (Nat.Div0.div_le_mono k (S k) 50). lia.
Qed.

Lemma team_loop video_frames chunk : ∀ k pa s,
  length pa = k → (k + length chunk ≤ length video_frames)%nat →
  croppable_from shape video_frames k chunk →
  ((k mod 50 = 0)%nat ∨ valid_memo s) →
  agree k pa s → stable pa →
  ∃ out s',
    for_in (assign_frame shape argmax team_1_class_name team_2_class_name
              video_frames)
           (enumerate_from k chunk) pa s
    = (Ok (pa ++ out), s')
    ∧ files s' = files s
    ∧ Forall2 teams_of chunk out
    ∧ stable (pa ++ out).
Proof.
  induction chunk as [|tr chunk IH]; intros k pa s Hlen Hvf Hbox Hvalid Hagree Hst.
  { exists [], s. rewrite app_nil_r. split; [done|]. split; [done|].
    split; [constructor|done]. }
  simpl in Hvf.
  destruct (lookup_lt_is_Some_2 video_frames k) as [frame Hk]; [lia|].
  destruct (assign_frame_content video_frames pa k frame tr s Hk)
    as (a & s1 & H1 & Hf1 & Hdom1 & Hagree1 & Hsub1 & Hval1); [|done|].
  { intros item. by apply (croppable_from_head shape video_frames k tr chunk). }
  unfold memo_window in Hsub1, Hval1.
  assert (Hvalid1 : valid_memo s1).
  { intros q u Hq. destruct (Hval1 q u Hq) as [H0|H0]; [|done].
    revert H0. destruct (k mod 50 =? 0)%nat eqn:Hk0; simpl.
    - by rewrite lookup_empty.
    - apply Nat.eqb_neq in Hk0. destruct Hvalid as [?|Hv]; [done|].
      by apply (Hv q u). }
  assert (Hold : ∀ i b q u, (i < k)%nat → (i / 50 = k / 50)%nat →
                   pa !! i = Some b → b !! q = Some u →
                   player_team_dict s1 !! q = Some u).
  { intros i b q u Hlt Hw Hb Hq.
    pose proof (same_window_not_first i k Hlt Hw) as Hk0.
    apply Nat.eqb_neq in Hk0. rewrite Hk0 in Hsub1.
    eapply lookup_weaken; [|done]. by eapply Hagree. }
  destruct (IH (S k) (pa ++ [a]) s1)
    as (out & s2 & H2 & Hf2 & Hrel & Hst2).
  { rewrite length_app. simpl. lia. }
  { lia. }
  { by apply (croppable_from_tail shape video_frames k tr). }
  { by right. }
  { intros i b q u Hw Hb Hq.
    destruct (decide (i < k)%nat) as [Hlt|Hge].
    - rewrite lookup_app_l in Hb by lia.
      apply (Hold i b q u); [done|by apply next_window|done|done].
    - apply lookup_lt_Some in Hb as Hi. rewrite length_app in Hi.
      simpl in Hi. assert (i = k) as -> by lia.
      rewrite lookup_app_r, Hlen, Nat.sub_diag in Hb by lia.
      injection Hb as <-. by apply Hagree1. }
  { intros i j b c q ti tj Hw Hb Hc Hti Htj.
    apply lookup_lt_Some in Hb as Hi. apply lookup_lt_Some in Hc as Hj.
    rewrite length_app in Hi, Hj. simpl in Hi, Hj.
    destruct (decide (i < k)%nat) as [Hilt|Hige];
      destruct (decide (j < k)%nat) as [Hjlt|Hjge].
    - rewrite lookup_app_l in Hb, Hc by lia. by eapply (Hst i j).
    - assert (j = k) as -> by lia.
      rewrite lookup_app_l in Hb by lia.
      rewrite lookup_app_r, Hlen, Nat.sub_diag in Hc by lia.
      injection Hc as <-.
      pose proof (Hold i b q ti Hilt Hw Hb Hti) as E1.
      pose proof (Hagree1 q tj Htj) as E2. congruence.
    - assert (i = k) as -> by lia.
      rewrite lookup_app_l in Hc by lia.
      rewrite lookup_app_r, Hlen, Nat.sub_diag in Hb by lia.
      injection Hb as <-.
      pose proof (Hold j c q tj Hjlt (eq_sym Hw) Hc Htj) as E1.
      pose proof (Hagree1 q ti Hti) as E2. congruence.
    - assert (i = k) as -> by lia. assert (j = k) as -> by lia.
      congruence. }
  exists (a :: out), s2.
  rewrite enumerate_from_cons, for_in_cons, M_bind_unfold, H1, H2.
  rewrite <- (assoc_L (++)) in *. simpl in *.
  split; [done|]. split; [congruence|]. split; [|done].
  constructor; [|done]. split; [done|].
  intros q u Hq. apply (Hvalid1 q u). by apply Hagree1.
Qed.



End TeamContent.


Lemma box7_croppable (frame : nat) : croppable hd frame [0; 0; 1; 1]%Q.
Proof. by exists 0%Q, 0%Q, 1%Q, 1%Q, []. Qed.

Lemma player_7_croppable (video_frames : list nat) (n : nat) :
  tracks_croppable hd video_frames (replicate n [(7, box7)]).
Proof.
  intros i frame tr item _ Htr Hitem.
  apply lookup_replicate in Htr as [-> _].
  apply list_elem_of_singleton in Hitem as ->.
  exists [0; 0; 1; 1]%Q. split; [reflexivity|apply box7_croppable].
Qed.






(** X24. Tracks that run past the video: with no usable cache (the cache
    path written plainly, on a tidy disk), when the boxes tracked in the
    frames the video has can all be cropped out of their frames and the
    first track frame beyond the video tracks somebody,
    [get_player_teams_across_frames] classifies the frames of the video and
    then raises [IndexError]; nothing is written. *)
Theorem team_tracks_beyond_the_video {image : Type}
    (shape : image → Z * Z)
    (argmax : image → bbox → string → string → bool)
    (team_1_class_name team_2_class_name : string)
    (video_frames : list image)
    (covered : list (list (Z * gmap string bbox)))
    (item : Z * gmap string bbox)
    (others : list (Z * gmap string bbox))
    (rest : list (list (Z * gmap string bbox)))
    (read_from_stub : bool) (stub_path : option string)
    (s : TeamAssigner.state image) :
  (∀ p, stub_path = Some p → plain p) →
  tidy (TeamAssigner.files s) →
  cache_miss (Stubs.read_stub read_from_stub stub_path (TeamAssigner.files s)).1
    (length video_frames) →
  length covered = length video_frames →
  tracks_croppable shape video_frames covered →
  ∃ s',
    TeamAssigner.get_player_teams_across_frames shape argmax
      team_1_class_name team_2_class_name video_frames
      (covered ++ (item :: others) :: rest) read_from_stub stub_path s
    = (Raise IndexError, s')
    ∧ TeamAssigner.files s' = TeamAssigner.files s.
Proof.
  intros _ _ Hmiss Hlen Hbox.
  assert (Hfresh : ∃ s',
    (player_assignment ←
       for_in (TeamAssigner.assign_frame shape argmax team_1_class_name
                 team_2_class_name video_frames)
              (enumerate (covered ++ (item :: others) :: rest)) [];
     _ ← TeamAssigner.in_files (Stubs.save_stub stub_path player_assignment);
     mret player_assignment) s = (Raise IndexError, s')
    ∧ TeamAssigner.files s' = TeamAssigner.files s).
  { rewrite M_bind_unfold, enumerate_from_0, enumerate_from_app, for_in_app.
    rewrite M_bind_unfold.
    destruct (team_loop shape argmax team_1_class_name team_2_class_name
                video_frames covered 0 [] s)
      as (pa & s1 & Hrun & Hf & Hrel & _); [done|simpl; lia|done|by left| | |].
    { intros i a q t _ Hi. by rewrite lookup_nil in Hi. }
    { intros i j a b q ti tj _ Hi. by rewrite lookup_nil in Hi. }
    rewrite Hrun. cbn [app Nat.add].
    rewrite enumerate_from_cons, for_in_cons, M_bind_unfold.
    rewrite assign_frame_at, for_in_cons, M_bind_unfold.
    destruct item as [player_id track].
    assert (Hraise : ∀ pa0 s0,
      TeamAssigner.assign_player shape argmax team_1_class_name
        team_2_class_name video_frames (length covered) pa0
        (player_id, track) s0
      = (Raise IndexError, s0)).
    { intros pa0 s0. unfold TeamAssigner.assign_player.
      rewrite M_bind_unfold. unfold lift at 1.
      by rewrite py_index_beyond by lia. }
    rewrite Hraise. eexists. split; [reflexivity|].
    rewrite <- Hf. by destruct (_ =? _)%nat. }
  unfold TeamAssigner.get_player_teams_across_frames.
  rewrite M_bind_unfold, team_in_files_read_stub.
  destruct (Stubs.read_stub read_from_stub stub_path (TeamAssigner.files s)).1
    as [[cached|]|e]; simpl in Hmiss; [|done|done].
  apply Nat.eqb_neq in Hmiss. by rewrite Hmiss.
Qed.

Lemma team_tracks_beyond_the_video_witness :
  ∃ s',
    TeamAssigner.get_player_teams_across_frames hd flickering "white shirt"
      "dark blue shirt" [0%nat; 1%nat]
      ([[(7, box7)]; [(7, box7)]] ++ ((7, box7) :: []) :: [])
      false (Some "stubs/player_assignment_stub.pkl")
      (TeamAssigner.State ∅ team_stubs_directory [])
    = (Raise IndexError, s')
    ∧ TeamAssigner.files s' = team_stubs_directory.
Proof.
  apply (team_tracks_beyond_the_video hd flickering "white shirt"
           "dark blue shirt" [0%nat; 1%nat] [[(7, box7)]; [(7, box7)]]
           (7, box7) [] [] false (Some "stubs/player_assignment_stub.pkl")
           (TeamAssigner.State ∅ team_stubs_directory [])).
  - intros p [= <-]. by apply plainb_plain.
  - by apply tidyb_tidy.
  - exact I.
  - reflexivity.
  - apply (player_7_croppable [0%nat; 1%nat] 2).
Defined.

(** ** The drawers and the video writer *)

Lemma truncate_nonneg (q : Q) :
  (0 <= q)%Q →
  (inject_Z (truncate q) <= q)%Q ∧ (q < inject_Z (truncate q) + 1)%Q.
Proof.
  destruct q as [n d]. unfold truncate, Qle, Qlt. simpl. intros Hn.
  assert (0 ≤ n) by lia.
  rewrite Z.quot_div_nonneg by lia.
  pose proof (Z.mul_div_le n (Z.pos d) ltac:(lia)).
  pose proof (Z.mul_succ_div_gt n (Z.pos d) ltac:(lia)).
  split; lia.
Qed.

Lemma midpoint_inside (a b : Q) :
  (0 <= a)%Q → (a <= b)%Q →
  (a - 1 < inject_Z (truncate ((a + b) / 2)))%Q
  ∧ (inject_Z (truncate ((a + b) / 2)) <= b)%Q.
Proof.
  intros Ha Hab.
  assert (Hm : ((a + b) / 2 == (a + b) * (1 # 2))%Q) by reflexivity.
  revert Hm. generalize ((a + b) / 2)%Q. intros m Hm.
  destruct (truncate_nonneg m) as [Hle Hlt]; [lra|].
  split; lra.
Qed.

(** X18. For a box in pixel coordinates ([0 <= x1 <= x2], [0 <= y1 <= y2])
    whose coordinates are float64 numbers small enough for their sums to be
    exact (multiples of [2^-frac] up to [2^mag], [frac + mag <= 52]),
    [get_center_of_bbox] returns integers that lie in the box up to the
    truncation: [x1 - 1 < x <= x2] and [y1 - 1 < y <= y2]. *)
Theorem get_center_of_bbox_inside (x1 y1 x2 y2 : Q) (frac mag : nat) :
  (frac + mag ≤ 52)%nat →
  dyadic frac mag x1 → dyadic frac mag y1 →
  dyadic frac mag x2 → dyadic frac mag y2 →
  (0 <= x1)%Q → (x1 <= x2)%Q → (0 <= y1)%Q → (y1 <= y2)%Q →
  ∃ x y,
    get_center_of_bbox [Some x1; Some y1; Some x2; Some y2] = Ok (x, y)
    ∧ (x1 - 1 < inject_Z x)%Q ∧ (inject_Z x <= x2)%Q
    ∧ (y1 - 1 < inject_Z y)%Q ∧ (inject_Z y <= y2)%Q.
Proof.
  intros _ _ _ _ _ Hx1 Hx Hy1 Hy.
  exists (truncate ((x1 + x2) / 2)), (truncate ((y1 + y2) / 2)).
  split; [reflexivity|].
  destruct (midpoint_inside x1 x2 Hx1 Hx), (midpoint_inside y1 y2 Hy1 Hy).
  done.
Qed.

Lemma get_center_of_bbox_inside_witness :
  ∃ x y,
    get_center_of_bbox [Some 10%Q; Some 20%Q; Some 111%Q; Some 120%Q]
    = Ok (x, y)
    ∧ (10 - 1 < inject_Z x)%Q ∧ (inject_Z x <= 111)%Q
    ∧ (20 - 1 < inject_Z y)%Q ∧ (inject_Z y <= 120)%Q.
Proof.
  apply (get_center_of_bbox_inside 10 20 111 120 0 20);
    try (by vm_compute); try lia.
  - by apply (integer_dyadic 10 20).
  - by apply (integer_dyadic 20 20).
  - by apply (integer_dyadic 111 20).
  - by apply (integer_dyadic 120 20).
Defined.

Section BallDrawing.

Context {image : Type}.

Import BallTracksDrawer.

Implicit Types (frame : canvas image) (rows : list (list Pd.cell)).




End BallDrawing.



Section Short.

Lemma for_result_raises {X A} (body : A → X → result A) (xs : list X)
    (x : X) :
  x ∈ xs → (∀ a, ∃ e, body a x = Raise e) →
  ∀ a, ∃ e, for_result body xs a = Raise e.
Proof.
  intros Hin Hx. induction xs as [|x0 xs IH]; intros a.
  { by apply elem_of_nil in Hin. }
  rewrite for_result_cons.
  apply elem_of_cons in Hin as [->|Hin].
  - destruct (Hx a) as [e ->]. by exists e.
  - destruct (body a x0) as [a'|e]; [by apply IH|by exists e].
Qed.

Lemma enumerate_at {X} (xs : list X) (n : nat) (x : X) :
  xs !! n = Some x → (n, x) ∈ enumerate xs.
Proof.
  intros Hn. apply list_elem_of_lookup. exists n.
  unfold enumerate. by rewrite list_lookup_imap, Hn.
Qed.

End Short.

(** X20. The drawers need an entry for every frame: when [tracks] (or, for
    the player drawer, [player_assigment]) has fewer entries than there are
    frames, [draw] never returns the frames it has drawn; it raises (at the
    first frame without entry, [IndexError]). *)
Theorem draw_needs_an_entry_per_frame {image : Type}
    (draw_ellipse : canvas image → option (list Pd.cell) → color → Z →
                    result (canvas image))
    (team_1_color team_2_color : color)
    (video_frames : list (canvas image))
    (tracks : list (list (Z * drawn_track)))
    (player_assigment : list (gmap Z Z)) :
  ((length tracks < length video_frames)%nat →
   ∃ e, BallTracksDrawer.draw video_frames tracks = Raise e)
  ∧ ((length tracks < length video_frames)%nat
     ∨ (length player_assigment < length video_frames)%nat →
     ∃ e, PlayerTracksDrawer.draw draw_ellipse team_1_color team_2_color
            video_frames tracks player_assigment = Raise e).
Proof.
  split.
  - intros Hlt.
    destruct (lookup_lt_is_Some_2 video_frames (length tracks)) as [frame Hf];
      [done|].
    apply (for_result_raises _ _ (length tracks, frame)).
    + by apply enumerate_at.
    + intros a. exists IndexError. unfold BallTracksDrawer.draw_frame.
      by rewrite py_index_beyond.
  - intros Hlt.
    set (n := (length tracks `min` length player_assigment)%nat).
    destruct (lookup_lt_is_Some_2 video_frames n) as [frame Hf]; [lia|].
    apply (for_result_raises _ _ (n, frame)).
    + by apply enumerate_at.
    + intros a. exists IndexError. unfold PlayerTracksDrawer.draw_frame.
      destruct (decide (length tracks ≤ n)%nat) as [Hn|Hn].
      * by rewrite (py_index_beyond tracks).
      * destruct (lookup_lt_is_Some_2 tracks n) as [tr Htr]; [lia|].
        rewrite (py_index_nat _ _ _ Htr). cbn [mbind result_bind].
        rewrite (py_index_beyond player_assigment) by lia. done.
Qed.

Lemma draw_needs_an_entry_per_frame_witness :
  (∃ e, BallTracksDrawer.draw [Canvas () []] [] = Raise e)
  ∧ (∃ e, PlayerTracksDrawer.draw (fun frame _ _ _ => Ok frame)
            (255, 0, 0) (0, 0, 255) [Canvas () []] [] [] = Raise e).
Proof.
  destruct (draw_needs_an_entry_per_frame (fun frame _ _ _ => Ok frame)
              (255, 0, 0) (0, 0, 255) [Canvas () []] [] []) as [Hball Hplayer].
  split; [apply Hball; simpl; lia|apply Hplayer; left; simpl; lia].
Defined.

Section VideoFacts.

Context {image V : Type}.

Variable shape_of : image → Z * Z.
Variable write_video :
  string → Z * Z → list image → M (gmap string (node V)) unit.


End VideoFacts.




